(** * Detection and alerting pipeline: a shallow embedding

  The development follows the Python sources of the pipeline:
  - [utils/video_processor.py]  (module [VideoProcessor]),
  - [alerts/signals.py]         (module [NotificationEngine]),
  - [utils/model_manager.py]    (module [ModelManager]),
  - [utils/camera_manager.py]   (module [CameraManager]),
  - [utils/stream_proxy.py]     (module [StreamProxy]).
  The modules [...Run], [CameraStreams] and [StreamUrls] carry on with the
  same files, and with [Camera.get_stream_url] of [cameras/models.py].

  Python floats are only compared and copied by the code modelled here
  ([>=], [>], [max]); these operations are exact, so a float is read as
  the rational it denotes and the literals 0.9, 0.7, 0.5 as 9/10, 7/10,
  1/2.  What the outside world answers (a detector on a frame, an SMTP
  server, a camera, a child process) is an explicit argument of the
  functions. *)

From Stdlib Require Import QArith Lqa ZArith Lia.
From stdpp Require Import base strings pretty list gmap.

Local Open Scope string_scope.
Local Open Scope list_scope.

(** ** Python results: a value or a raised exception *)

Module Py.

Inductive res (A : Type) : Type :=
| Ret (a : A)
| Raise (e : string).
Arguments Ret {A} a.
Arguments Raise {A} e.

Definition bind {A B} (m : res A) (k : A -> res B) : res B :=
  match m with
  | Ret a => k a
  | Raise e => Raise e
  end.

(** [try: m except Exception as e: h e] *)
Definition try_except {A} (m : res A) (h : string -> res A) : res A :=
  match m with
  | Ret a => Ret a
  | Raise e => h e
  end.

(** Truth value of an optional string ([None] and [''] are false). *)
Definition truthy (s : option string) : bool :=
  match s with
  | None => false
  | Some s => negb (String.eqb s "")
  end.

End Py.

#[global] Instance res_bind : MBind Py.res := fun A B k m => Py.bind m k.
#[global] Instance res_ret : MRet Py.res := @Py.Ret.


(** ** utils/model_manager.py *)

Module ModelManager.
Import Py.

(** detectors.base_detector.BaseDetector, as the manager sees it. *)
Record Detector := { name : string; model_path : string }.

Record DetectorConfig := {
  conf_threshold : Q;
  iou_threshold : Q;
  image_size : Z
}.

Record ModelManager := {
  detectors : gmap string Detector;
  active_detector_key : string;
  detector_configs : gmap string DetectorConfig
}.

(** [__init__]; [MODEL_PATHS] is [settings.MODEL_PATHS]. *)
Definition init (MODEL_PATHS : string -> string) : ModelManager :=
  {| detectors :=
       {[ "fire_smoke" := {| name := "Fire and Smoke";
                             model_path := MODEL_PATHS "fire_smoke" |};
          "fall" := {| name := "Fall Detection"; model_path := MODEL_PATHS "fall" |};
          "violence" := {| name := "Violence Detection";
                           model_path := MODEL_PATHS "violence" |};
          "choking" := {| name := "Choking Detection";
                          model_path := MODEL_PATHS "choking" |} ]};
     active_detector_key := "fire_smoke";
     detector_configs :=
       {[ "fire_smoke" := {| conf_threshold := 25 # 100; iou_threshold := 45 # 100;
                             image_size := 640 |};
          "fall" := {| conf_threshold := 4 # 10; iou_threshold := 37 # 100;
                       image_size := 512 |};
          "violence" := {| conf_threshold := 35 # 100; iou_threshold := 35 # 100;
                           image_size := 736 |};
          "choking" := {| conf_threshold := 25 # 100; iou_threshold := 30 # 100;
                          image_size := 640 |} ]} |}.

Definition unknown_detector (detector_key : string) : string :=
  String.append "ValueError: Unknown detector: " detector_key.

(** [get_detector(detector_key=None)] *)
Definition get_detector (self : ModelManager) (detector_key : option string)
  : res Detector :=
  let detector_key := default (active_detector_key self) detector_key in
  match detectors self !! detector_key with
  | None => Raise (unknown_detector detector_key)
  | Some detector => Ret detector
  end.

(** [set_active_detector(detector_key)]: the manager afterwards, and the
    result. *)
Definition set_active_detector (self : ModelManager) (detector_key : string)
  : ModelManager * res Detector :=
  match detectors self !! detector_key with
  | None => (self, Raise (unknown_detector detector_key))
  | Some _ =>
      let self' := {| detectors := detectors self;
                      active_detector_key := detector_key;
                      detector_configs := detector_configs self |} in
      (self', get_detector self' None)
  end.

(** [get_detector_config(detector_key)] *)
Definition get_detector_config (self : ModelManager) (detector_key : string)
  : DetectorConfig :=
  match detector_configs self !! detector_key with
  | None => {| conf_threshold := 25 # 100; iou_threshold := 45 # 100;
               image_size := 640 |}
  | Some config => config
  end.

End ModelManager.

(** ** utils/video_processor.py *)

Module VideoProcessor.
Import Py.

(** [a >= b] and [a > b] on floats. *)
Definition ge (a b : Q) : bool := Qle_bool b a.
Definition gt (a b : Q) : bool := negb (Qle_bool a b).

(** The builtin [max(a, b)]: the first argument unless the second is
    strictly greater. *)
Definition max2 (a b : Q) : Q := if gt b a then b else a.

(** The builtin [max(l)] on a non-empty list (the caller has checked
    [if confidences:]); the first maximal element. *)
Definition max_list (x : Q) (l : list Q) : Q := fold_left max2 l x.

(** One element [r] of [results]: [r.boxes] is [None], or
    [r.boxes.conf.tolist()] is the given list. *)
Definition result := option (list Q).

(** A frame delivered by [cap.read()], with what [model.predict]
    answers on it (load_model and predict may raise). *)
Record frame := { predict : res (list result) }.

(** [BaseDetector.predict_video_frame]: [annotated_frame] is bound by
    the loop [for r in results], so an empty [results] raises at the
    [return]. *)
Definition predict_video_frame (f : frame) : res (list result) :=
  results ← predict f;
  match results with
  | [] => Raise "UnboundLocalError"
  | _ :: _ => Ret results
  end.

(** The descriptions the processor writes, by their template; [name] is
    the detector's name. *)
Inductive text :=
| AutomaticDetection (name : string)
    (* "Automatic detection of {name.lower()} in video." *)
| RealTimeDetection (name : string)
    (* "Real-time detection of {name.lower()} from camera {camera.name}." *)
| Detected (name : string) (detection_count : nat) (confidences : list Q)
    (* "Detected {name.lower()} in {detection_count} frames. "
       "Average confidence: {sum(confidences) / len(confidences):.2f}." *)
| NoneInVideo (name : string)
    (* "No {name.lower()} detected in the video." *)
| NoneInStream (name : string).
    (* "No {name.lower()} detected in the camera stream." *)

(** The fields of [alerts.models.Alert] the processor touches;
    [thumbnail_frame] is the frame number handed to [_create_thumbnail]
    ([None] when it is not called), not the frame that is read there. *)
Record Alert := {
  status : string;
  severity : string;
  confidence : Q;
  description : text;
  thumbnail_frame : option Z
}.

(** [Alert.objects.create(..., severity='medium', ...)]: status and
    confidence take the model defaults ['new'] and [0.0]. *)
Definition create_alert (d : text) : Alert :=
  {| status := "new"; severity := "medium"; confidence := 0;
     description := d; thumbnail_frame := None |}.

Inductive written := Annotated (n : Z) | Original (n : Z).

(** The local variables of the processing loop. *)
Record run := {
  alert : Alert;
  frame_count : Z;
  detection_count : nat;
  detection_frames : list Z;
  detection_confidences : list Q;
  out : list written
}.

Definition start_run (d : text) : run :=
  {| alert := create_alert d; frame_count := 0; detection_count := 0;
     detection_frames := []; detection_confidences := []; out := [] |}.

(** Severity from a confidence (lines 132-139 and 296-303). *)
Definition severity_for (confidence : Q) : string :=
  if ge confidence (9 # 10) then "critical"
  else if ge confidence (7 # 10) then "high"
  else if ge confidence (1 # 2) then "medium"
  else "low".

(** The loop [for r in results] (lines 110-122 and 274-286); the
    accumulator is [(has_detection, confidence)] and the tracking
    lists. *)
Definition scan_result (conf_threshold : Q) (acc : bool * Q * run) (r : result)
  : bool * Q * run :=
  let '(has_detection, confidence, st) := acc in
  match r with
  | None => acc
  | Some [] => acc
  | Some (c :: confidences) =>
      let max_conf := max_list c confidences in
      if ge max_conf conf_threshold then
        (true, max2 confidence max_conf,
         {| alert := alert st; frame_count := frame_count st;
            detection_count := S (detection_count st);
            detection_frames := detection_frames st ++ [frame_count st];
            detection_confidences := detection_confidences st ++ [max_conf];
            out := out st |})
      else acc
  end.

Definition scan_results (conf_threshold : Q) (results : list result) (st : run)
  : bool * Q * run :=
  fold_left (scan_result conf_threshold) results (false, 0%Q, st).

Definition write (w : written) (st : run) : run :=
  {| alert := alert st; frame_count := frame_count st;
     detection_count := detection_count st;
     detection_frames := detection_frames st;
     detection_confidences := detection_confidences st;
     out := out st ++ [w] |}.

Definition set_alert (a : Alert) (st : run) : run :=
  {| alert := a; frame_count := frame_count st;
     detection_count := detection_count st;
     detection_frames := detection_frames st;
     detection_confidences := detection_confidences st;
     out := out st |}.

(** Lines 128-141 and 292-305: raise the alert's confidence and set
    the severity with it. *)
Definition update_alert (has_detection : bool) (conf : Q) (a : Alert) : Alert :=
  if has_detection && gt conf (confidence a) then
    {| status := status a; severity := severity_for conf;
       confidence := conf; description := description a;
       thumbnail_frame := thumbnail_frame a |}
  else a.

(** The body of the [try] for a scored frame (lines 100-146 and
    264-310); on an exception of the detector the original frame is
    written.  [alert.save] is taken to go through here: the fields of the
    alert object do not depend on it.  What a failing save adds to the
    output video is written out in [VideoProcessorRun.score_frame_saving]. *)
Definition score_frame (conf_threshold : Q) (f : frame) (st : run) : run :=
  match predict_video_frame f with
  | Raise _ => write (Original (frame_count st)) st
  | Ret results =>
      let '(has_detection, confidence, st1) := scan_results conf_threshold results st in
      let st2 := write (Annotated (frame_count st)) st1 in
      set_alert (update_alert has_detection confidence (alert st2)) st2
  end.

Definition next_frame (st : run) : run :=
  {| alert := alert st; frame_count := frame_count st + 1;
     detection_count := detection_count st;
     detection_frames := detection_frames st;
     detection_confidences := detection_confidences st;
     out := out st |}.

(** The [while] loop of [process_video] (lines 91-149): [cap.read()]
    fails after the last frame; every 5th frame is scored. *)
Fixpoint video_loop (conf_threshold : Q) (frames : list frame) (st : run) : run :=
  match frames with
  | [] => st
  | f :: rest =>
      let st1 := next_frame st in
      video_loop conf_threshold rest
        (if (frame_count st1 mod 5 =? 0)%Z then score_frame conf_threshold f st1
         else write (Original (frame_count st1)) st1)
  end.

(** The [while] loop of [process_camera_stream] (lines 255-318).  Each
    frame comes with the [elapsed_time] measured after it.  The
    remainder by a [frame_rate] of zero is outside the inner [try] and
    raises. *)
Fixpoint stream_loop (conf_threshold : Q) (frame_rate : Z) (duration : Q)
    (frame_limit : Z) (frames : list (frame * Q)) (st : run) : res run :=
  match frames with
  | [] => Ret st
  | (f, elapsed_time) :: rest =>
      let st1 := next_frame st in
      if (frame_rate =? 0)%Z then Raise "ZeroDivisionError"
      else
        let st2 :=
          if (frame_count st1 mod frame_rate =? 0)%Z
          then score_frame conf_threshold f st1
          else write (Original (frame_count st1)) st1 in
        if ge elapsed_time duration || (frame_limit <=? frame_count st2)%Z
        then Ret st2
        else stream_loop conf_threshold frame_rate duration frame_limit rest st2
  end.

(** [l.index(x)] with float equality; [None] stands for ValueError. *)
Fixpoint index (x : Q) (l : list Q) : option nat :=
  match l with
  | [] => None
  | y :: l' => if Qeq_bool y x then Some 0%nat else S <$> index x l'
  end.

(** The frame number handed to [_create_thumbnail] (lines 164-170,
    333-339): that of the first detection with the greatest recorded
    confidence. *)
Definition best_frame (st : run) : option Z :=
  match detection_frames st, detection_confidences st with
  | _ :: _, c :: cs =>
      best_frame_idx ← index (max_list c cs) (c :: cs);
      detection_frames st !! best_frame_idx
  | _, _ => None
  end.

(** After the loop (lines 155-175 and 324-344). *)
Definition finish (name : string) (nothing : text) (st : run) : Alert :=
  let a := alert st in
  if (0 <? detection_count st)%nat then
    {| status := status a; severity := severity a; confidence := confidence a;
       description := Detected name (detection_count st) (detection_confidences st);
       thumbnail_frame := best_frame st |}
  else
    {| status := "false_positive"; severity := severity a;
       confidence := confidence a; description := nothing;
       thumbnail_frame := thumbnail_frame a |}.

(** [process_video(video_path, detector_key, conf_threshold, ...)];
    [video] is [None] when [cap.isOpened()] fails. *)
Definition process_video (self : ModelManager.ModelManager)
    (video : option (list frame)) (detector_key : string) (conf_threshold : Q)
  : res Alert :=
  detector ← ModelManager.get_detector self (Some detector_key);
  match video with
  | None => Raise "ValueError: Failed to open video file"
  | Some frames =>
      let name := ModelManager.name detector in
      Ret (finish name (NoneInVideo name)
             (video_loop conf_threshold frames (start_run (AutomaticDetection name))))
  end.

(** The fields of [cameras.models.Camera] the processor touches. *)
Record Camera := { camera_status : string; frame_rate : Z }.

(** [process_camera_stream(camera_id, detector_key, duration, frame_limit)];
    returns the camera with the result.  [camera] is [None] when no
    camera has the id, [stream] when the stream cannot be opened. *)
Definition process_camera_stream (self : ModelManager.ModelManager)
    (camera : option Camera) (detector_key : string)
    (stream : option (list (frame * Q))) (duration : Q) (frame_limit : Z)
  : option Camera * res Alert :=
  match camera with
  | None => (None, Raise "ValueError: Camera not found.")
  | Some camera =>
      match ModelManager.get_detector self (Some detector_key) with
      | Raise e => (Some camera, Raise e)
      | Ret detector =>
          let config := ModelManager.get_detector_config self detector_key in
          let conf_threshold := ModelManager.conf_threshold config in
          match stream with
          | None =>
              (Some {| camera_status := "offline"; frame_rate := frame_rate camera |},
               Raise "ValueError: Failed to open camera stream")
          | Some frames =>
              let name := ModelManager.name detector in
              (Some {| camera_status := "online"; frame_rate := frame_rate camera |},
               st ← stream_loop conf_threshold (frame_rate camera) duration
                      frame_limit frames (start_run (RealTimeDetection name));
               Ret (finish name (NoneInStream name) st))
          end
      end
  end.

(** The loop of [process_camera_stream] once more, keeping the local
    variables when line 263 raises: the state in which the loop is left,
    and whether it raised. *)
Fixpoint stream_loop_left (conf_threshold : Q) (frame_rate : Z) (duration : Q)
    (frame_limit : Z) (frames : list (frame * Q)) (st : run) : run * res unit :=
  match frames with
  | [] => (st, Ret tt)
  | (f, elapsed_time) :: rest =>
      let st1 := next_frame st in
      if (frame_rate =? 0)%Z then (st1, Raise "ZeroDivisionError")
      else
        let st2 :=
          if (frame_count st1 mod frame_rate =? 0)%Z
          then score_frame conf_threshold f st1
          else write (Original (frame_count st1)) st1 in
        if ge elapsed_time duration || (frame_limit <=? frame_count st2)%Z
        then (st2, Ret tt)
        else stream_loop_left conf_threshold frame_rate duration frame_limit rest st2
  end.

(** The Alert that [process_camera_stream] leaves behind, returned or
    not: none when the call fails before line 236 creates it; the Alert
    as the loop left it when the loop raises (the handlers of lines
    349-354 log and re-raise, they do not touch it); the finished Alert
    otherwise. *)
Definition alert_left (self : ModelManager.ModelManager)
    (camera : option Camera) (detector_key : string)
    (stream : option (list (frame * Q))) (duration : Q) (frame_limit : Z)
  : option Alert :=
  match camera with
  | None => None
  | Some camera =>
      match ModelManager.get_detector self (Some detector_key) with
      | Raise _ => None
      | Ret detector =>
          let config := ModelManager.get_detector_config self detector_key in
          let conf_threshold := ModelManager.conf_threshold config in
          match stream with
          | None => None
          | Some frames =>
              let name := ModelManager.name detector in
              match stream_loop_left conf_threshold (frame_rate camera) duration
                      frame_limit frames (start_run (RealTimeDetection name)) with
              | (st, Ret _) => Some (finish name (NoneInStream name) st)
              | (st, Raise _) => Some (alert st)
              end
          end
      end
  end.

(** *** The detections of a run, as the specification speaks of them *)

Definition confidences_of (r : result) : list Q := default [] r.

(** The confidences of a scored frame that are at least the threshold
    (none when the detector raised on it). *)
Definition cleared_in_frame (conf_threshold : Q) (f : frame) : list Q :=
  match predict_video_frame f with
  | Ret results =>
      List.filter (fun c => ge c conf_threshold)
        (concat (map confidences_of results))
  | Raise _ => []
  end.

(** The frames whose number, counted from [count + 1], is a multiple of
    the stride. *)
Fixpoint scored (stride count : Z) (frames : list frame) : list frame :=
  match frames with
  | [] => []
  | f :: rest =>
      (if ((count + 1) mod stride =? 0)%Z then [f] else [])
        ++ scored stride (count + 1) rest
  end.

Definition cleared (conf_threshold : Q) (stride : Z) (frames : list frame) : list Q :=
  concat (map (cleared_in_frame conf_threshold) (scored stride 0 frames)).

(** The frames a live run reads before the duration or the frame limit
    stops it. *)
Fixpoint frames_read (duration : Q) (frame_limit count : Z)
    (frames : list (frame * Q)) : list frame :=
  match frames with
  | [] => []
  | (f, elapsed_time) :: rest =>
      f :: (if ge elapsed_time duration || (frame_limit <=? count + 1)%Z
            then []
            else frames_read duration frame_limit (count + 1) rest)
  end.

(** [m] is the greatest element of [l], or zero when [l] is empty. *)
Definition max_or_zero (l : list Q) (m : Q) : Prop :=
  match l with
  | [] => m == 0
  | _ :: _ => (exists x, In x l /\ x == m) /\ (forall x, In x l -> x <= m)
  end%Q.

(** Detector scores are never negative. *)
Definition scores_nonneg (frames : list frame) : Prop :=
  forall f results r c,
    In f frames -> predict f = Ret results -> In r results ->
    In c (confidences_of r) -> (0 <= c)%Q.

(** *** Invariants of the loops *)

(** What the loop over the results of one frame maintains: [C] collects
    the confidences seen so far in this frame that cleared the
    threshold, [st0] is the state when the frame was entered. *)
Definition frame_inv (st0 : run) (C : list Q) (acc : bool * Q * run) : Prop :=
  (let '(has_detection, conf, st) := acc in
  alert st = alert st0 /\
  frame_count st = frame_count st0 /\
  out st = out st0 /\
  (has_detection = true <-> C <> []) /\
  0 <= conf /\
  (forall x, In x C -> x <= conf) /\
  (conf = 0 \/ In conf C) /\
  ((detection_count st = detection_count st0 /\ C = []) \/
   ((0 < detection_count st)%nat /\ C <> [])))%Q.

(** What a run maintains: [L] collects the cleared confidences of the
    frames scored so far. *)
Definition run_inv (L : list Q) (st : run) : Prop :=
  (0 <= confidence (alert st) /\
  (forall x, In x L -> x <= confidence (alert st)) /\
  (confidence (alert st) = 0 \/ In (confidence (alert st)) L) /\
  (detection_count st = 0%nat <-> L = []) /\
  status (alert st) = "new")%Q.

(** Sample frames: the detector finds nothing, or one box of the
    given confidence. *)
Definition silent (n : nat) : list frame := replicate n {| predict := Ret [None] |}.
Definition hit (c : Q) : frame := {| predict := Ret [Some [c]] |}.

Definition sample_manager : ModelManager.ModelManager :=
  ModelManager.init (fun key => key).

Definition every_frame : Camera := {| camera_status := "offline"; frame_rate := 1 |}.

End VideoProcessor.


(** ** alerts/signals.py *)

Module NotificationEngine.
Import Py.

(** [datetime.time]; two times compare as the tuples
    (hour, minute, second, microsecond). *)
Record time := { hour : nat; minute : nat; second : nat; microsecond : nat }.

Definition time_compare (a b : time) : comparison :=
  match hour a ?= hour b with
  | Eq =>
      match minute a ?= minute b with
      | Eq =>
          match second a ?= second b with
          | Eq => microsecond a ?= microsecond b
          | c => c
          end
      | c => c
      end
  | c => c
  end%nat.

(** [a <= b] on times. *)
Definition time_le (a b : time) : bool :=
  match time_compare a b with Gt => false | _ => true end.

(** notifications.models.NotificationSetting *)
Record NotificationSetting := {
  email_enabled : bool;
  email_for_fire_smoke : bool;
  email_for_fall : bool;
  email_for_violence : bool;
  email_for_choking : bool;
  email_for_unauthorized_face : bool;
  sms_enabled : bool;
  sms_for_fire_smoke : bool;
  sms_for_fall : bool;
  sms_for_violence : bool;
  sms_for_choking : bool;
  sms_for_unauthorized_face : bool;
  push_enabled : bool;
  push_for_fire_smoke : bool;
  push_for_fall : bool;
  push_for_violence : bool;
  push_for_choking : bool;
  push_for_unauthorized_face : bool;
  quiet_hours_enabled : bool;
  quiet_hours_start : time;
  quiet_hours_end : time;
  min_severity_email : string;
  min_severity_sms : string;
  min_severity_push : string
}.

Record User := { email : string; phone_number : option string }.

(** The alert instance handed to the signal: [camera] holds the owner of
    the alert's camera and that owner's settings, when they exist. *)
Record Alert := {
  alert_type : string;
  severity : string;
  camera : option (User * option NotificationSetting)
}.

(** The three flags [should_send_email], [should_send_sms],
    [should_send_push]. *)
Record should_send := { by_email : bool; by_sms : bool; by_push : bool }.

(** Lines 29-52. *)
Definition enabled_for_type (s : NotificationSetting) (instance : Alert) : should_send :=
  if String.eqb (alert_type instance) "fire_smoke" then
    {| by_email := email_enabled s && email_for_fire_smoke s;
       by_sms := sms_enabled s && sms_for_fire_smoke s;
       by_push := push_enabled s && push_for_fire_smoke s |}
  else if String.eqb (alert_type instance) "fall" then
    {| by_email := email_enabled s && email_for_fall s;
       by_sms := sms_enabled s && sms_for_fall s;
       by_push := push_enabled s && push_for_fall s |}
  else if String.eqb (alert_type instance) "violence" then
    {| by_email := email_enabled s && email_for_violence s;
       by_sms := sms_enabled s && sms_for_violence s;
       by_push := push_enabled s && push_for_violence s |}
  else if String.eqb (alert_type instance) "choking" then
    {| by_email := email_enabled s && email_for_choking s;
       by_sms := sms_enabled s && sms_for_choking s;
       by_push := push_enabled s && push_for_choking s |}
  else if String.eqb (alert_type instance) "unauthorized_face" then
    {| by_email := email_enabled s && email_for_unauthorized_face s;
       by_sms := sms_enabled s && sms_for_unauthorized_face s;
       by_push := push_enabled s && push_for_unauthorized_face s |}
  else
    {| by_email := false; by_sms := false; by_push := false |}.

(** Line 55. *)
Definition severity_rank : gmap string nat :=
  {[ "low" := 1%nat; "medium" := 2%nat; "high" := 3%nat; "critical" := 4%nat ]}.

(** [d.get(key, default)] *)
Definition get (d : gmap string nat) (key : string) (default_ : nat) : nat :=
  default default_ (d !! key).

(** The rank of an alert's severity (line 56). *)
Definition rank (severity : string) : nat := get severity_rank severity 2.

(** Lines 56-65. *)
Definition check_severity (s : NotificationSetting) (instance : Alert)
    (flags : should_send) : should_send :=
  let alert_severity_rank := rank (severity instance) in
  let email_threshold_rank := get severity_rank (min_severity_email s) 2 in
  let sms_threshold_rank := get severity_rank (min_severity_sms s) 3 in
  let push_threshold_rank := get severity_rank (min_severity_push s) 2 in
  {| by_email := by_email flags && (email_threshold_rank <=? alert_severity_rank)%nat;
     by_sms := by_sms flags && (sms_threshold_rank <=? alert_severity_rank)%nat;
     by_push := by_push flags && (push_threshold_rank <=? alert_severity_rank)%nat |}.

Definition silence : should_send :=
  {| by_email := false; by_sms := false; by_push := false |}.

(** Lines 68-87. *)
Definition check_quiet_hours (s : NotificationSetting) (instance : Alert)
    (current_time : time) (flags : should_send) : should_send :=
  if quiet_hours_enabled s then
    let start_time := quiet_hours_start s in
    let end_time := quiet_hours_end s in
    if time_le start_time end_time then
      if time_le start_time current_time && time_le current_time end_time then
        if negb (String.eqb (severity instance) "critical") then silence
        else flags
      else flags
    else
      if negb (time_le end_time current_time && time_le current_time start_time) then
        if negb (String.eqb (severity instance) "critical") then silence
        else flags
      else flags
  else flags.

(** The flags when the dispatch begins (line 89). *)
Definition decide (s : NotificationSetting) (instance : Alert)
    (current_time : time) : should_send :=
  check_quiet_hours s instance current_time
    (check_severity s instance (enabled_for_type s instance)).

(** notifications.models.NotificationLog, the fields the signal sets. *)
Record NotificationLog := {
  notification_type : string;
  status : string;
  sent_at : option Z;
  error_message : option string
}.

Inductive db_write :=
| Insert (pk : nat) (row : NotificationLog)   (* NotificationLog.objects.create *)
| Update (pk : nat) (row : NotificationLog).  (* notification_log.save() *)

(** The log table with the journal of the writes made to it, and the
    local variable [notification_log] ([None] while it is unbound). *)
Record state := {
  table : list NotificationLog;
  journal : list db_write;
  notification_log : option (nat * NotificationLog)
}.

(** What the outside answers during one dispatch: for each channel an
    exception or none. *)
Record world := {
  current_time : time;                         (* timezone.now().time() *)
  now : string -> Z;                           (* timezone.now() at the update *)
  create_raises : string -> option string;     (* NotificationLog.objects.create *)
  send_raises : string -> option string;       (* send_mail, or the gateway's place *)
  save_raises : string -> string -> option string  (* notification_log.save() *)
}.

(** Statements: the state is kept when an exception is raised. *)
Definition M (A : Type) : Type := state -> state * res A.

#[global] Instance M_ret : MRet M := fun A a st => (st, Ret a).
#[global] Instance M_bind : MBind M := fun A B k m st =>
  match m st with
  | (st', Ret a) => k a st'
  | (st', Raise e) => (st', Raise e)
  end.

(** [try: body except Exception as e: handler] *)
Definition try_ {A} (body : M A) (handler : string -> M A) : M A :=
  fun st =>
    match body st with
    | (st', Ret a) => (st', Ret a)
    | (st', Raise e) => handler e st'
    end.

Definition when (b : bool) (body : M unit) : M unit :=
  if b then body else mret tt.

Section Dispatch.
Variable w : world.

Definition create (channel : string) : M unit := fun st =>
  match create_raises w channel with
  | Some e => (st, Raise e)
  | None =>
      let row := {| notification_type := channel; status := "pending";
                    sent_at := None; error_message := None |} in
      let pk := length (table st) in
      ({| table := table st ++ [row];
          journal := journal st ++ [Insert pk row];
          notification_log := Some (pk, row) |}, Ret tt)
  end.

(** Reading the local variable; unbound, it raises. *)
Definition the_log : M (nat * NotificationLog) := fun st =>
  match notification_log st with
  | Some l => (st, Ret l)
  | None => (st, Raise "UnboundLocalError")
  end.

Definition assign (f : NotificationLog -> NotificationLog) : M unit := fun st =>
  match notification_log st with
  | Some (pk, row) =>
      ({| table := table st; journal := journal st;
          notification_log := Some (pk, f row) |}, Ret tt)
  | None => (st, Raise "UnboundLocalError")
  end.

Definition save : M unit := fun st =>
  match notification_log st with
  | Some (pk, row) =>
      match save_raises w (notification_type row) (status row) with
      | Some e => (st, Raise e)
      | None =>
          ({| table := <[pk := row]> (table st);
              journal := journal st ++ [Update pk row];
              notification_log := notification_log st |}, Ret tt)
      end
  | None => (st, Raise "UnboundLocalError")
  end.

Definition send (channel : string) : M unit := fun st =>
  match send_raises w channel with
  | Some e => (st, Raise e)
  | None => (st, Ret tt)
  end.

Definition mark_sent (channel : string) (row : NotificationLog) : NotificationLog :=
  {| notification_type := notification_type row; status := "sent";
     sent_at := Some (now w channel); error_message := error_message row |}.

Definition mark_failed (e : string) (row : NotificationLog) : NotificationLog :=
  {| notification_type := notification_type row; status := "failed";
     sent_at := sent_at row; error_message := Some e |}.

(** Lines 97-126: the row is created inside the [try]. *)
Definition send_email (flags : should_send) : M unit :=
  when (by_email flags)
    (try_
       (create "email";; send "email";; assign (mark_sent "email");; save)
       (fun e => _ ← the_log; assign (mark_failed e);; save)).

(** Lines 129-151: the row is created before the [try]. *)
Definition send_sms (flags : should_send) (user : User) : M unit :=
  when (by_sms flags && truthy (phone_number user))
    (create "sms";;
     try_
       (send "sms";; assign (mark_sent "sms");; save)
       (fun e => assign (mark_failed e);; save)).

(** Lines 154-176. *)
Definition send_push (flags : should_send) : M unit :=
  when (by_push flags)
    (create "push";;
     try_
       (send "push";; assign (mark_sent "push");; save)
       (fun e => assign (mark_failed e);; save)).

(** [send_alert_notifications]: the log table after the signal, the
    table [db] before it. *)
Definition send_alert_notifications (created : bool) (instance : Alert)
    (db : list NotificationLog) : state :=
  let st0 := {| table := db; journal := []; notification_log := None |} in
  if created then
    match camera instance with
    | Some (user, Some notification_settings) =>
        let flags := decide notification_settings instance (current_time w) in
        fst (try_
               (send_email flags;; send_sms flags user;; send_push flags)
               (fun _ => mret tt) st0)
    | Some (_, None) => st0
    | None => st0
    end
  else st0.

End Dispatch.

(** *** The policy, as the specification speaks of it *)

Definition channels : list string := ["email"; "sms"; "push"].

Definition flag (flags : should_send) (channel : string) : bool :=
  if String.eqb channel "email" then by_email flags
  else if String.eqb channel "sms" then by_sms flags
  else if String.eqb channel "push" then by_push flags
  else false.

(** The channel's global enable flag. *)
Definition globally_enabled (s : NotificationSetting) (channel : string) : bool :=
  flag {| by_email := email_enabled s; by_sms := sms_enabled s;
          by_push := push_enabled s |} channel.

(** The toggle of a channel for an alert type; the settings have one for
    five alert types. *)
Definition type_toggle (s : NotificationSetting) (channel ty : string) : option bool :=
  if String.eqb ty "fire_smoke" then
    Some (flag {| by_email := email_for_fire_smoke s; by_sms := sms_for_fire_smoke s;
                  by_push := push_for_fire_smoke s |} channel)
  else if String.eqb ty "fall" then
    Some (flag {| by_email := email_for_fall s; by_sms := sms_for_fall s;
                  by_push := push_for_fall s |} channel)
  else if String.eqb ty "violence" then
    Some (flag {| by_email := email_for_violence s; by_sms := sms_for_violence s;
                  by_push := push_for_violence s |} channel)
  else if String.eqb ty "choking" then
    Some (flag {| by_email := email_for_choking s; by_sms := sms_for_choking s;
                  by_push := push_for_choking s |} channel)
  else if String.eqb ty "unauthorized_face" then
    Some (flag {| by_email := email_for_unauthorized_face s;
                  by_sms := sms_for_unauthorized_face s;
                  by_push := push_for_unauthorized_face s |} channel)
  else None.

(** Rank of a severity and of a channel's minimum severity, with the
    defaults the code gives to a value outside the four names. *)
Definition alert_rank (instance : Alert) : nat := rank (severity instance).

Definition min_rank (s : NotificationSetting) (channel : string) : nat :=
  if String.eqb channel "email" then get severity_rank (min_severity_email s) 2
  else if String.eqb channel "sms" then get severity_rank (min_severity_sms s) 3
  else get severity_rank (min_severity_push s) 2.

(** The rows of a channel written during a dispatch. *)
Definition row_of (wr : db_write) : NotificationLog :=
  match wr with Insert _ row => row | Update _ row => row end.

Definition writes_of (channel : string) (j : list db_write) : list db_write :=
  List.filter (fun wr => String.eqb (notification_type (row_of wr)) channel) j.

(** A statement that only appends writes of one channel to the journal,
    and none when it is switched off. *)
Definition typed (channel : string) (ws : list db_write) : Prop :=
  Forall (fun wr => notification_type (row_of wr) = channel) ws.

Definition appends (channel : string) (active : bool) (m : M unit) (st : state)
  : Prop :=
  exists ws, journal (fst (m st)) = journal st ++ ws /\ typed channel ws /\
             (active = false -> ws = []).

(** The row a channel's attempt starts with, and the row it ends with. *)
Definition pending (channel : string) : NotificationLog :=
  {| notification_type := channel; status := "pending"; sent_at := None;
     error_message := None |}.

Definition outcome (w : world) (channel : string) : NotificationLog :=
  match send_raises w channel with
  | None => {| notification_type := channel; status := "sent";
               sent_at := Some (now w channel); error_message := None |}
  | Some e => {| notification_type := channel; status := "failed";
                 sent_at := None; error_message := Some e |}
  end.

(** The state after an attempt on a channel that the log table did not
    disturb. *)
Definition after_attempt (w : world) (channel : string) (active : bool)
    (st : state) : state :=
  if active then
    let pk := length (table st) in
    {| table := <[pk := outcome w channel]> (table st ++ [pending channel]);
       journal := journal st ++ [Insert pk (pending channel);
                                 Update pk (outcome w channel)];
       notification_log := Some (pk, outcome w channel) |}
  else st.

(** Whether a channel is attempted: its flag at the dispatch and, for
    SMS, a phone number on file. *)
Definition attempted (flags : should_send) (user : User) (channel : string) : bool :=
  flag flags channel
  && (if String.eqb channel "sms" then truthy (phone_number user) else true).

(** The quiet-hours window as a closed interval of the day: from start
    to end, passing midnight when the start is after the end. *)
Definition in_window (start_time end_time t : time) : bool :=
  if time_le start_time end_time
  then time_le start_time t && time_le t end_time
  else time_le start_time t || time_le t end_time.

(** Sample data. *)
Definition at_ (h m : nat) : time :=
  {| hour := h; minute := m; second := 0; microsecond := 0 |}.

Definition all_on (quiet : bool) (start_time end_time : time) : NotificationSetting :=
  {| email_enabled := true; email_for_fire_smoke := true; email_for_fall := true;
     email_for_violence := true; email_for_choking := true;
     email_for_unauthorized_face := true;
     sms_enabled := true; sms_for_fire_smoke := true; sms_for_fall := true;
     sms_for_violence := true; sms_for_choking := true;
     sms_for_unauthorized_face := true;
     push_enabled := true; push_for_fire_smoke := true; push_for_fall := true;
     push_for_violence := true; push_for_choking := true;
     push_for_unauthorized_face := true;
     quiet_hours_enabled := quiet; quiet_hours_start := start_time;
     quiet_hours_end := end_time;
     min_severity_email := "medium"; min_severity_sms := "high";
     min_severity_push := "medium" |}.

Definition owner : User :=
  {| email := "owner@example.org"; phone_number := Some "+10000000000" |}.

Definition calm (t : time) (smtp : option string) : world :=
  {| current_time := t; now := fun _ => 0%Z;
     create_raises := fun _ => None;
     send_raises := fun ch => if String.eqb ch "email" then smtp else None;
     save_raises := fun _ _ => None |}.

End NotificationEngine.
(** ** utils/camera_manager.py *)

Module CameraManager.
Import Py.

Inductive frame := Frame (pixels : list nat).

(** The values held by the result dictionaries. *)
Inductive value :=
| VBool (b : bool)
| VStr (s : string)
| VNone
| VFrame (f : frame).

Abbreviation dict := (gmap string value).

(** The camera object as the manager reads it. *)
Record Camera := {
  camera_type : string;
  url : string;
  username : option string;
  password : option string;
  status : string
}.

(** A [cv2.VideoCapture] object: what its methods answer. *)
Record VideoCapture := {
  isOpened : res bool;
  grab : res bool;
  read : res (option frame)      (* (ret, frame): [None] when ret is False *)
}.

Record Response := {
  status_code : Z;
  content_type : string;         (* headers.get('Content-Type', '') *)
  imdecode : res (option frame)  (* cv2.imdecode of the content *)
}.

Inductive request_result :=
| Responded (response : Response)
| Timeout
| RequestException (e : string)
| OtherException (e : string).

(** What the outside answers to the manager. *)
Record world := {
  cv2_VideoCapture : string -> res VideoCapture;   (* by URL, path or device *)
  requests_get : string -> request_result;
  isfile : string -> res bool;
  MEDIA_ROOT : string;
  save_raises : string -> option string            (* Camera.save, by new status *)
}.

Definition cat (a b : string) : string := String.append a b.

(** [s.split(sep, 1)]: the part before the first [sep] and, when [sep]
    occurs, the part after it. *)
Definition split1 (sep s : string) : string * option string :=
  match String.index 0 sep s with
  | Some i =>
      (String.substring 0 i s,
       Some (String.substring (i + String.length sep)
               (String.length s - (i + String.length sep)) s))
  | None => (s, None)
  end.

(** [sub in s] *)
Definition contains (sub s : string) : bool :=
  match String.index 0 sub s with Some _ => true | None => false end.

(** Lines 258-271 and 473-486: the URL with embedded credentials. *)
Definition rtsp_url (camera : Camera) : string :=
  if truthy (username camera) && truthy (password camera) then
    if negb (contains "@" (url camera)) then
      match split1 "://" (url camera) with
      | (protocol, Some rest) =>
          let '(host, path) := split1 "/" rest in
          cat protocol (cat "://" (cat (default "" (username camera))
            (cat ":" (cat (default "" (password camera))
              (cat "@" (cat host (cat "/" (default "" path))))))))
      | (_, None) => url camera
      end
    else url camera
  else url camera.

Definition is_digit (c : Ascii.ascii) : bool :=
  (48 <=? Ascii.nat_of_ascii c)%nat && (Ascii.nat_of_ascii c <=? 57)%nat.

(** [s.isdigit()] on ASCII text.  Strings are read as byte strings; on a
    string with characters outside ASCII (where Python also counts other
    Unicode digits) this function is not Python's. *)
Fixpoint all_digits (s : string) : bool :=
  match s with
  | EmptyString => true
  | String c s' => is_digit c && all_digits s'
  end.

Definition isdigit (s : string) : bool :=
  negb (String.eqb s "") && all_digits s.

(** [int(s)] on a string of ASCII digits (of at most 4300 digits, the
    longest that [int] converts); on the other strings that Python's
    [isdigit] accepts, [int] raises ValueError or reads another value,
    inside the [try] of the function that calls it. *)
Fixpoint int_acc (acc : nat) (s : string) : nat :=
  match s with
  | EmptyString => acc
  | String c s' => int_acc (10 * acc + (Ascii.nat_of_ascii c - 48)) s'
  end.

(** Lines 346-348 and 544-546: the device index, as the code computes
    it for an address of ASCII text. *)
Definition device_index (camera : Camera) : nat :=
  if isdigit (url camera) then int_acc 0 (url camera) else 0%nat.

Definition device_name (i : nat) : string := pretty i.

Definition result2 (success : bool) (message : string) : dict :=
  {[ "success" := VBool success; "message" := VStr message ]}.

Definition result3 (success : bool) (message : string) (f : value) : dict :=
  {[ "success" := VBool success; "message" := VStr message; "frame" := f ]}.

#[global] Arguments result2 : simpl never.
#[global] Arguments result3 : simpl never.
#[global] Arguments cat : simpl never.

Section Manager.
Variable w : world.

(** [_verify_rtsp_connection] *)
Definition _verify_rtsp_connection (camera : Camera) : res dict :=
  try_except
    (cap ← cv2_VideoCapture w (rtsp_url camera);
     opened ← isOpened cap;
     success ← (if (opened : bool) then grab cap else Ret false);
     if (success : bool) then Ret (result2 true "RTSP connection successful")
     else Ret (result2 false "Failed to connect to RTSP stream"))
    (fun e => Ret (result2 false (cat "RTSP connection error: " e))).

(** [_verify_http_connection]: only the exceptions of [requests] are
    handled here. *)
Definition _verify_http_connection (camera : Camera) : res dict :=
  match requests_get w (url camera) with
  | Responded response =>
      if (status_code response =? 200)%Z
         && (contains "image" (content_type response)
             || contains "video" (content_type response))
      then Ret (result2 true "HTTP connection successful")
      else Ret (result2 false
                  (cat "HTTP connection failed with status "
                       (pretty (status_code response))))
  | Timeout => Ret (result2 false "HTTP connection timed out")
  | RequestException e => Ret (result2 false (cat "HTTP connection error: " e))
  | OtherException e => Raise e
  end.

(** [_verify_local_connection] *)
Definition _verify_local_connection (camera : Camera) : res dict :=
  try_except
    (let device_index := device_index camera in
     cap ← cv2_VideoCapture w (device_name device_index);
     opened ← isOpened cap;
     if negb opened then
       Ret (result2 false
              (cat "Failed to open webcam at index " (pretty device_index)))
     else
       ret ← read cap;
       match ret with
       | Some _ => Ret (result2 true "Local webcam connection successful")
       | None => Ret (result2 false "Failed to read frame from webcam")
       end)
    (fun e => Ret (result2 false (cat "Webcam connection error: " e))).

(** [os.path.join(settings.MEDIA_ROOT, file_path)]: an absolute
    [file_path] stands for itself. *)
Definition media_path (file_path : string) : string :=
  if String.prefix "/" file_path then file_path
  else cat (MEDIA_ROOT w) (cat "/" file_path).

(** [_verify_file_connection] *)
Definition _verify_file_connection (camera : Camera) : res dict :=
  try_except
    (let file_path := url camera in
     there ← isfile w file_path;
     in_media ← (if (there : bool) then Ret true else isfile w (media_path file_path));
     if negb in_media then
       Ret (result2 false (cat "Video file not found: " file_path))
     else
       let file_path := if (there : bool) then file_path else media_path file_path in
       cap ← cv2_VideoCapture w file_path;
       opened ← isOpened cap;
       if negb opened then
         Ret (result2 false (cat "Failed to open video file: " file_path))
       else
         ret ← read cap;
         match ret with
         | Some _ => Ret (result2 true "Video file connection successful")
         | None => Ret (result2 false "Failed to read frame from video file")
         end)
    (fun e => Ret (result2 false (cat "Video file error: " e))).

(** [verify_camera_connection] *)
Definition verify_camera_connection (camera : Camera) : res dict :=
  try_except
    (if String.eqb (camera_type camera) "rtsp" then _verify_rtsp_connection camera
     else if String.eqb (camera_type camera) "http" then _verify_http_connection camera
     else if String.eqb (camera_type camera) "local" then _verify_local_connection camera
     else if String.eqb (camera_type camera) "file" then _verify_file_connection camera
     else Ret (result2 false
                 (cat "Unsupported camera type: " (camera_type camera))))
    (fun e => Ret (result2 false (cat "Connection error: " e))).

(** [Camera.update_status]: the attribute is set before the save. *)
Definition update_status (camera : Camera) (new_status : string)
  : Camera * res unit :=
  ({| camera_type := camera_type camera; url := url camera;
      username := username camera; password := password camera;
      status := new_status |},
   match save_raises w new_status with
   | Some e => Raise e
   | None => Ret tt
   end).

(** [result['success']] *)
Definition success_of (result : dict) : res bool :=
  match result !! "success" with
  | Some (VBool b) => Ret b
  | Some (VStr s) => Ret (negb (String.eqb s ""))
  | Some VNone => Ret false
  | Some (VFrame _) => Ret true
  | None => Raise "KeyError: 'success'"
  end.

(** The body of the loop of [update_camera_statuses] (lines 164-176)
    for one camera. *)
Definition update_camera_status (camera : Camera) : Camera * res unit :=
  let attempt : Camera * res unit :=
    match (result ← verify_camera_connection camera; success_of result) with
    | Ret true =>
        if negb (String.eqb (status camera) "online")
        then update_status camera "online"
        else (camera, Ret tt)
    | Ret false =>
        if String.eqb (status camera) "online"
        then update_status camera "offline"
        else (camera, Ret tt)
    | Raise e => (camera, Raise e)
    end in
  match attempt with
  | (camera', Ret tt) => (camera', Ret tt)
  | (camera', Raise _) => update_status camera' "error"
  end.

(** [update_camera_statuses]: the cameras afterwards; an exception that
    leaves the handler ends the loop. *)
Fixpoint update_camera_statuses (cameras : list Camera) : list Camera * res unit :=
  match cameras with
  | [] => ([], Ret tt)
  | camera :: rest =>
      match update_camera_status camera with
      | (camera', Ret tt) =>
          let '(rest', r) := update_camera_statuses rest in (camera' :: rest', r)
      | (camera', Raise e) => (camera' :: rest, Raise e)
      end
  end.

(** [_capture_rtsp_frame] *)
Definition _capture_rtsp_frame (camera : Camera) : res dict :=
  try_except
    (cap ← cv2_VideoCapture w (rtsp_url camera);
     opened ← isOpened cap;
     if negb opened then Ret (result3 false "Failed to open RTSP stream" VNone)
     else
       ret ← read cap;
       match ret with
       | Some f => Ret (result3 true "Frame captured successfully" (VFrame f))
       | None => Ret (result3 false "Failed to read frame from RTSP stream" VNone)
       end)
    (fun e => Ret (result3 false (cat "RTSP frame capture error: " e) VNone)).

Definition raised (r : request_result) : res Response :=
  match r with
  | Responded response => Ret response
  | Timeout => Raise "Timeout"
  | RequestException e => Raise e
  | OtherException e => Raise e
  end.

(** [_capture_http_frame] *)
Definition _capture_http_frame (camera : Camera) : res dict :=
  try_except
    (response ← raised (requests_get w (url camera));
     if negb (status_code response =? 200)%Z then
       Ret (result3 false
              (cat "HTTP request failed with status " (pretty (status_code response)))
              VNone)
     else
       decoded ← imdecode response;
       match decoded with
       | None => Ret (result3 false "Failed to decode image from HTTP response" VNone)
       | Some f => Ret (result3 true "Frame captured successfully" (VFrame f))
       end)
    (fun e => Ret (result3 false (cat "HTTP frame capture error: " e) VNone)).

(** [_capture_local_frame] *)
Definition _capture_local_frame (camera : Camera) : res dict :=
  try_except
    (let device_index := device_index camera in
     cap ← cv2_VideoCapture w (device_name device_index);
     opened ← isOpened cap;
     if negb opened then
       Ret (result3 false
              (cat "Failed to open webcam at index " (pretty device_index)) VNone)
     else
       ret ← read cap;
       match ret with
       | Some f => Ret (result3 true "Frame captured successfully" (VFrame f))
       | None => Ret (result3 false "Failed to read frame from webcam" VNone)
       end)
    (fun e => Ret (result3 false (cat "Webcam frame capture error: " e) VNone)).

(** [_capture_file_frame] *)
Definition _capture_file_frame (camera : Camera) : res dict :=
  try_except
    (let file_path := url camera in
     there ← isfile w file_path;
     in_media ← (if (there : bool) then Ret true else isfile w (media_path file_path));
     if negb in_media then
       Ret (result3 false (cat "Video file not found: " file_path) VNone)
     else
       let file_path := if (there : bool) then file_path else media_path file_path in
       cap ← cv2_VideoCapture w file_path;
       opened ← isOpened cap;
       if negb opened then
         Ret (result3 false (cat "Failed to open video file: " file_path) VNone)
       else
         ret ← read cap;
         match ret with
         | Some f => Ret (result3 true "Frame captured successfully" (VFrame f))
         | None => Ret (result3 false "Failed to read frame from video file" VNone)
         end)
    (fun e => Ret (result3 false (cat "Video file frame capture error: " e) VNone)).

(** [capture_frame] *)
Definition capture_frame (camera : Camera) : res dict :=
  try_except
    (if String.eqb (camera_type camera) "rtsp" then _capture_rtsp_frame camera
     else if String.eqb (camera_type camera) "http" then _capture_http_frame camera
     else if String.eqb (camera_type camera) "local" then _capture_local_frame camera
     else if String.eqb (camera_type camera) "file" then _capture_file_frame camera
     else Ret (result3 false
                 (cat "Unsupported camera type: " (camera_type camera)) VNone))
    (fun e => Ret (result3 false (cat "Error capturing frame: " e) VNone)).

End Manager.

(** The three-key shape of a capture result. *)
Definition well_shaped (r : res dict) : Prop :=
  exists success message f,
    r = Ret (result3 success message f) /\
    ((f = VNone /\ success = false) \/ (exists fr, f = VFrame fr /\ success = true)).

(** Sample data: an RTSP camera whose stream cannot be opened, and one
    whose stream opens but gives no frame. *)
Definition lobby (status0 : string) : Camera :=
  {| camera_type := "rtsp"; url := "rtsp://10.0.0.7/stream1";
     username := Some "admin"; password := Some "secret"; status := status0 |}.

Definition stream (opened grabbed : bool) : VideoCapture :=
  {| isOpened := Ret opened; grab := Ret grabbed;
     read := Ret (if grabbed then Some (Frame []) else None) |}.

Definition site (cap : VideoCapture) : world :=
  {| cv2_VideoCapture := fun _ => Ret cap;
     requests_get := fun _ => Timeout;
     isfile := fun _ => Ret false;
     MEDIA_ROOT := "/srv/media";
     save_raises := fun _ => None |}.

End CameraManager.

(** ** utils/stream_proxy.py *)

Module StreamProxy.

(** A child process of the operating system: whether it is still
    running, and whether it keeps running for more than the five seconds
    [stop] waits after SIGTERM. *)
Record child := { live : bool; ignores_sigterm : bool }.

(** The proxy object with the children it has launched (a pid is an
    index of [children]) and the history of the child table, one entry
    after each launch, signal and exit. *)
Record StreamProxy := {
  process : option nat;        (* self.process: the Popen handle *)
  is_running : bool;
  stop_event : bool;
  children : list child;
  history : list (list child)
}.

(** [__init__] *)
Definition init : StreamProxy :=
  {| process := None; is_running := false; stop_event := false;
     children := []; history := [[]] |}.

Definition dead (c : child) : child :=
  {| live := false; ignores_sigterm := ignores_sigterm c |}.

(** The child table changes; the new table enters the history. *)
Definition set_children (cs : list child) (self : StreamProxy) : StreamProxy :=
  {| process := process self; is_running := is_running self;
     stop_event := stop_event self; children := cs;
     history := history self ++ [cs] |}.

(** [self.process.poll() is None] *)
Definition poll_is_None (pid : nat) (self : StreamProxy) : bool :=
  match children self !! pid with
  | Some c => live c
  | None => false
  end.

(** [terminate()] followed by [wait(timeout=5)]: the child exits unless
    it ignores the signal; the answer tells whether the wait timed out. *)
Definition terminate_and_wait (pid : nat) (self : StreamProxy) : StreamProxy * bool :=
  match children self !! pid with
  | Some c =>
      if ignores_sigterm c then (set_children (children self) self, true)
      else (set_children (<[pid := dead c]> (children self)) self, false)
  | None => (self, false)
  end.

(** The child is gone: it exited or was killed. *)
Definition gone (pid : nat) (self : StreamProxy) : StreamProxy :=
  match children self !! pid with
  | Some c => set_children (<[pid := dead c]> (children self)) self
  | None => self
  end.

(** [kill()] *)
Definition kill (pid : nat) (self : StreamProxy) : StreamProxy := gone pid self.

(** The body of [if self.process:] in [stop()], [pid] being the child
    behind the handle; the signals sent to the proxy's own child do not
    raise. *)
Definition stop_process (pid : nat) (self : StreamProxy) : StreamProxy :=
  let self1 := {| process := process self; is_running := is_running self;
                  stop_event := true; children := children self;
                  history := history self |} in
  let self2 :=
    if poll_is_None pid self1 then
      let '(self', TimeoutExpired) := terminate_and_wait pid self1 in
      if TimeoutExpired then kill pid self' else self'
    else self1 in
  {| process := None; is_running := false; stop_event := stop_event self2;
     children := children self2; history := history self2 |}.

(** [stop()] *)
Definition stop (self : StreamProxy) : StreamProxy :=
  match process self with
  | None => self
  | Some pid => stop_process pid self
  end.

(** What happens at the launch in [start]: the preparation (clearing the
    directory, building the input URL) or [Popen] raises, or a child
    starts; the child may exit within the two seconds [start] sleeps,
    and starting the monitor thread may raise. *)
Inductive launch :=
| PrepareRaises
| PopenRaises
| Spawned (exits_early ignores_sigterm monitor_raises : bool).

Definition popen (ignores : bool) (self : StreamProxy) : StreamProxy :=
  let pid := length (children self) in
  let self' := set_children (children self ++ [{| live := true;
                                                    ignores_sigterm := ignores |}])
                 self in
  {| process := Some pid; is_running := is_running self';
     stop_event := stop_event self'; children := children self';
     history := history self' |}.

Definition set_running (b : bool) (self : StreamProxy) : StreamProxy :=
  {| process := process self; is_running := b; stop_event := stop_event self;
     children := children self; history := history self |}.

(** [start()]: the proxy afterwards and the boolean returned. *)
Definition start (l : launch) (self : StreamProxy) : StreamProxy * bool :=
  let self1 := stop self in
  match l with
  | PrepareRaises => (stop self1, false)
  | PopenRaises => (stop self1, false)
  | Spawned exits_early ignores monitor_raises =>
      let self2 := popen ignores self1 in
      let pid := length (children self1) in
      let self3 := if exits_early then gone pid self2 else self2 in
      if poll_is_None pid self3 then
        let self4 := set_running true self3 in
        if monitor_raises then (stop self4, false) else (self4, true)
      else (self3, false)
  end.

(** The child exits on its own; the monitor thread, unless told to
    stop, notices it. *)
Definition child_exits (self : StreamProxy) : StreamProxy :=
  match process self with
  | Some pid =>
      let self' := gone pid self in
      if stop_event self' then self' else set_running false self'
  | None => self
  end.

(** The calls made on one proxy, one after the other. *)
Inductive call :=
| Start (l : launch)
| Stop
| ChildExits.

Definition step (self : StreamProxy) (c : call) : StreamProxy :=
  match c with
  | Start l => fst (start l self)
  | Stop => stop self
  | ChildExits => child_exits self
  end.

Definition run (calls : list call) : StreamProxy := fold_left step calls init.

(** The number of live children in a child table. *)
Definition alive (cs : list child) : nat := length (List.filter live cs).

(** Every live child is the one the proxy holds the handle of. *)
Definition handle_inv (self : StreamProxy) : Prop :=
  (alive (children self) <= 1)%nat /\
  (alive (children self) = 1%nat -> exists pid, process self = Some pid /\
                                               poll_is_None pid self = true) /\
  (forall pid, process self = Some pid -> (pid < length (children self))%nat) /\
  Forall (fun cs => (alive cs <= 1)%nat) (history self).

(** The children of [a] are children of [b], and those not running in
    [a] are not running in [b]. *)
Definition stays_dead (a b : StreamProxy) : Prop :=
  forall pid c, children a !! pid = Some c ->
                exists c', children b !! pid = Some c' /\
                           (live c = false -> live c' = false).

End StreamProxy.

(** ** More of utils/video_processor.py: what a run keeps *)

Module VideoProcessorRun.
Import Py VideoProcessor.

(** The frame number of an entry of the output video. *)
Definition number (w : written) : Z :=
  match w with Annotated n => n | Original n => n end.

(** The alert carries the placeholder severity while its confidence is
    the initial 0.0, and the severity of its confidence afterwards. *)
Definition severity_inv (a : Alert) : Prop :=
  (confidence a = 0%Q /\ severity a = "medium") \/
  ((0 < confidence a)%Q /\ severity a = severity_for (confidence a)).

(** Entry [(k, c)] of the tracking lists: frame [k] of the source is a
    scored frame on which confidence [c] cleared the threshold. *)
Definition detection_of (conf_threshold : Q) (stride : Z) (source : list frame)
    (k : Z) (c : Q) : Prop :=
  (1 <= k)%Z /\ (k mod stride = 0)%Z /\
  exists f, source !! Z.to_nat (k - 1) = Some f /\
            In c (cleared_in_frame conf_threshold f).

(** What the loop over the results of frame [f] maintains, [st0] being
    the state when the frame was entered: [app] are the confidences
    appended so far. *)
Definition frame_track (conf_threshold : Q) (f : frame) (st0 : run)
    (acc : bool * Q * run) : Prop :=
  let '(has_detection, conf, st) := acc in
  exists app,
    detection_confidences st = detection_confidences st0 ++ app /\
    detection_frames st
      = detection_frames st0 ++ replicate (length app) (frame_count st0) /\
    detection_count st = (detection_count st0 + length app)%nat /\
    alert st = alert st0 /\ frame_count st = frame_count st0 /\ out st = out st0 /\
    (has_detection = true <-> app <> []) /\
    (0 <= conf)%Q /\
    (forall x, In x app -> (x <= conf)%Q) /\
    (conf = 0%Q \/ In conf app) /\
    Forall (fun c => In c (cleared_in_frame conf_threshold f)) app.

(** What a run maintains about its tracking lists and its alert. *)
Definition tracked (conf_threshold : Q) (stride : Z) (source : list frame)
    (st : run) : Prop :=
  detection_count st = length (detection_confidences st) /\
  Forall2 (detection_of conf_threshold stride source)
    (detection_frames st) (detection_confidences st) /\
  (0 <= confidence (alert st))%Q /\
  (forall c, In c (detection_confidences st) -> (c <= confidence (alert st))%Q) /\
  (confidence (alert st) = 0%Q \/
   In (confidence (alert st)) (detection_confidences st)) /\
  severity_inv (alert st).

(** The output video so far holds the frames 1 to [frame_count], each
    once and in order, annotated ones only at multiples of the stride. *)
Definition output_inv (stride : Z) (st : run) : Prop :=
  (0 <= frame_count st)%Z /\
  map number (out st) = seqZ 1 (frame_count st) /\
  Forall (fun w => match w with
                   | Annotated k => (k mod stride = 0)%Z
                   | Original _ => True
                   end) (out st).

(** What both loops do with one frame read (lines 96-149, 260-313). *)
Definition process_frame (conf_threshold : Q) (stride : Z) (f : frame) (st : run)
  : run :=
  let st1 := next_frame st in
  if (frame_count st1 mod stride =? 0)%Z then score_frame conf_threshold f st1
  else write (Original (frame_count st1)) st1.

(** The state of a run after [i] frames. *)
Definition after_frames (conf_threshold : Q) (stride : Z) (source : list frame)
    (i : nat) (st : run) : Prop :=
  frame_count st = Z.of_nat i /\
  tracked conf_threshold stride source st /\
  output_inv stride st.

(** The body of the [try] for a scored frame with the save written out
    (lines 100-146 and 264-310).  [alert.save] is called when the alert
    is raised, after the annotated frame is written and inside the same
    [try]: when it raises, the handler writes the original frame as
    well.  [save_raises] tells for which frame numbers it raises.  The
    alert object has its new confidence and severity either way. *)
Definition score_frame_saving (save_raises : Z -> bool) (conf_threshold : Q)
    (f : frame) (st : run) : run :=
  match predict_video_frame f with
  | Raise _ => write (Original (frame_count st)) st
  | Ret results =>
      let '(has_detection, conf, st1) := scan_results conf_threshold results st in
      let st2 := write (Annotated (frame_count st)) st1 in
      let st3 := set_alert (update_alert has_detection conf (alert st2)) st2 in
      if has_detection && gt conf (confidence (alert st2))
         && save_raises (frame_count st)
      then write (Original (frame_count st)) st3
      else st3
  end.

(** What both loops do with one frame read, with the save written out. *)
Definition process_frame_saving (save_raises : Z -> bool) (conf_threshold : Q)
    (stride : Z) (f : frame) (st : run) : run :=
  let st1 := next_frame st in
  if (frame_count st1 mod stride =? 0)%Z
  then score_frame_saving save_raises conf_threshold f st1
  else write (Original (frame_count st1)) st1.

(** The loop of [process_video] (lines 91-149). *)
Fixpoint video_loop_saving (save_raises : Z -> bool) (conf_threshold : Q)
    (frames : list frame) (st : run) : run :=
  match frames with
  | [] => st
  | f :: rest =>
      video_loop_saving save_raises conf_threshold rest
        (process_frame_saving save_raises conf_threshold 5 f st)
  end.





(** [_create_thumbnail], lines 359-369: [cap.set(CAP_PROP_POS_FRAMES,
    frame_number)] makes the next [cap.read()] give the frame at the
    0-based position [frame_number] of the video (a frame count of the
    loop, so at least 1): the frame after the one the loop numbered
    [frame_number].  [None] when the read fails. *)
Definition thumbnail_read {A} (video : list A) (frame_number : Z) : option A :=
  video !! Z.to_nat frame_number.

End VideoProcessorRun.

(** ** More of alerts/signals.py: what a dispatch keeps in every world *)

Module NotificationEngineRun.
Import Py NotificationEngine.

(** Two times are the same instant. *)
Definition time_eqb (a b : time) : bool :=
  match time_compare a b with Eq => true | _ => false end.

(** The two ends of a window that passes midnight. *)
Definition on_overnight_boundary (start_time end_time t : time) : bool :=
  negb (time_le start_time end_time)
  && (time_eqb t start_time || time_eqb t end_time).

(** What one channel may leave in the journal: nothing, a pending row,
    or a pending row and one update of it, to 'sent' (the dispatch did
    not raise) or to 'failed' with an error detail. *)
Definition attempt_shape (w : world) (channel : string) (ws : list db_write)
  : Prop :=
  ws = [] \/
  (exists pk, ws = [Insert pk (pending channel)]) \/
  (exists pk row,
      ws = [Insert pk (pending channel); Update pk row] /\
      notification_type row = channel /\
      ((status row = "sent" /\ send_raises w channel = None /\
        sent_at row = Some (now w channel) /\ error_message row = None) \/
       (status row = "failed" /\ exists e, error_message row = Some e))).

(** A statement appends the writes of one attempt. *)
Definition attempts (w : world) (channel : string) (active : bool) (m : M unit)
    (st : state) : Prop :=
  exists ws, journal (fst (m st)) = journal st ++ ws /\
             attempt_shape w channel ws /\
             (active = false -> ws = []).

Definition is_insert (wr : db_write) : bool :=
  match wr with Insert _ _ => true | Update _ _ => false end.

Definition pk_of (wr : db_write) : nat :=
  match wr with Insert pk _ => pk | Update pk _ => pk end.

(** The rows of the table [db] are kept, rows are only added by
    inserts, and every write goes to a row added after [db]. *)
Definition extends (db : list NotificationLog) (st : state) : Prop :=
  take (length db) (table st) = db /\
  length (table st) = (length db + length (List.filter is_insert (journal st)))%nat /\
  Forall (fun wr => length db <= pk_of wr < length (table st))%nat (journal st) /\
  (forall pk row, notification_log st = Some (pk, row) ->
                  (length db <= pk < length (table st))%nat).

(** A statement keeps a property of the state, whether it raises or
    not. *)
Definition preserves {A} (P : state -> Prop) (m : M A) : Prop :=
  forall st, P st -> P (fst (m st)).

End NotificationEngineRun.

(** ** More of utils/model_manager.py: the configurations and the model files *)

Module ModelManagerRun.
Import Py ModelManager.

Definition key_error (detector_key : string) : string :=
  String.append "KeyError: " detector_key.

(** [configs[detector_key]] *)
Definition config_at (configs : gmap string DetectorConfig) (detector_key : string)
  : res DetectorConfig :=
  match configs !! detector_key with
  | Some config => Ret config
  | None => Raise (key_error detector_key)
  end.

Definition set_conf_threshold (value : Q) (config : DetectorConfig) : DetectorConfig :=
  {| conf_threshold := value; iou_threshold := iou_threshold config;
     image_size := image_size config |}.

Definition set_iou_threshold (value : Q) (config : DetectorConfig) : DetectorConfig :=
  {| conf_threshold := conf_threshold config; iou_threshold := value;
     image_size := image_size config |}.

Definition set_image_size (value : Z) (config : DetectorConfig) : DetectorConfig :=
  {| conf_threshold := conf_threshold config; iou_threshold := iou_threshold config;
     image_size := value |}.

(** [if value is not None: configs[detector_key][field] = value] *)
Definition assign_field {V} (value : option V)
    (set : V -> DetectorConfig -> DetectorConfig) (detector_key : string)
    (configs : gmap string DetectorConfig) : res (gmap string DetectorConfig) :=
  match value with
  | None => Ret configs
  | Some v =>
      config ← config_at configs detector_key;
      Ret (<[detector_key := set v config]> configs)
  end.

Definition with_configs (self : ModelManager) (configs : gmap string DetectorConfig)
  : ModelManager :=
  {| detectors := detectors self; active_detector_key := active_detector_key self;
     detector_configs := configs |}.

(** [update_detector_config(detector_key, conf_threshold=None,
    iou_threshold=None, image_size=None)]: the manager afterwards, and the
    result. *)
Definition update_detector_config (self : ModelManager) (detector_key : string)
    (conf iou : option Q) (size : option Z) : ModelManager * res DetectorConfig :=
  let configs0 :=
    match detector_configs self !! detector_key with
    | None =>
        <[detector_key := {| conf_threshold := 25 # 100; iou_threshold := 45 # 100;
                             image_size := 640 |}]> (detector_configs self)
    | Some _ => detector_configs self
    end in
  match assign_field conf set_conf_threshold detector_key configs0 with
  | Raise e => (with_configs self configs0, Raise e)
  | Ret configs1 =>
      match assign_field iou set_iou_threshold detector_key configs1 with
      | Raise e => (with_configs self configs1, Raise e)
      | Ret configs2 =>
          match assign_field size set_image_size detector_key configs2 with
          | Raise e => (with_configs self configs2, Raise e)
          | Ret configs3 =>
              (with_configs self configs3, config_at configs3 detector_key)
          end
      end
  end.

(** The configuration after an update: the entry of the key, or the
    default one, with the given fields replaced. *)
Definition updated (config : DetectorConfig) (conf iou : option Q) (size : option Z)
  : DetectorConfig :=
  {| conf_threshold := default (conf_threshold config) conf;
     iou_threshold := default (iou_threshold config) iou;
     image_size := default (image_size config) size |}.

(** An entry of [missing_models]. *)
Record missing_model := { key : string; missing_name : string; path : string }.

Record validation := { all_valid : bool; missing_models : list missing_model }.

(** [validate_models()]; [exists_] is [os.path.exists].  The entries come
    in the order of the map. *)
Definition validate_models (exists_ : string -> bool) (self : ModelManager)
  : validation :=
  let missing_models :=
    foldl (fun missing_models '(key, detector) =>
             if negb (exists_ (model_path detector))
             then missing_models ++ [{| key := key; missing_name := name detector;
                                        path := model_path detector |}]
             else missing_models)
          [] (map_to_list (detectors self)) in
  {| all_valid := (length missing_models =? 0)%nat;
     missing_models := missing_models |}.

(** The entry of [missing_models] for a registered detector, if its file
    is missing. *)
Definition entry (exists_ : string -> bool) (item : string * Detector)
  : option missing_model :=
  if negb (exists_ (model_path item.2))
  then Some {| key := item.1; missing_name := name item.2;
               path := model_path item.2 |}
  else None.

(** The calls that change a manager. *)
Inductive call :=
| SetActive (detector_key : string)
| UpdateConfig (detector_key : string) (conf iou : option Q) (size : option Z).

Definition step (self : ModelManager) (c : call) : ModelManager :=
  match c with
  | SetActive detector_key => fst (set_active_detector self detector_key)
  | UpdateConfig detector_key conf iou size =>
      fst (update_detector_config self detector_key conf iou size)
  end.

Definition run (self : ModelManager) (calls : list call) : ModelManager :=
  foldl step self calls.

End ModelManagerRun.

(** ** More of utils/camera_manager.py: the connection checks and the
    status updates *)

Module CameraManagerRun.
Import Py CameraManager.

(** The two-key shape of a connection check's answer. *)
Definition answered (r : res dict) : Prop :=
  exists success message, r = Ret (result2 success message).

(** Whether the connection check of a camera succeeds. *)
Definition reachable (w : world) (camera : Camera) : bool :=
  match verify_camera_connection w camera with
  | Ret result =>
      match result !! "success" with
      | Some (VBool b) => b
      | _ => false
      end
  | Raise _ => false
  end.

(** The status a camera has after the status update when the saves go
    through. *)
Definition status_after (w : world) (camera : Camera) : string :=
  if reachable w camera then "online"
  else if String.eqb (status camera) "online" then "offline"
  else status camera.

Definition supported : list string := ["rtsp"; "http"; "local"; "file"].

End CameraManagerRun.

(** ** More of utils/stream_proxy.py: what [start] answers, and the
    monitor thread *)

Module StreamProxyRun.
Import StreamProxy.

(** [is_running] is set only while the proxy holds a handle. *)
Definition running_inv (self : StreamProxy) : Prop :=
  is_running self = true -> exists pid, process self = Some pid.

(** The launch at which [start] succeeds: the child is spawned, is
    still running after the two seconds, and the monitor thread
    starts. *)
Definition succeeds (l : launch) : bool :=
  match l with
  | Spawned false _ false => true
  | _ => false
  end.

(** The proxy holds the handle of a running child. *)
Definition serving (self : StreamProxy) : Prop :=
  exists pid, process self = Some pid /\ poll_is_None pid self = true.

End StreamProxyRun.

(** ** The stream table of utils/camera_manager.py: [get_stream_url],
    [_start_stream_proxy] and [disconnect_camera] *)

Module CameraStreams.
Import Py CameraManager.

(** The camera object with the fields these methods read besides those
    of the connection checks. *)
Record Device := { id : Z; name : string; fields : Camera }.

(** [self.active_streams]: the proxies by camera id. *)
Record Manager := { active_streams : gmap Z StreamProxy.StreamProxy }.

(** [__init__] *)
Definition init : Manager := {| active_streams := ∅ |}.

(** What happens when a proxy is made: [StreamProxy(camera)] raises
    (its [os.makedirs]), or the object is there and [start] meets the
    given launch. *)
Inductive creation :=
| InitRaises (e : string)
| Created (l : StreamProxy.launch).

(** [_start_stream_proxy] *)
Definition _start_stream_proxy (o : creation) (camera : Device) (self : Manager)
  : Manager * dict :=
  match o with
  | InitRaises e => (self, result2 false (cat "Stream proxy error: " e))
  | Created l =>
      let '(proxy, success) := StreamProxy.start l StreamProxy.init in
      if (success : bool) then
        ({| active_streams := <[id camera := proxy]> (active_streams self) |},
         result2 true "Stream proxy started successfully")
      else (self, result2 false "Failed to start stream proxy")
  end.

Definition stream_result (message stream_url : string) : dict :=
  {[ "success" := VBool true; "message" := VStr message;
     "stream_url" := VStr stream_url ]}.

#[global] Arguments stream_result : simpl never.

(** f"/api/stream/{camera.id}/index.m3u8" *)
Definition proxy_url (camera : Device) : string :=
  cat "/api/stream/" (cat (pretty (id camera)) "/index.m3u8").

(** The answer for a camera whose stream goes through a proxy. *)
Definition available (camera : Device) : dict :=
  stream_result "Stream proxy available" (proxy_url camera).

(** Lines 79-88 and 118-127: the stream of an RTSP or local camera goes
    through a proxy, started unless the table has one. *)
Definition proxied (o : creation) (camera : Device) (self : Manager)
  : Manager * res dict :=
  match active_streams self !! id camera with
  | Some _ => (self, Ret (available camera))
  | None =>
      let '(self', proxy_result) := _start_stream_proxy o camera self in
      match success_of proxy_result with
      | Raise e => (self', Raise e)
      | Ret false => (self', Ret proxy_result)
      | Ret true => (self', Ret (available camera))
      end
  end.

(** Lines 93-107: the URL of an HTTP camera, with the credentials put
    in when both are set. *)
Definition direct_url (camera : Camera) : string :=
  if truthy (username camera) && truthy (password camera) then
    match split1 "://" (url camera) with
    | (protocol, Some rest) =>
        let '(host, path) := split1 "/" rest in
        cat protocol (cat "://" (cat (default "" (username camera))
          (cat ":" (cat (default "" (password camera))
            (cat "@" (cat host (cat "/" (default "" path))))))))
    | (_, None) => url camera
    end
  else url camera.

(** Lines 132-141. *)
Definition file_url (w : world) (camera : Camera) : res dict :=
  file_check ← _verify_file_connection w camera;
  success ← success_of file_check;
  if negb success then Ret file_check
  else Ret (stream_result "Video file URL available"
              (if String.prefix "/" (url camera) then url camera
               else cat "/media/" (url camera))).

(** [get_stream_url]: the manager afterwards, and the result. *)
Definition get_stream_url (w : world) (o : creation) (camera : Device)
    (self : Manager) : Manager * res dict :=
  let '(self', r) :=
    if String.eqb (camera_type (fields camera)) "rtsp" then proxied o camera self
    else if String.eqb (camera_type (fields camera)) "http" then
      (self, Ret (stream_result "Direct stream URL available"
                    (direct_url (fields camera))))
    else if String.eqb (camera_type (fields camera)) "local" then
      proxied o camera self
    else if String.eqb (camera_type (fields camera)) "file" then
      (self, file_url w (fields camera))
    else
      (self, Ret (result2 false
                    (cat "Unsupported camera type: " (camera_type (fields camera)))))
  in
  (self', try_except r (fun e => Ret (result2 false (cat "Stream error: " e)))).

(** What [disconnect_camera] leaves: the manager, the camera object, the
    proxy taken out of the table as [stop] left it, and the result. *)
Record disconnected := {
  manager : Manager;
  camera_after : Device;
  stopped : option StreamProxy.StreamProxy;
  result : res dict
}.

(** [disconnect_camera] *)
Definition disconnect_camera (w : world) (camera : Device) (self : Manager)
  : disconnected :=
  let '(self', stream) :=
    match active_streams self !! id camera with
    | Some stream =>
        ({| active_streams := delete (id camera) (active_streams self) |},
         Some (StreamProxy.stop stream))
    | None => (self, None)
    end in
  let '(fields', saved) := update_status w (fields camera) "disabled" in
  {| manager := self';
     camera_after := {| id := id camera; name := name camera; fields := fields' |};
     stopped := stream;
     result :=
       try_except
         (saved;;
          Ret (result2 true
                 (cat "Camera " (cat (name camera) " disconnected successfully"))))
         (fun e => Ret (result2 false (cat "Error disconnecting camera: " e))) |}.

(** The child of a camera's proxy exits on its own. *)
Definition child_exits (camera_id : Z) (self : Manager) : Manager :=
  {| active_streams := alter StreamProxy.child_exits camera_id (active_streams self) |}.

(** What happens to one manager, one event after the other. *)
Inductive call :=
| GetStreamUrl (w : world) (o : creation) (camera : Device)
| DisconnectCamera (w : world) (camera : Device)
| ChildExits (camera_id : Z).

Definition step (self : Manager) (c : call) : Manager :=
  match c with
  | GetStreamUrl w o camera => fst (get_stream_url w o camera self)
  | DisconnectCamera w camera => manager (disconnect_camera w camera self)
  | ChildExits camera_id => child_exits camera_id self
  end.

Definition run (calls : list call) : Manager := foldl step init calls.

(** Every proxy of the table holds a handle, and its only live child, if
    any, is the one under the handle. *)
Definition streams_inv (self : Manager) : Prop :=
  forall camera_id proxy,
    active_streams self !! camera_id = Some proxy ->
    StreamProxy.handle_inv proxy /\ StreamProxyRun.running_inv proxy /\
    is_Some (StreamProxy.process proxy).

(** The camera's stream goes through a proxy. *)
Definition is_proxied (camera : Device) : bool :=
  String.eqb (camera_type (fields camera)) "rtsp"
  || String.eqb (camera_type (fields camera)) "local".

(** The shapes of the result of [get_stream_url]. *)
Definition url_answer (r : res dict) : Prop :=
  (exists message, r = Ret (result2 false message)) \/
  (exists message stream_url, r = Ret (stream_result message stream_url)).

End CameraStreams.

(** ** The addresses handed to OpenCV and FFmpeg:
    [Camera.get_stream_url] of cameras/models.py and
    [StreamProxy._get_input_url] of utils/stream_proxy.py *)

Module StreamUrls.
Import Py CameraManager.

(** cameras/models.py, [Camera.get_stream_url], on the model's fields
    [camera_type], [stream_url], [username] and [password]; unpacking
    the split into two names raises when it has one part. *)
Definition get_stream_url (camera_type stream_url : string)
    (username password : option string) : res string :=
  if String.eqb camera_type "rtsp" && truthy username && truthy password then
    if contains "://" stream_url then
      match split1 "://" stream_url with
      | (protocol, Some rest) =>
          Ret (cat protocol (cat "://" (cat (default "" username)
                 (cat ":" (cat (default "" password) (cat "@" rest))))))
      | (_, None) => Raise "ValueError: not enough values to unpack"
      end
    else Ret stream_url
  else Ret stream_url.

(** utils/stream_proxy.py, [_get_input_url]; [os_name] is [os.name].
    The branch of a local camera is the code's on a [plain_address] only:
    on other digits [int] raises or reads another value. *)
Definition _get_input_url (w : world) (os_name : string) (camera : Camera)
  : res string :=
  if String.eqb (camera_type camera) "rtsp" then
    let url0 := url camera in
    Ret (if truthy (username camera) && truthy (password camera) then
           if negb (contains "@" url0) then
             match split1 "://" url0 with
             | (protocol, Some rest) =>
                 let '(host, path) := split1 "/" rest in
                 cat protocol (cat "://" (cat (default "" (username camera))
                   (cat ":" (cat (default "" (password camera))
                     (cat "@" (cat host (cat "/" (default "" path))))))))
             | (_, None) => url0
             end
           else url0
         else url0)
  else if String.eqb (camera_type camera) "http" then
    let url0 := url camera in
    Ret (if truthy (username camera) && truthy (password camera) then
           if negb (contains "@" url0) then
             match split1 "://" url0 with
             | (protocol, Some rest) =>
                 let '(host, path) := split1 "/" rest in
                 cat protocol (cat "://" (cat (default "" (username camera))
                   (cat ":" (cat (default "" (password camera))
                     (cat "@" (cat host (cat "/" (default "" path))))))))
             | (_, None) => url0
             end
           else url0
         else url0)
  else if String.eqb (camera_type camera) "local" then
    let device_index :=
      if negb (String.eqb (url camera) "") && isdigit (url camera)
      then int_acc 0 (url camera) else 0%nat in
    if String.eqb os_name "posix" then Ret (cat "/dev/video" (pretty device_index))
    else Ret (cat "video=" (pretty device_index))
  else if String.eqb (camera_type camera) "file" then
    let file_path := url camera in
    there ← isfile w file_path;
    if negb there then
      in_media ← isfile w (media_path w file_path);
      Ret (if (in_media : bool) then media_path w file_path else file_path)
    else Ret file_path
  else Raise (cat "ValueError: Unsupported camera type: " (camera_type camera)).

(** ASCII text: every byte is below 128. *)
Fixpoint is_ascii (s : string) : bool :=
  match s with
  | EmptyString => true
  | String c s' => (Ascii.nat_of_ascii c <? 128)%nat && is_ascii s'
  end.

(** The addresses on which [isdigit] and [int_acc] are Python's
    [str.isdigit] and [int]: ASCII text of at most 4300 characters. *)
Definition plain_address (s : string) : Prop :=
  is_ascii s = true /\ (String.length s <= 4300)%nat.

(** A camera at another address. *)
Definition at_url (camera : Camera) (url' : string) : Camera :=
  {| camera_type := camera_type camera; url := url';
     username := username camera; password := password camera;
     status := status camera |}.

End StreamUrls.

(** * Properties *)

(** ** The processing runs of utils/video_processor.py *)

Module VideoProcessorFacts.
Import Py VideoProcessor.
Local Open Scope Q_scope.

Lemma ge_true a b : ge a b = true <-> b <= a.
Proof. unfold ge. apply Qle_bool_iff. Qed.

Lemma ge_false a b : ge a b = false <-> a < b.
Proof.
  unfold ge. split; intros H.
  - apply Qnot_le_lt. intros Hle. apply Qle_bool_iff in Hle. congruence.
  - destruct (Qle_bool b a) eqn:E; [|reflexivity].
    apply Qle_bool_iff in E. exfalso. exact (Qlt_not_le _ _ H E).
Qed.

Lemma gt_true a b : gt a b = true <-> b < a.
Proof.
  unfold gt. rewrite negb_true_iff. exact (ge_false b a).
Qed.

Lemma gt_false a b : gt a b = false <-> a <= b.
Proof.
  unfold gt. rewrite negb_false_iff. exact (ge_true b a).
Qed.

Lemma max2_cases a b :
  (max2 a b = a /\ b <= a) \/ (max2 a b = b /\ a < b).
Proof.
  unfold max2. destruct (gt b a) eqn:E.
  - right. split; [reflexivity | now apply gt_true].
  - left. split; [reflexivity | now apply gt_false].
Qed.

Lemma max_list_spec l : forall x,
  (max_list x l = x \/ In (max_list x l) l) /\
  x <= max_list x l /\
  (forall y, In y l -> y <= max_list x l).
Proof.
  unfold max_list. induction l as [|z l IH]; intros x; simpl.
  - repeat split; [now left | apply Qle_refl | intros y []].
  - destruct (IH (max2 x z)) as (Hin & Hle & Hub).
    destruct (max2_cases x z) as [[E Hzx] | [E Hxz]]; rewrite E in *.
    + repeat split.
      * destruct Hin; [now left | right; now right].
      * exact Hle.
      * intros y [<- | Hy]; [lra | now apply Hub].
    + repeat split.
      * destruct Hin as [-> | Hin]; right; [now left | now right].
      * lra.
      * intros y [<- | Hy]; [exact Hle | now apply Hub].
Qed.

Lemma max_list_in c cs : In (max_list c cs) (c :: cs).
Proof.
  destruct (max_list_spec cs c) as ([-> | H] & _); [now left | now right].
Qed.

Lemma max_list_upper c cs y : In y (c :: cs) -> y <= max_list c cs.
Proof.
  destruct (max_list_spec cs c) as (_ & Hc & Hub).
  intros [<- | Hy]; [exact Hc | now apply Hub].
Qed.


Lemma filter_cleared_nil thr l m :
  (forall y, In y l -> y <= m) -> m < thr ->
  List.filter (fun c => ge c thr) l = [].
Proof.
  intros Hub Hm. induction l as [|y l IH]; simpl; [reflexivity|].
  assert (Hy : ge y thr = false).
  { apply ge_false. specialize (Hub y (or_introl eq_refl)). lra. }
  rewrite Hy. apply IH. intros z Hz. apply Hub. now right.
Qed.

Lemma scan_result_inv thr st0 C acc r :
  frame_inv st0 C acc ->
  frame_inv st0 (C ++ List.filter (fun c => ge c thr) (confidences_of r))
    (scan_result thr acc r).
Proof.
  destruct acc as [[has conf] st]. intros Hinv.
  destruct r as [[|c cs]|]; simpl confidences_of;
    try (simpl List.filter; rewrite app_nil_r; exact Hinv).
  unfold scan_result.
  set (m := max_list c cs).
  destruct Hinv as (Ha & Hf & Ho & Hhas & H0 & Hub & Hin & Hcnt).
  destruct (ge m thr) eqn:E.
  - apply ge_true in E.
    assert (Hm : In m (List.filter (fun c0 => ge c0 thr) (c :: cs))).
    { apply List.filter_In. split; [apply max_list_in | now apply ge_true]. }
    assert (Hne : C ++ List.filter (fun c0 => ge c0 thr) (c :: cs) <> []).
    { intros Heq. apply app_eq_nil in Heq as [_ Heq].
      rewrite Heq in Hm. destruct Hm. }
    assert (HF : forall x, In x (List.filter (fun c0 => ge c0 thr) (c :: cs)) ->
                           x <= m).
    { intros x Hx. apply List.filter_In in Hx as [Hx _].
      now apply max_list_upper. }
    set (F := List.filter (fun c0 => ge c0 thr) (c :: cs)) in *.
    simpl. repeat split; try assumption; try tauto.
    + destruct (max2_cases conf m) as [[-> _] | [-> ?]]; [exact H0 | lra].
    + intros x Hx. apply List.in_app_or in Hx as [Hx | Hx].
      * specialize (Hub x Hx).
        destruct (max2_cases conf m) as [[-> _] | [-> ?]]; lra.
      * specialize (HF x Hx).
        destruct (max2_cases conf m) as [[-> ?] | [-> _]]; lra.
    + destruct (max2_cases conf m) as [[-> _] | [-> _]].
      * destruct Hin as [Hin | Hin]; [now left|].
        right. apply List.in_or_app. now left.
      * right. apply List.in_or_app. now right.
    + right. split; [lia | exact Hne].
  - apply ge_false in E.
    rewrite (filter_cleared_nil thr (c :: cs) m), app_nil_r;
      [| intros y Hy; now apply max_list_upper | exact E].
    repeat split; try assumption; tauto.
Qed.

Lemma scan_fold_inv thr st0 results : forall C acc,
  frame_inv st0 C acc ->
  frame_inv st0
    (C ++ List.filter (fun c => ge c thr) (concat (map confidences_of results)))
    (fold_left (scan_result thr) results acc).
Proof.
  induction results as [|r results IH]; intros C acc Hinv; simpl.
  - now rewrite app_nil_r.
  - rewrite List.filter_app, app_assoc.
    apply IH. now apply scan_result_inv.
Qed.

Lemma scan_results_inv thr st results :
  frame_inv st
    (List.filter (fun c => ge c thr) (concat (map confidences_of results)))
    (scan_results thr results st).
Proof.
  unfold scan_results.
  apply (scan_fold_inv thr st results [] (false, 0, st)).
  simpl. repeat split; try reflexivity; try congruence; try tauto.
  all: try apply Qle_refl; now left.
Qed.


Lemma run_inv_start d : run_inv [] (start_run d).
Proof.
  unfold run_inv; simpl. repeat split; try tauto.
  all: try apply Qle_refl; try (now left); try (intros x []).
Qed.

Lemma run_inv_write L w st : run_inv L st -> run_inv L (write w st).
Proof. exact (fun H => H). Qed.

Lemma run_inv_next L st : run_inv L st -> run_inv L (next_frame st).
Proof. exact (fun H => H). Qed.

Lemma score_frame_count thr f st :
  frame_count (score_frame thr f st) = frame_count st.
Proof.
  unfold score_frame. destruct (predict_video_frame f) as [results|e];
    [|reflexivity].
  pose proof (scan_results_inv thr st results) as H.
  destruct (scan_results thr results st) as [[has conf] st1].
  destruct H as (_ & Hf & _). exact Hf.
Qed.

Lemma score_frame_inv thr f L st :
  run_inv L st -> run_inv (L ++ cleared_in_frame thr f) (score_frame thr f st).
Proof.
  intros (H0 & Hub & Hin & Hcnt & Hst).
  unfold score_frame, cleared_in_frame.
  destruct (predict_video_frame f) as [results|e].
  2:{ rewrite app_nil_r. repeat split; assumption || tauto. }
  pose proof (scan_results_inv thr st results) as H.
  set (C := List.filter (fun c => ge c thr) (concat (map confidences_of results))) in *.
  destruct (scan_results thr results st) as [[has conf] st1].
  destruct H as (Ha & _ & _ & Hhas & Hc0 & Hcub & Hcin & Hccnt).
  unfold run_inv, update_alert; simpl. rewrite Ha.
  assert (Hcount : detection_count st1 = 0%nat <-> L ++ C = []).
  { destruct Hccnt as [[-> ->] | [Hpos Hne]].
    - now rewrite app_nil_r.
    - split; [lia|]. intros Heq. now apply app_eq_nil in Heq as [_ ?]. }
  destruct has; simpl.
  - destruct (gt conf (confidence (alert st))) eqn:E; simpl.
    + apply gt_true in E. repeat split; try assumption; try tauto.
      * intros x Hx. apply List.in_app_or in Hx as [Hx | Hx].
        -- specialize (Hub x Hx). lra.
        -- now apply Hcub.
      * destruct Hcin as [-> | Hcin]; [lra|].
        right. apply List.in_or_app. now right.
    + apply gt_false in E. repeat split; try assumption; try tauto.
      * intros x Hx. apply List.in_app_or in Hx as [Hx | Hx].
        -- now apply Hub.
        -- specialize (Hcub x Hx). lra.
      * destruct Hin as [Hin | Hin]; [now left|].
        right. apply List.in_or_app. now left.
  - assert (HC : C = []).
    { destruct C; [reflexivity|]. exfalso.
      assert (false = true) by (apply Hhas; discriminate). discriminate. }
    rewrite HC in *. rewrite app_nil_r in *.
    repeat split; try assumption; tauto.
Qed.

Lemma video_loop_inv thr frames : forall L st,
  run_inv L st ->
  run_inv
    (L ++ concat (map (cleared_in_frame thr) (scored 5 (frame_count st) frames)))
    (video_loop thr frames st).
Proof.
  induction frames as [|f frames IH]; intros L st Hinv; simpl.
  - now rewrite app_nil_r.
  - destruct ((frame_count st + 1) mod 5 =? 0)%Z eqn:E.
    + simpl. rewrite app_assoc.
      replace (frame_count st + 1)%Z
        with (frame_count (score_frame thr f (next_frame st)))
        by apply score_frame_count.
      apply IH. apply score_frame_inv. exact Hinv.
    + simpl.
      apply (IH L (write (Original (frame_count st + 1)) (next_frame st))).
      exact Hinv.
Qed.

Lemma stream_loop_inv thr rate duration limit frames : forall L st,
  rate <> 0%Z ->
  run_inv L st ->
  exists st',
    stream_loop thr rate duration limit frames st = Ret st' /\
    run_inv
      (L ++ concat (map (cleared_in_frame thr)
                      (scored rate (frame_count st)
                         (frames_read duration limit (frame_count st) frames))))
      st'.
Proof.
  intros L st Hrate. revert L st.
  induction frames as [|[f t] frames IH]; intros L st Hinv; simpl.
  - exists st. split; [reflexivity | now rewrite app_nil_r].
  - apply Z.eqb_neq in Hrate as Hr. rewrite Hr.
    destruct ((frame_count st + 1) mod rate =? 0)%Z eqn:E.
    + rewrite score_frame_count. simpl frame_count.
      pose proof (score_frame_inv thr f L (next_frame st) Hinv) as Hstep.
      destruct (ge t duration || (limit <=? frame_count st + 1)%Z).
      * eexists. split; [reflexivity|]. simpl. now rewrite app_nil_r.
      * destruct (IH _ _ Hstep) as (st' & Hrun & Hinv').
        exists st'. split; [exact Hrun|].
        rewrite score_frame_count in Hinv'. simpl frame_count in Hinv'.
        simpl. now rewrite app_assoc.
    + simpl frame_count.
      destruct (ge t duration || (limit <=? frame_count st + 1)%Z).
      * eexists. split; [reflexivity|]. simpl. rewrite app_nil_r. exact Hinv.
      * apply (IH L (write (Original (frame_count st + 1)) (next_frame st))).
        exact Hinv.
Qed.

Lemma finish_confidence name nothing st :
  confidence (finish name nothing st) = confidence (alert st).
Proof. unfold finish. now destruct (0 <? detection_count st)%nat. Qed.

Lemma in_scored stride frames : forall count f,
  In f (scored stride count frames) -> In f frames.
Proof.
  induction frames as [|g frames IH]; intros count f; simpl; [tauto|].
  intros H. apply List.in_app_or in H as [H | H].
  - destruct ((count + 1) mod stride =? 0)%Z; [|destruct H].
    destruct H as [-> | []]. now left.
  - right. exact (IH _ _ H).
Qed.

Lemma in_frames_read duration limit frames : forall count f,
  In f (frames_read duration limit count frames) -> In f (map fst frames).
Proof.
  induction frames as [|[g t] frames IH]; intros count f; simpl; [tauto|].
  intros [-> | H]; [now left|].
  destruct (ge t duration || (limit <=? count + 1)%Z); [destruct H|].
  right. exact (IH _ _ H).
Qed.

Lemma cleared_in_frame_nonneg thr f x :
  (forall results r c, predict f = Ret results -> In r results ->
                       In c (confidences_of r) -> 0 <= c) ->
  In x (cleared_in_frame thr f) -> 0 <= x.
Proof.
  intros Hf. unfold cleared_in_frame, predict_video_frame.
  destruct (predict f) as [results|e] eqn:E; simpl; [|tauto].
  destruct results as [|r results]; simpl; [tauto|].
  intros Hx. change (In x (List.filter (fun c => ge c thr)
                             (concat (map confidences_of (r :: results))))) in Hx.
  apply List.filter_In in Hx as [Hx _].
  apply List.in_concat in Hx as (l & Hl & Hx).
  apply List.in_map_iff in Hl as (r' & <- & Hr').
  exact (Hf _ r' x eq_refl Hr' Hx).
Qed.

Lemma cleared_nonneg thr stride frames all :
  scores_nonneg all ->
  (forall f, In f frames -> In f all) ->
  forall x, In x (concat (map (cleared_in_frame thr) (scored stride 0 frames))) ->
            0 <= x.
Proof.
  intros Hall Hsub x Hx.
  apply List.in_concat in Hx as (l & Hl & Hx).
  apply List.in_map_iff in Hl as (f & <- & Hf).
  apply in_scored in Hf.
  apply (cleared_in_frame_nonneg thr f x); [|exact Hx].
  intros results r c. apply Hall. now apply Hsub.
Qed.

Lemma run_inv_max L st :
  run_inv L st -> (forall x, In x L -> 0 <= x) ->
  max_or_zero L (confidence (alert st)).
Proof.
  intros (H0 & Hub & Hin & _) Hnn. destruct L as [|y L]; simpl.
  - destruct Hin as [-> | []]. reflexivity.
  - split; [|exact Hub].
    destruct Hin as [E | Hin].
    + exists y. split; [now left|].
      specialize (Hub y (or_introl eq_refl)).
      specialize (Hnn y (or_introl eq_refl)).
      rewrite E in *. now apply Qle_antisym.
    + exists (confidence (alert st)). split; [exact Hin | reflexivity].
Qed.

Lemma finish_status name nothing st L :
  run_inv L st ->
  (L = [] -> status (finish name nothing st) = "false_positive" /\
             description (finish name nothing st) = nothing) /\
  (L <> [] -> status (finish name nothing st) = "new").
Proof.
  intros (_ & _ & _ & Hcnt & Hst). unfold finish.
  destruct (detection_count st) as [|n] eqn:E; simpl.
  - split; [tauto|]. intros Hne. destruct Hne. now apply Hcnt.
  - split; [|tauto]. intros ->.
    assert (S n = 0%nat) by now apply Hcnt. discriminate.
Qed.

(** Both kinds of run return, and in a state the run invariant
    describes. *)
Lemma process_video_run self key d thr frames :
  ModelManager.detectors self !! key = Some d ->
  exists st,
    process_video self (Some frames) key thr
      = Ret (finish (ModelManager.name d) (NoneInVideo (ModelManager.name d)) st) /\
    run_inv (cleared thr 5 frames) st.
Proof.
  intros Hd. eexists. split.
  - unfold process_video, ModelManager.get_detector, mbind, res_bind. simpl.
    rewrite Hd. reflexivity.
  - exact (video_loop_inv thr frames [] _ (run_inv_start _)).
Qed.

Lemma process_camera_stream_run self key d camera duration limit live :
  ModelManager.detectors self !! key = Some d ->
  frame_rate camera <> 0%Z ->
  exists st,
    snd (process_camera_stream self (Some camera) key (Some live) duration limit)
      = Ret (finish (ModelManager.name d) (NoneInStream (ModelManager.name d)) st) /\
    run_inv
      (cleared (ModelManager.conf_threshold (ModelManager.get_detector_config self key))
         (frame_rate camera) (frames_read duration limit 0 live))
      st.
Proof.
  intros Hd Hrate.
  destruct (stream_loop_inv
              (ModelManager.conf_threshold (ModelManager.get_detector_config self key))
              (frame_rate camera) duration limit live [] _ Hrate
              (run_inv_start (RealTimeDetection (ModelManager.name d))))
    as (st & Hrun & Hinv).
  exists st. split; [|exact Hinv].
  unfold process_camera_stream, ModelManager.get_detector, mbind, res_bind. simpl.
  rewrite Hd. simpl. now rewrite Hrun.
Qed.

(** C1. After a run over a video file, and after a run over a camera
    stream (which takes its threshold from the detector's configuration
    and scores every [frame_rate]-th frame), the alert's confidence is
    the greatest confidence, among the scored frames, that was at least
    the threshold, and 0.0 when there was none.  The detector is a
    registered one and its scores are not negative. *)
Theorem alert_confidence_is_max_cleared
    (self : ModelManager.ModelManager) (key : string) (d : ModelManager.Detector)
    (thr duration : Q) (frame_limit : Z) (camera : Camera)
    (frames : list frame) (live : list (frame * Q)) :
  ModelManager.detectors self !! key = Some d ->
  scores_nonneg frames ->
  scores_nonneg (map fst live) ->
  frame_rate camera <> 0%Z ->
  (exists a,
      process_video self (Some frames) key thr = Ret a /\
      max_or_zero (cleared thr 5 frames) (confidence a)) /\
  (exists a,
      snd (process_camera_stream self (Some camera) key (Some live) duration
             frame_limit) = Ret a /\
      max_or_zero
        (cleared (ModelManager.conf_threshold
                    (ModelManager.get_detector_config self key))
           (frame_rate camera) (frames_read duration frame_limit 0 live))
        (confidence a)).
Proof.
  intros Hd Hframes Hlive Hrate. split.
  - destruct (process_video_run self key d thr frames Hd) as (st & Hrun & Hinv).
    eexists. split; [exact Hrun|].
    rewrite finish_confidence. apply run_inv_max; [exact Hinv|].
    apply (cleared_nonneg thr 5 frames frames Hframes). tauto.
  - destruct (process_camera_stream_run self key d camera duration frame_limit
                live Hd Hrate) as (st & Hrun & Hinv).
    eexists. split; [exact Hrun|].
    rewrite finish_confidence. apply run_inv_max; [exact Hinv|].
    apply (cleared_nonneg _ (frame_rate camera) _ (map fst live) Hlive).
    intros f. apply in_frames_read.
Qed.

Lemma alert_confidence_is_max_cleared_witness :
  ModelManager.detectors sample_manager !! "fall"
    = Some {| ModelManager.name := "Fall Detection"; ModelManager.model_path := "fall" |} /\
  scores_nonneg (silent 39 ++ [hit (95 # 100)] ++ silent 60) /\
  scores_nonneg (map fst [(hit (6 # 10), 1); (hit (8 # 10), 2); (hit (9 # 10), 3)]) /\
  frame_rate every_frame <> 0%Z /\
  (exists a,
      process_video sample_manager
        (Some (silent 39 ++ [hit (95 # 100)] ++ silent 60)) "fall" (1 # 4) = Ret a /\
      max_or_zero (cleared (1 # 4) 5 (silent 39 ++ [hit (95 # 100)] ++ silent 60))
        (confidence a)) /\
  (exists a,
      snd (process_camera_stream sample_manager (Some every_frame) "fall"
             (Some [(hit (6 # 10), 1); (hit (8 # 10), 2); (hit (9 # 10), 3)])
             60 2) = Ret a /\
      max_or_zero
        (cleared (ModelManager.conf_threshold
                    (ModelManager.get_detector_config sample_manager "fall"))
           (frame_rate every_frame)
           (frames_read 60 2 0
              [(hit (6 # 10), 1); (hit (8 # 10), 2); (hit (9 # 10), 3)]))
        (confidence a)).
Proof.
  assert (H0 : ModelManager.detectors sample_manager !! "fall"
               = Some {| ModelManager.name := "Fall Detection";
                         ModelManager.model_path := "fall" |}) by reflexivity.
  assert (Hhit : forall c f, In f (silent c) -> forall results r x,
             predict f = Ret results -> In r results ->
             In x (confidences_of r) -> 0 <= x).
  { intros c f Hf results r x Hp Hr Hx. unfold silent in Hf.
    apply list_elem_of_In, elem_of_replicate in Hf as [-> _].
    injection Hp as <-. destruct Hr as [<- | []]. destruct Hx. }
  assert (H1 : scores_nonneg (silent 39 ++ [hit (95 # 100)] ++ silent 60)).
  { intros f results r x Hf. apply List.in_app_or in Hf as [Hf | [<- | Hf]].
    - now apply (Hhit 39%nat).
    - intros Hp Hr Hx. injection Hp as <-. destruct Hr as [<- | []].
      destruct Hx as [<- | []]. discriminate.
    - now apply (Hhit 60%nat). }
  assert (H2 : scores_nonneg
                 (map fst [(hit (6 # 10), 1); (hit (8 # 10), 2); (hit (9 # 10), 3)])).
  { intros f results r x Hf Hp Hr Hx.
    destruct Hf as [<- | [<- | [<- | []]]]; injection Hp as <-;
      destruct Hr as [<- | []]; destruct Hx as [<- | []]; discriminate. }
  assert (H3 : frame_rate every_frame <> 0%Z) by (simpl; lia).
  split; [exact H0|]. split; [exact H1|]. split; [exact H2|]. split; [exact H3|].
  exact (alert_confidence_is_max_cleared sample_manager "fall" _ (1 # 4) 60 2
           every_frame _ _ H0 H1 H2 H3).
Defined.

(** The status at the end of a run that completes: a video file, or a
    live run of a camera whose frame_rate is not 0.  When no detection
    cleared the threshold the alert ends in status 'false_positive', not
    'new', with the "nothing detected" description; with a cleared
    detection the status stays 'new'. *)
Lemma completed_run_status
    (self : ModelManager.ModelManager) (key : string) (d : ModelManager.Detector)
    (thr duration : Q) (frame_limit : Z) (camera : Camera)
    (frames : list frame) (live : list (frame * Q)) :
  ModelManager.detectors self !! key = Some d ->
  frame_rate camera <> 0%Z ->
  (exists a,
      process_video self (Some frames) key thr = Ret a /\
      (cleared thr 5 frames = [] ->
       status a = "false_positive" /\ status a <> "new" /\
       description a = NoneInVideo (ModelManager.name d)) /\
      (cleared thr 5 frames <> [] -> status a = "new")) /\
  (exists a,
      snd (process_camera_stream self (Some camera) key (Some live) duration
             frame_limit) = Ret a /\
      (cleared (ModelManager.conf_threshold
                  (ModelManager.get_detector_config self key))
         (frame_rate camera) (frames_read duration frame_limit 0 live) = [] ->
       status a = "false_positive" /\ status a <> "new" /\
       description a = NoneInStream (ModelManager.name d)) /\
      (cleared (ModelManager.conf_threshold
                  (ModelManager.get_detector_config self key))
         (frame_rate camera) (frames_read duration frame_limit 0 live) <> [] ->
       status a = "new")).
Proof.
  intros Hd Hrate. split.
  - destruct (process_video_run self key d thr frames Hd) as (st & Hrun & Hinv).
    eexists. split; [exact Hrun|].
    destruct (finish_status (ModelManager.name d) (NoneInVideo (ModelManager.name d))
                st _ Hinv) as [Hnone Hsome].
    split; [|exact Hsome].
    intros HL. destruct (Hnone HL) as [Hs Hdesc].
    rewrite Hs. repeat split; [discriminate | exact Hdesc].
  - destruct (process_camera_stream_run self key d camera duration frame_limit
                live Hd Hrate) as (st & Hrun & Hinv).
    eexists. split; [exact Hrun|].
    destruct (finish_status (ModelManager.name d) (NoneInStream (ModelManager.name d))
                st _ Hinv) as [Hnone Hsome].
    split; [|exact Hsome].
    intros HL. destruct (Hnone HL) as [Hs Hdesc].
    rewrite Hs. repeat split; [discriminate | exact Hdesc].
Qed.

Lemma completed_run_status_holds :
  ModelManager.detectors sample_manager !! "fall"
    = Some {| ModelManager.name := "Fall Detection"; ModelManager.model_path := "fall" |} /\
  frame_rate {| camera_status := "offline"; frame_rate := 10 |} <> 0%Z /\
  (exists a,
      process_video sample_manager (Some (silent 7)) "fall" (1 # 4) = Ret a /\
      (cleared (1 # 4) 5 (silent 7) = [] ->
       status a = "false_positive" /\ status a <> "new" /\
       description a = NoneInVideo "Fall Detection") /\
      (cleared (1 # 4) 5 (silent 7) <> [] -> status a = "new")) /\
  (exists a,
      snd (process_camera_stream sample_manager
             (Some {| camera_status := "offline"; frame_rate := 10 |}) "fall"
             (Some [(hit (6 # 10), 1)]) 60 300) = Ret a /\
      (cleared (ModelManager.conf_threshold
                  (ModelManager.get_detector_config sample_manager "fall"))
         10 (frames_read 60 300 0 [(hit (6 # 10), 1)]) = [] ->
       status a = "false_positive" /\ status a <> "new" /\
       description a = NoneInStream "Fall Detection") /\
      (cleared (ModelManager.conf_threshold
                  (ModelManager.get_detector_config sample_manager "fall"))
         10 (frames_read 60 300 0 [(hit (6 # 10), 1)]) <> [] ->
       status a = "new")).
Proof.
  assert (H0 : ModelManager.detectors sample_manager !! "fall"
               = Some {| ModelManager.name := "Fall Detection";
                         ModelManager.model_path := "fall" |}) by reflexivity.
  assert (H : frame_rate {| camera_status := "offline"; frame_rate := 10 |} <> 0%Z)
    by (simpl; lia).
  split; [exact H0|]. split; [exact H|].
  exact (completed_run_status sample_manager "fall" _ (1 # 4) 60 300
           {| camera_status := "offline"; frame_rate := 10 |}
           (silent 7) [(hit (6 # 10), 1)] H0 H).
Defined.

Lemma severity_for_cases c :
  (9 # 10 <= c /\ severity_for c = "critical") \/
  (7 # 10 <= c < 9 # 10 /\ severity_for c = "high") \/
  (1 # 2 <= c < 7 # 10 /\ severity_for c = "medium") \/
  (c < 1 # 2 /\ severity_for c = "low").
Proof.
  unfold severity_for.
  destruct (ge c (9 # 10)) eqn:E1; [left; split; [now apply ge_true | reflexivity]|].
  apply ge_false in E1. right.
  destruct (ge c (7 # 10)) eqn:E2;
    [left; split; [split; [now apply ge_true | exact E1] | reflexivity]|].
  apply ge_false in E2. right.
  destruct (ge c (1 # 2)) eqn:E3;
    [left; split; [split; [now apply ge_true | exact E2] | reflexivity]|].
  apply ge_false in E3. right. split; [exact E3 | reflexivity].
Qed.

Lemma score_frame_alert thr f st :
  alert (score_frame thr f st) = alert st \/
  (confidence (alert st) < confidence (alert (score_frame thr f st)) /\
   severity (alert (score_frame thr f st))
     = severity_for (confidence (alert (score_frame thr f st)))).
Proof.
  unfold score_frame. destruct (predict_video_frame f) as [results|e];
    [|now left].
  pose proof (scan_results_inv thr st results) as H.
  destruct (scan_results thr results st) as [[has conf] st1].
  destruct H as (Ha & _). simpl. rewrite Ha. unfold update_alert.
  destruct has; simpl; [|now left].
  destruct (gt conf (confidence (alert st))) eqn:E; [|now left].
  right. simpl. split; [now apply gt_true | reflexivity].
Qed.

(** C2. Whenever scoring a frame raises the alert's confidence, the
    severity stored with it is the severity of the new confidence:
    critical from 0.9, high from 0.7, medium from 0.5, low below; and a
    greater confidence never has a lower rank of severity. *)
Theorem severity_follows_confidence
    (thr : Q) (f : frame) (st : run) (c1 c2 : Q) :
  confidence (alert st) < confidence (alert (score_frame thr f st)) ->
  c2 <= c1 ->
  severity (alert (score_frame thr f st))
    = severity_for (confidence (alert (score_frame thr f st))) /\
  ((9 # 10 <= c1 -> severity_for c1 = "critical") /\
   (7 # 10 <= c1 < 9 # 10 -> severity_for c1 = "high") /\
   (1 # 2 <= c1 < 7 # 10 -> severity_for c1 = "medium") /\
   (c1 < 1 # 2 -> severity_for c1 = "low")) /\
  (NotificationEngine.rank (severity_for c2) <= NotificationEngine.rank (severity_for c1))%nat.
Proof.
  intros Hup Hle. split; [|split].
  - destruct (score_frame_alert thr f st) as [E | [_ E]]; [|exact E].
    rewrite E in Hup. exfalso. exact (Qlt_irrefl _ Hup).
  - destruct (severity_for_cases c1) as [[H E] | [[H E] | [[H E] | [H E]]]];
      repeat split; intros; try exact E; exfalso; lra.
  - destruct (severity_for_cases c1) as [[H1 E1] | [[H1 E1] | [[H1 E1] | [H1 E1]]]];
      destruct (severity_for_cases c2) as [[H2 E2] | [[H2 E2] | [[H2 E2] | [H2 E2]]]];
      rewrite E1, E2; try (vm_compute; lia); exfalso; lra.
Qed.

Lemma severity_follows_confidence_witness :
  confidence (alert (start_run (AutomaticDetection "Fall Detection")))
    < confidence (alert (score_frame (1 # 4) (hit (95 # 100))
                           (start_run (AutomaticDetection "Fall Detection")))) /\
  6 # 10 <= 95 # 100 /\
  severity (alert (score_frame (1 # 4) (hit (95 # 100))
                     (start_run (AutomaticDetection "Fall Detection"))))
    = severity_for (confidence (alert (score_frame (1 # 4) (hit (95 # 100))
                                         (start_run (AutomaticDetection "Fall Detection"))))) /\
  ((9 # 10 <= 95 # 100 -> severity_for (95 # 100) = "critical") /\
   (7 # 10 <= 95 # 100 < 9 # 10 -> severity_for (95 # 100) = "high") /\
   (1 # 2 <= 95 # 100 < 7 # 10 -> severity_for (95 # 100) = "medium") /\
   (95 # 100 < 1 # 2 -> severity_for (95 # 100) = "low")) /\
  (NotificationEngine.rank (severity_for (6 # 10)) <= NotificationEngine.rank (severity_for (95 # 100)))%nat.
Proof.
  assert (H1 : confidence (alert (start_run (AutomaticDetection "Fall Detection")))
               < confidence (alert (score_frame (1 # 4) (hit (95 # 100))
                                      (start_run (AutomaticDetection "Fall Detection")))))
    by reflexivity.
  assert (H2 : 6 # 10 <= 95 # 100) by (unfold Qle; simpl; lia).
  split; [exact H1|]. split; [exact H2|].
  exact (severity_follows_confidence (1 # 4) (hit (95 # 100))
           (start_run (AutomaticDetection "Fall Detection")) (95 # 100) (6 # 10) H1 H2).
Defined.

(** A file of 100 frames in which the detector answers 0.95 at frame 40
    and nothing elsewhere. *)
Example one_hit_at_frame_40 :
  process_video sample_manager
    (Some (silent 39 ++ [hit (95 # 100)] ++ silent 60)) "fall" (1 # 4)
  = Ret {| status := "new"; severity := "critical"; confidence := 95 # 100;
           description := Detected "Fall Detection" 1 [95 # 100];
           thumbnail_frame := Some 40%Z |}.
Proof. reflexivity. Qed.

(** The same hit one frame earlier falls between the scored frames. *)
Example one_hit_at_frame_39 :
  process_video sample_manager
    (Some (silent 38 ++ [hit (95 # 100)] ++ silent 61)) "fall" (1 # 4)
  = Ret {| status := "false_positive"; severity := "medium"; confidence := 0;
           description := NoneInVideo "Fall Detection";
           thumbnail_frame := None |}.
Proof. reflexivity. Qed.

(** A frame rate of zero ends a live run at its first frame. *)
Example zero_frame_rate_raises :
  snd (process_camera_stream sample_manager
         (Some {| camera_status := "offline"; frame_rate := 0 |}) "fall"
         (Some [(hit (6 # 10), 1)]) 60 300)
  = Raise "ZeroDivisionError".
Proof. reflexivity. Qed.

(** The two forms of the live loop agree: the result of [stream_loop] is
    the state [stream_loop_left] ends in, or its exception. *)
Lemma stream_loop_left_agrees thr rate duration limit live : forall st,
  stream_loop thr rate duration limit live st
  = match stream_loop_left thr rate duration limit live st with
    | (st', Ret _) => Ret st'
    | (_, Raise e) => Raise e
    end.
Proof.
  induction live as [|[f t] live IH]; intros st; simpl; [reflexivity|].
  destruct (rate =? 0)%Z; [reflexivity|].
  match goal with |- context [ge t duration || ?b] => destruct (ge t duration || b) end;
    [reflexivity | apply IH].
Qed.

Lemma alert_left_agrees self camera key stream duration limit a :
  snd (process_camera_stream self camera key stream duration limit) = Ret a ->
  alert_left self camera key stream duration limit = Some a.
Proof.
  unfold process_camera_stream, alert_left.
  destruct camera as [camera|]; [|discriminate].
  destruct (ModelManager.get_detector self (Some key)) as [d|e]; [|discriminate].
  destruct stream as [live|]; [|discriminate]. simpl.
  rewrite stream_loop_left_agrees.
  destruct (stream_loop_left _ _ _ _ _ _) as [st [[]|e]]; simpl; [|discriminate].
  intros [= <-]. reflexivity.
Qed.

(** A live run of a camera whose frame_rate is 0 raises at its first
    frame and leaves the Alert as line 236 created it. *)
Lemma zero_frame_rate_run self key d camera duration limit f t live :
  ModelManager.detectors self !! key = Some d ->
  frame_rate camera = 0%Z ->
  process_camera_stream self (Some camera) key (Some ((f, t) :: live))
    duration limit
  = (Some {| camera_status := "online"; frame_rate := frame_rate camera |},
     Raise "ZeroDivisionError") /\
  alert_left self (Some camera) key (Some ((f, t) :: live)) duration limit
  = Some (create_alert (RealTimeDetection (ModelManager.name d))).
Proof.
  intros Hd Hrate.
  unfold process_camera_stream, alert_left, ModelManager.get_detector. simpl.
  rewrite Hd, Hrate. simpl. split; reflexivity.
Qed.

(** C3, at the input where it fails.  A camera whose frame_rate is 0 and
    a stream of three frames on which the detector finds nothing: the
    Alert is created with status 'new', the remainder by the frame_rate
    raises ZeroDivisionError at the first frame, outside the inner [try],
    and the handler re-raises.  The lines that set 'false_positive' are
    not reached: the run has zero detections and leaves the Alert in
    status 'new', with its first description.  With a frame_rate of 1
    the same stream ends in 'false_positive', and so does a video file
    with the same frames. *)
Theorem zero_frame_rate_leaves_the_alert_new :
  let live := [({| predict := Ret [None] |}, 1); ({| predict := Ret [None] |}, 2);
               ({| predict := Ret [None] |}, 3)] in
  let camera rate := Some {| camera_status := "offline"; frame_rate := rate |} in
  let thr := ModelManager.conf_threshold
               (ModelManager.get_detector_config sample_manager "fall") in
  (forall f, In f (map fst live) -> cleared_in_frame thr f = []) /\
  cleared thr 0 (frames_read 60 300 0 live) = [] /\
  process_camera_stream sample_manager (camera 0%Z) "fall" (Some live) 60 300
  = (Some {| camera_status := "online"; frame_rate := 0 |},
     Raise "ZeroDivisionError") /\
  (exists a,
      alert_left sample_manager (camera 0%Z) "fall" (Some live) 60 300 = Some a /\
      status a = "new" /\ status a <> "false_positive" /\
      description a = RealTimeDetection "Fall Detection") /\
  (exists a,
      snd (process_camera_stream sample_manager (camera 1%Z) "fall" (Some live)
             60 300) = Ret a /\
      alert_left sample_manager (camera 1%Z) "fall" (Some live) 60 300 = Some a /\
      status a = "false_positive" /\
      description a = NoneInStream "Fall Detection") /\
  (exists a,
      process_video sample_manager (Some (map fst live)) "fall" thr = Ret a /\
      status a = "false_positive" /\
      description a = NoneInVideo "Fall Detection").
Proof.
  intros live camera thr.
  pose (d := {| ModelManager.name := "Fall Detection";
                ModelManager.model_path := "fall" |}).
  assert (Hd : ModelManager.detectors sample_manager !! "fall" = Some d)
    by reflexivity.
  assert (Hnone : forall f, In f (map fst live) -> cleared_in_frame thr f = []).
  { intros f [<- | [<- | [<- | []]]]; reflexivity. }
  assert (Hclear : forall stride frames,
             (forall f, In f frames -> In f (map fst live)) ->
             cleared thr stride frames = []).
  { intros stride frames Hsub. unfold cleared.
    generalize (scored stride 0 frames) (in_scored stride frames 0).
    intros l Hl. induction l as [|f l IH]; [reflexivity|]. simpl.
    rewrite (Hnone f) by (apply Hsub, (Hl f); now left).
    apply IH. intros g Hg. apply Hl. now right. }
  split; [exact Hnone|].
  split; [reflexivity|].
  destruct (zero_frame_rate_run sample_manager "fall" d
              {| camera_status := "offline"; frame_rate := 0 |} 60 300
              {| predict := Ret [None] |} 1
              [({| predict := Ret [None] |}, 2); ({| predict := Ret [None] |}, 3)]
              Hd eq_refl) as [Hraise Hleft].
  split; [exact Hraise|].
  split.
  { eexists. split; [exact Hleft|]. repeat split. discriminate. }
  assert (Hrate : frame_rate {| camera_status := "offline"; frame_rate := 1 |} <> 0%Z)
    by (simpl; lia).
  destruct (completed_run_status sample_manager "fall" d thr 60 300
              {| camera_status := "offline"; frame_rate := 1 |}
              (map fst live) live Hd Hrate)
    as [(a & Hrun & Hzero & _) (b & Hlive & Hzero' & _)].
  split.
  - exists b. split; [exact Hlive|].
    split; [now apply alert_left_agrees|].
    destruct Hzero' as (Hs & _ & Hdesc); [reflexivity|]. now split.
  - exists a. split; [exact Hrun|].
    destruct Hzero as (Hs & _ & Hdesc); [|now split].
    apply Hclear. tauto.
Qed.

End VideoProcessorFacts.

(** ** The notification policy of alerts/signals.py *)

Module NotificationEngineFacts.
Import Py NotificationEngine.

Lemma time_compare_antisym a b :
  time_compare b a = CompOpp (time_compare a b).
Proof.
  unfold time_compare.
  rewrite (Nat.compare_antisym (hour a) (hour b)),
          (Nat.compare_antisym (minute a) (minute b)),
          (Nat.compare_antisym (second a) (second b)),
          (Nat.compare_antisym (microsecond a) (microsecond b)).
  destruct (hour a ?= hour b)%nat; simpl; try reflexivity.
  destruct (minute a ?= minute b)%nat; simpl; try reflexivity.
  destruct (second a ?= second b)%nat; simpl; reflexivity.
Qed.

(** Two times are always comparable. *)
Lemma time_le_total a b : time_le a b = false -> time_le b a = true.
Proof.
  unfold time_le. rewrite (time_compare_antisym a b).
  destruct (time_compare a b); simpl; congruence.
Qed.

(** [a <= b] and [b <= a] only at the same instant. *)
Lemma time_le_both a b :
  time_le a b = true -> time_le b a = true -> time_compare a b = Eq.
Proof.
  unfold time_le. rewrite (time_compare_antisym a b).
  destruct (time_compare a b); simpl; congruence.
Qed.

(** A critical alert passes the quiet hours untouched. *)
Lemma critical_bypasses_quiet_hours s instance t flags :
  severity instance = "critical" ->
  check_quiet_hours s instance t flags = flags.
Proof.
  intros E. unfold check_quiet_hours. rewrite E. simpl.
  repeat match goal with |- context [if ?b then _ else _] => destruct b end;
    reflexivity.
Qed.

(** Without quiet hours, and outside the window, the flags stay. *)
Lemma outside_quiet_hours s instance t flags :
  quiet_hours_enabled s = false \/
  in_window (quiet_hours_start s) (quiet_hours_end s) t = false ->
  check_quiet_hours s instance t flags = flags.
Proof.
  unfold check_quiet_hours, in_window. intros [-> | H]; [reflexivity|].
  destruct (quiet_hours_enabled s); [|reflexivity].
  destruct (time_le (quiet_hours_start s) (quiet_hours_end s)).
  - now rewrite H.
  - apply orb_false_iff in H as [H1 H2].
    apply time_le_total in H1, H2. now rewrite H1, H2.
Qed.

(** Inside the window a non-critical alert is silenced, the two
    boundary instants of an overnight window left aside. *)
Lemma inside_quiet_hours s instance t flags :
  quiet_hours_enabled s = true ->
  severity instance <> "critical" ->
  in_window (quiet_hours_start s) (quiet_hours_end s) t = true ->
  time_le (quiet_hours_start s) (quiet_hours_end s) = true \/
  (time_compare (quiet_hours_start s) t <> Eq /\
   time_compare t (quiet_hours_end s) <> Eq) ->
  check_quiet_hours s instance t flags = silence.
Proof.
  intros Hen Hsev Hin Hb. unfold check_quiet_hours, in_window in *.
  rewrite Hen.
  assert (Hc : String.eqb (severity instance) "critical" = false)
    by now apply String.eqb_neq.
  rewrite Hc. simpl.
  destruct (time_le (quiet_hours_start s) (quiet_hours_end s)) eqn:Ese.
  - now rewrite Hin.
  - destruct Hb as [Hb | [Hs He]]; [discriminate|].
    destruct (time_le (quiet_hours_end s) t) eqn:E1;
      destruct (time_le t (quiet_hours_start s)) eqn:E2; simpl; try reflexivity.
    exfalso. apply orb_true_iff in Hin as [Hin | Hin].
    + apply Hs. now apply time_le_both.
    + apply He. now apply time_le_both.
Qed.

(** C4, at the input where it fails.  Quiet hours from 22:00 to 07:00,
    a medium alert at 22:00:00 sharp: the instant lies in the window,
    yet the e-mail and the push notification are sent.  (The branch for
    a window within one day counts both of its ends to the window.) *)
Theorem quiet_hours_open_at_overnight_start :
  let s := all_on true (at_ 22 0) (at_ 7 0) in
  let instance := {| alert_type := "fall"; severity := "medium";
                     camera := Some (owner, Some s) |} in
  let final := send_alert_notifications (calm (at_ 22 0) None) true instance [] in
  in_window (quiet_hours_start s) (quiet_hours_end s) (at_ 22 0) = true /\
  decide s instance (at_ 22 0)
    = {| by_email := true; by_sms := false; by_push := true |} /\
  map (fun wr => (notification_type (row_of wr), status (row_of wr))) (journal final)
    = [("email", "pending"); ("email", "sent"); ("push", "pending"); ("push", "sent")] /\
  decide s instance (at_ 22 1) = silence /\
  decide (all_on true (at_ 9 0) (at_ 17 0)) instance (at_ 9 0) = silence.
Proof. vm_compute. repeat split; reflexivity. Qed.

Lemma flag_email flags : flag flags "email" = by_email flags.
Proof. reflexivity. Qed.

Lemma flag_sms flags : flag flags "sms" = by_sms flags.
Proof. reflexivity. Qed.

Lemma flag_push flags : flag flags "push" = by_push flags.
Proof. reflexivity. Qed.

Ltac each_channel H :=
  destruct H as [<- | [<- | [<- | []]]].

Lemma eligibility s instance channel :
  In channel channels ->
  flag (check_severity s instance (enabled_for_type s instance)) channel
  = globally_enabled s channel
    && match type_toggle s channel (alert_type instance) with
       | Some b => b
       | None => false
       end
    && (min_rank s channel <=? alert_rank instance)%nat.
Proof.
  intros Hch.
  unfold check_severity, enabled_for_type, type_toggle, globally_enabled,
    alert_rank, min_rank.
  each_channel Hch;
    repeat match goal with
    | |- context [String.eqb (alert_type instance) ?x] =>
        destruct (String.eqb (alert_type instance) x)
    end;
    cbn -[get severity_rank Nat.leb];
    rewrite ?andb_false_r; reflexivity.
Qed.

Section Journal.
Variable w : world.

Ltac run_block :=
  unfold when, try_, mbind, M_bind, mret, M_ret, create, send, assign, save, the_log;
  repeat (simpl;
          match goal with
          | |- context [create_raises w ?c] => destruct (create_raises w c)
          | |- context [send_raises w ?c] => destruct (send_raises w c)
          | |- context [save_raises w ?c ?s] => destruct (save_raises w c s)
          end);
  simpl.

Ltac appended :=
  eexists; split;
  [ first [ reflexivity
          | symmetry; apply app_nil_r
          | rewrite <- app_assoc; reflexivity ]
  | split; [repeat constructor | first [discriminate | reflexivity]] ].

Lemma send_email_appends flags st :
  notification_log st = None ->
  appends "email" (by_email flags) (send_email w flags) st.
Proof.
  intros Hnone. unfold appends, send_email.
  destruct (by_email flags); [|unfold when; simpl; appended].
  run_block; rewrite ?Hnone; simpl; appended.
Qed.

Lemma send_sms_appends flags user st :
  appends "sms" (by_sms flags) (send_sms w flags user) st.
Proof.
  unfold appends, send_sms.
  destruct (by_sms flags); [|unfold when; simpl; appended].
  destruct (truthy (phone_number user)); [|unfold when; simpl].
  - run_block; appended.
  - appended.
Qed.

Lemma send_push_appends flags st :
  appends "push" (by_push flags) (send_push w flags) st.
Proof.
  unfold appends, send_push.
  destruct (by_push flags); [|unfold when; simpl; appended].
  run_block; appended.
Qed.

Lemma typed_other c channel ws :
  typed c ws -> c <> channel -> writes_of channel ws = [].
Proof.
  intros Hty Hne. unfold writes_of.
  induction Hty as [|wr ws Hwr _ IH]; simpl; [reflexivity|].
  rewrite Hwr. apply String.eqb_neq in Hne. now rewrite Hne.
Qed.

(** The writes of a dispatch come in three groups, one per channel. *)
Lemma dispatch_appends flags user st :
  notification_log st = None ->
  exists ws1 ws2 ws3,
    journal (fst (try_ (send_email w flags;; send_sms w flags user;;
                        send_push w flags)
                    (fun _ => mret tt) st))
      = journal st ++ ws1 ++ ws2 ++ ws3 /\
    typed "email" ws1 /\ typed "sms" ws2 /\ typed "push" ws3 /\
    (by_email flags = false -> ws1 = []) /\
    (by_sms flags = false -> ws2 = []) /\
    (by_push flags = false -> ws3 = []).
Proof.
  intros Hnone.
  destruct (send_email_appends flags st Hnone) as (ws1 & E1 & T1 & O1).
  unfold try_, mbind, M_bind, mret, M_ret.
  destruct (send_email w flags st) as [st1 [[]|e1]]; simpl in E1.
  2:{ exists ws1, [], []. simpl. rewrite !app_nil_r.
      repeat split; try assumption; constructor. }
  destruct (send_sms_appends flags user st1) as (ws2 & E2 & T2 & O2).
  destruct (send_sms w flags user st1) as [st2 [[]|e2]]; simpl in E2.
  2:{ exists ws1, ws2, []. simpl. rewrite E2, E1, app_nil_r, app_assoc.
      repeat split; try assumption; constructor. }
  destruct (send_push_appends flags st2) as (ws3 & E3 & T3 & O3).
  exists ws1, ws2, ws3.
  assert (E : journal (fst (send_push w flags st2))
              = journal st ++ ws1 ++ ws2 ++ ws3).
  { rewrite E3, E2, E1. now rewrite <- !app_assoc. }
  destruct (send_push w flags st2) as [st3 [[]|e3]]; simpl in *;
    repeat split; assumption.
Qed.

(** A channel whose flag is off at the dispatch gets no log row. *)
Lemma no_flag_no_row instance user s db channel :
  In channel channels ->
  camera instance = Some (user, Some s) ->
  flag (decide s instance (current_time w)) channel = false ->
  writes_of channel (journal (send_alert_notifications w true instance db)) = [].
Proof.
  intros Hch Hcam Hflag. unfold send_alert_notifications. rewrite Hcam.
  set (flags := decide s instance (current_time w)) in *.
  destruct (dispatch_appends flags user
              {| table := db; journal := []; notification_log := None |} eq_refl)
    as (ws1 & ws2 & ws3 & E & T1 & T2 & T3 & O1 & O2 & O3).
  rewrite E. simpl. unfold writes_of. rewrite !List.filter_app.
  fold (writes_of channel ws1) (writes_of channel ws2) (writes_of channel ws3).
  each_channel Hch.
  - rewrite flag_email in Hflag. rewrite (O1 Hflag). simpl.
    rewrite (typed_other "sms" "email" ws2), (typed_other "push" "email" ws3);
      auto; discriminate.
  - rewrite flag_sms in Hflag. rewrite (O2 Hflag). simpl.
    rewrite (typed_other "email" "sms" ws1), (typed_other "push" "sms" ws3);
      auto; discriminate.
  - rewrite flag_push in Hflag. rewrite (O3 Hflag). simpl.
    rewrite (typed_other "email" "push" ws1), (typed_other "sms" "push" ws2);
      auto; discriminate.
Qed.

End Journal.

Lemma quiet_hours_only_silence s instance t flags channel :
  flag flags channel = false ->
  flag (check_quiet_hours s instance t flags) channel = false.
Proof.
  intros H. unfold check_quiet_hours.
  repeat match goal with |- context [if ?b then _ else _] => destruct b end;
    try exact H; unfold flag, silence; simpl;
    repeat match goal with |- context [if ?b then _ else _] => destruct b end;
    reflexivity.
Qed.

(** C5. Before the quiet hours are looked at, a channel is eligible
    exactly when it is enabled globally, its toggle for the alert's type
    is on, and the rank of the alert's severity (low 1, medium 2, high 3,
    critical 4) is at least the rank of the channel's minimum severity; a
    channel disabled globally gets no log row, whatever the rest of the
    policy says. *)
Theorem channel_eligibility
    (w : world) (s : NotificationSetting) (user : User) (ty sev : string)
    (db : list NotificationLog) (channel : string) :
  In channel channels ->
  let instance := {| alert_type := ty; severity := sev;
                     camera := Some (user, Some s) |} in
  (flag (check_severity s instance (enabled_for_type s instance)) channel = true
   <-> globally_enabled s channel = true /\
       type_toggle s channel ty = Some true /\
       (min_rank s channel <= alert_rank instance)%nat) /\
  (rank "low" = 1 /\ rank "medium" = 2 /\ rank "high" = 3 /\ rank "critical" = 4)%nat /\
  (globally_enabled s channel = false ->
   writes_of channel (journal (send_alert_notifications w true instance db)) = []).
Proof.
  intros Hch instance.
  pose proof (eligibility s instance channel Hch) as E.
  split; [|split].
  - rewrite E. rewrite !andb_true_iff, Nat.leb_le.
    change (alert_type instance) with ty.
    destruct (type_toggle s channel ty) as [[]|]; intuition congruence.
  - repeat split; reflexivity.
  - intros Hoff. apply (no_flag_no_row w instance user s db channel Hch eq_refl).
    apply quiet_hours_only_silence. rewrite E, Hoff. reflexivity.
Qed.

Lemma channel_eligibility_witness :
  In "sms" channels /\
  let s := all_on false (at_ 22 0) (at_ 7 0) in
  let instance := {| alert_type := "fall"; severity := "medium";
                     camera := Some (owner, Some s) |} in
  (flag (check_severity s instance (enabled_for_type s instance)) "sms" = true
   <-> globally_enabled s "sms" = true /\
       type_toggle s "sms" "fall" = Some true /\
       (min_rank s "sms" <= alert_rank instance)%nat) /\
  (rank "low" = 1 /\ rank "medium" = 2 /\ rank "high" = 3 /\ rank "critical" = 4)%nat /\
  (globally_enabled s "sms" = false ->
   writes_of "sms"
     (journal (send_alert_notifications (calm (at_ 12 0) None) true instance []))
   = []).
Proof.
  assert (H : In "sms" channels) by (right; left; reflexivity).
  split; [exact H|].
  exact (channel_eligibility (calm (at_ 12 0) None) (all_on false (at_ 22 0) (at_ 7 0))
           owner "fall" "medium" [] "sms" H).
Defined.

Section Reliable.
Variable w : world.
Hypothesis Hcreate : forall c, create_raises w c = None.
Hypothesis Hsave : forall c st, save_raises w c st = None.

Ltac attempt :=
  unfold when, try_, mbind, M_bind, mret, M_ret, create, send, assign, save,
    the_log, after_attempt, outcome, pending;
  simpl; rewrite ?Hcreate; simpl;
  match goal with
  | |- context [send_raises w ?c] => destruct (send_raises w c)
  end;
  simpl; rewrite ?Hsave; simpl; rewrite <- ?app_assoc; reflexivity.

Lemma send_email_reliable flags st :
  send_email w flags st = (after_attempt w "email" (by_email flags) st, Ret tt).
Proof.
  unfold send_email. destruct (by_email flags); [attempt | reflexivity].
Qed.

Lemma send_sms_reliable flags user st :
  send_sms w flags user st
  = (after_attempt w "sms" (by_sms flags && truthy (phone_number user)) st, Ret tt).
Proof.
  unfold send_sms.
  destruct (by_sms flags && truthy (phone_number user)); [attempt | reflexivity].
Qed.

Lemma send_push_reliable flags st :
  send_push w flags st = (after_attempt w "push" (by_push flags) st, Ret tt).
Proof.
  unfold send_push. destruct (by_push flags); [attempt | reflexivity].
Qed.

Lemma dispatch_reliable flags user st :
  fst (try_ (send_email w flags;; send_sms w flags user;; send_push w flags)
         (fun _ => mret tt) st)
  = after_attempt w "push" (by_push flags)
      (after_attempt w "sms" (by_sms flags && truthy (phone_number user))
         (after_attempt w "email" (by_email flags) st)).
Proof.
  unfold try_, mbind, M_bind.
  rewrite send_email_reliable, send_sms_reliable, send_push_reliable.
  reflexivity.
Qed.

End Reliable.

Lemma outcome_type w channel : notification_type (outcome w channel) = channel.
Proof. unfold outcome. now destruct (send_raises w channel). Qed.

(** C6. With the log table itself working, every channel that is
    attempted writes a 'pending' row and then updates that row: to
    'sent' with the time when its dispatch went through, to 'failed'
    with the error when it raised; this holds whatever the dispatches of
    the other channels do.  A channel that is not attempted writes
    nothing. *)
Theorem dispatch_failures_are_contained
    (w : world) (s : NotificationSetting) (user : User) (ty sev : string)
    (db : list NotificationLog) (channel : string) :
  (forall c, create_raises w c = None) ->
  (forall c st, save_raises w c st = None) ->
  In channel channels ->
  let instance := {| alert_type := ty; severity := sev;
                     camera := Some (user, Some s) |} in
  let final := send_alert_notifications w true instance db in
  if attempted (decide s instance (current_time w)) user channel
  then exists pk,
         writes_of channel (journal final)
         = [Insert pk (pending channel); Update pk (outcome w channel)]
  else writes_of channel (journal final) = [].
Proof.
  intros Hcreate Hsave Hch instance final. subst final.
  unfold send_alert_notifications. cbn [camera instance].
  rewrite (dispatch_reliable w Hcreate Hsave).
  destruct (decide s instance (current_time w)) as [e m p].
  unfold attempted, after_attempt. cbn [by_email by_sms by_push].
  destruct (truthy (phone_number user)), e, m, p; each_channel Hch;
    cbn; rewrite ?outcome_type; cbn; try reflexivity; eexists; reflexivity.
Qed.

Lemma dispatch_failures_are_contained_witness :
  (forall c, create_raises (calm (at_ 12 0) (Some "SMTP down")) c = None) /\
  (forall c st, save_raises (calm (at_ 12 0) (Some "SMTP down")) c st = None) /\
  In "push" channels /\
  let w := calm (at_ 12 0) (Some "SMTP down") in
  let s := all_on false (at_ 22 0) (at_ 7 0) in
  let instance := {| alert_type := "fall"; severity := "high";
                     camera := Some (owner, Some s) |} in
  let final := send_alert_notifications w true instance [] in
  if attempted (decide s instance (current_time w)) owner "push"
  then exists pk,
         writes_of "push" (journal final)
         = [Insert pk (pending "push"); Update pk (outcome w "push")]
  else writes_of "push" (journal final) = [].
Proof.
  assert (H1 : forall c, create_raises (calm (at_ 12 0) (Some "SMTP down")) c = None)
    by reflexivity.
  assert (H2 : forall c st,
             save_raises (calm (at_ 12 0) (Some "SMTP down")) c st = None)
    by reflexivity.
  assert (H3 : In "push" channels) by (right; right; left; reflexivity).
  split; [exact H1|]. split; [exact H2|]. split; [exact H3|].
  exact (dispatch_failures_are_contained (calm (at_ 12 0) (Some "SMTP down"))
           (all_on false (at_ 22 0) (at_ 7 0)) owner "fall" "high" [] "push"
           H1 H2 H3).
Defined.

End NotificationEngineFacts.

(** ** The detector registry of utils/model_manager.py *)

Module ModelManagerFacts.
Import Py ModelManager.

(** The active key of a manager built by [init] and changed by
    [set_active_detector] is always registered. *)
Lemma active_key_registered (self : ModelManager) (detector_key : string) :
  is_Some (detectors self !! active_detector_key self) ->
  is_Some (detectors (fst (set_active_detector self detector_key))
             !! active_detector_key (fst (set_active_detector self detector_key))).
Proof.
  intros Hact. unfold set_active_detector.
  destruct (detectors self !! detector_key) as [d|] eqn:E; simpl.
  - rewrite E. now exists d.
  - exact Hact.
Qed.

(** C7. For a key outside the registry, [get_detector] and
    [set_active_detector] raise instead of answering with some detector,
    and the failed [set_active_detector] leaves the manager, its active
    key included, as it was. *)
Theorem unknown_detector_is_rejected (self : ModelManager) (detector_key : string) :
  detectors self !! detector_key = None ->
  get_detector self (Some detector_key) = Raise (unknown_detector detector_key) /\
  set_active_detector self detector_key
    = (self, Raise (unknown_detector detector_key)) /\
  active_detector_key (fst (set_active_detector self detector_key))
    = active_detector_key self /\
  (forall d, get_detector self (Some detector_key) <> Ret d) /\
  (forall d, snd (set_active_detector self detector_key) <> Ret d).
Proof.
  intros Hnone. unfold get_detector, set_active_detector. simpl.
  rewrite Hnone. repeat split; intros; discriminate.
Qed.

Lemma unknown_detector_is_rejected_witness :
  detectors (init (fun k => k)) !! "smoke" = None /\
  get_detector (init (fun k => k)) (Some "smoke") = Raise (unknown_detector "smoke") /\
  set_active_detector (init (fun k => k)) "smoke"
    = (init (fun k => k), Raise (unknown_detector "smoke")) /\
  active_detector_key (fst (set_active_detector (init (fun k => k)) "smoke"))
    = active_detector_key (init (fun k => k)) /\
  (forall d, get_detector (init (fun k => k)) (Some "smoke") <> Ret d) /\
  (forall d, snd (set_active_detector (init (fun k => k)) "smoke") <> Ret d).
Proof.
  assert (H : detectors (init (fun k => k)) !! "smoke" = None) by reflexivity.
  split; [exact H|].
  exact (unknown_detector_is_rejected (init (fun k => k)) "smoke" H).
Defined.

End ModelManagerFacts.

(** ** The frame sources of utils/camera_manager.py *)

Module CameraManagerFacts.
Import Py CameraManager.

(** The message of a result dictionary. *)
Lemma result2_message success message :
  result2 success message !! "message" = Some (VStr message).
Proof. reflexivity. Qed.

Lemma result2_success success message :
  success_of (result2 success message) = Ret success.
Proof. reflexivity. Qed.

(** What the connection check of an RTSP camera answers, by the state
    of the stream. *)
Lemma verify_rtsp_answers w camera cap opened grabbed :
  cv2_VideoCapture w (rtsp_url camera) = Ret cap ->
  isOpened cap = Ret opened ->
  grab cap = Ret grabbed ->
  _verify_rtsp_connection w camera
  = Ret (if opened && grabbed
         then result2 true "RTSP connection successful"
         else result2 false "Failed to connect to RTSP stream").
Proof.
  intros Hcap Hopen Hgrab. unfold _verify_rtsp_connection, mbind, res_bind.
  rewrite Hcap. simpl. rewrite Hopen. simpl.
  destruct opened; simpl; [rewrite Hgrab; simpl; now destruct grabbed | reflexivity].
Qed.

(** The status update after such a check: an online camera becomes
    'offline', any other keeps its status. *)
Lemma status_after_failed_rtsp_check w camera cap opened :
  camera_type camera = "rtsp" ->
  cv2_VideoCapture w (rtsp_url camera) = Ret cap ->
  isOpened cap = Ret opened ->
  grab cap = Ret false ->
  save_raises w "offline" = None ->
  status (fst (update_camera_status w camera))
  = if String.eqb (status camera) "online" then "offline" else status camera.
Proof.
  intros Hty Hcap Hopen Hgrab Hsave.
  unfold update_camera_status, verify_camera_connection. rewrite Hty. simpl.
  rewrite (verify_rtsp_answers w camera cap opened false Hcap Hopen Hgrab).
  rewrite andb_false_r. unfold mbind, res_bind. simpl.
  rewrite result2_success.
  destruct (String.eqb (status camera) "online"); [|reflexivity].
  unfold update_status. rewrite Hsave. reflexivity.
Qed.

(** C8, at the input where it fails.  An RTSP camera, online so far,
    whose stream opens but gives no first frame: the connection check
    answers with the very message it gives when the stream does not open,
    and the status update makes the camera 'offline'; a camera that was
    'offline' stays so.  The status 'error' is not set.  (The frame
    capture of the same transport tells the two failures apart.) *)
Theorem rtsp_read_failure_is_reported_as_unreachable :
  let no_frame := site (stream true false) in
  let closed := site (stream false false) in
  _verify_rtsp_connection no_frame (lobby "online")
    = Ret (result2 false "Failed to connect to RTSP stream") /\
  _verify_rtsp_connection no_frame (lobby "online")
    = _verify_rtsp_connection closed (lobby "online") /\
  status (fst (update_camera_status no_frame (lobby "online"))) = "offline" /\
  status (fst (update_camera_status no_frame (lobby "offline"))) = "offline" /\
  fst (update_camera_statuses no_frame [lobby "online"]) = [lobby "offline"] /\
  _capture_rtsp_frame no_frame (lobby "online")
    = Ret (result3 false "Failed to read frame from RTSP stream" VNone) /\
  _capture_rtsp_frame closed (lobby "online")
    = Ret (result3 false "Failed to open RTSP stream" VNone).
Proof.
  intros no_frame closed.
  assert (Hno : forall st, _verify_rtsp_connection no_frame (lobby st)
                           = Ret (result2 false "Failed to connect to RTSP stream")).
  { intros st.
    now apply (verify_rtsp_answers no_frame (lobby st) (stream true false) true false). }
  assert (Hclosed : _verify_rtsp_connection closed (lobby "online")
                    = Ret (result2 false "Failed to connect to RTSP stream")).
  { now apply (verify_rtsp_answers closed (lobby "online") (stream false false)
                 false false). }
  split; [apply Hno|].
  split; [now rewrite Hno, Hclosed|].
  split; [vm_compute; reflexivity|].
  split; [vm_compute; reflexivity|].
  split; [vm_compute; reflexivity|].
  split; reflexivity.
Qed.

Ltac branch :=
  match goal with
  | |- context [match ?x with _ => _ end] =>
      lazymatch x with
      | context [match _ with _ => _ end] => fail
      | _ => destruct x
      end
  end.

Ltac shaped :=
  unfold try_except, mbind, res_bind, bind, raised;
  repeat (simpl; branch); simpl;
  eexists _, _, _; (split; [reflexivity|]);
  first [ left; split; reflexivity | right; eexists; split; reflexivity ].

Lemma capture_rtsp_shaped w camera : well_shaped (_capture_rtsp_frame w camera).
Proof. unfold well_shaped, _capture_rtsp_frame. shaped. Qed.

Lemma capture_http_shaped w camera : well_shaped (_capture_http_frame w camera).
Proof. unfold well_shaped, _capture_http_frame. shaped. Qed.

Lemma capture_local_shaped w camera : well_shaped (_capture_local_frame w camera).
Proof. unfold well_shaped, _capture_local_frame. shaped. Qed.

Lemma capture_file_shaped w camera : well_shaped (_capture_file_frame w camera).
Proof. unfold well_shaped, _capture_file_frame. shaped. Qed.

Lemma result3_keys success message f :
  dom (result3 success message f) = ({[ "success"; "message"; "frame" ]} : gset string).
Proof.
  unfold result3. rewrite !dom_insert_L, dom_singleton_L. set_solver.
Qed.

(** C9. Whatever the camera and whatever the outside answers or raises,
    [capture_frame] returns a dictionary with exactly the keys success,
    message and frame: a boolean, a string, and a frame or None (a frame
    exactly when success is true).  It never raises. *)
Theorem capture_frame_never_raises (w : world) (camera : Camera) :
  exists success message f,
    capture_frame w camera = Ret (result3 success message f) /\
    dom (result3 success message f)
      = ({[ "success"; "message"; "frame" ]} : gset string) /\
    result3 success message f !! "success" = Some (VBool success) /\
    result3 success message f !! "message" = Some (VStr message) /\
    result3 success message f !! "frame" = Some f /\
    ((f = VNone /\ success = false) \/ (exists fr, f = VFrame fr /\ success = true)).
Proof.
  assert (H : well_shaped (capture_frame w camera)).
  { unfold capture_frame.
    repeat match goal with
    | |- context [String.eqb (camera_type camera) ?x] =>
        destruct (String.eqb (camera_type camera) x)
    end.
    - destruct (capture_rtsp_shaped w camera) as (b & m & f & -> & H).
      now exists b, m, f.
    - destruct (capture_http_shaped w camera) as (b & m & f & -> & H).
      now exists b, m, f.
    - destruct (capture_local_shaped w camera) as (b & m & f & -> & H).
      now exists b, m, f.
    - destruct (capture_file_shaped w camera) as (b & m & f & -> & H).
      now exists b, m, f.
    - eexists _, _, _. split; [reflexivity|]. left. now split. }
  destruct H as (b & m & f & E & H). exists b, m, f.
  split; [exact E|]. split; [apply result3_keys|].
  repeat split; try reflexivity. exact H.
Qed.

(** A local camera with address "1" is device 1. *)
Example local_device_1 :
  device_index {| camera_type := "local"; url := "1"; username := None;
                  password := None; status := "offline" |} = 1%nat.
Proof. reflexivity. Qed.

End CameraManagerFacts.

(** ** The transcoder processes of utils/stream_proxy.py *)

Module StreamProxyFacts.
Import StreamProxy.

Lemma alive_app cs c :
  alive (cs ++ [c]) = (alive cs + (if live c then 1 else 0))%nat.
Proof.
  unfold alive. rewrite List.filter_app, length_app. simpl.
  now destruct (live c).
Qed.

Lemma alive_gone cs : forall pid c,
  cs !! pid = Some c ->
  (alive (<[pid := dead c]> cs) + (if live c then 1 else 0) = alive cs)%nat.
Proof.
  unfold alive. induction cs as [|x cs IH]; intros pid c Hc; [discriminate|].
  destruct pid as [|pid]; simpl in *.
  - injection Hc as ->. destruct (live c); simpl; lia.
  - specialize (IH pid c Hc). destruct (live x); simpl; lia.
Qed.

Lemma alive_none cs pid c :
  alive cs = 0%nat -> cs !! pid = Some c -> live c = false.
Proof.
  intros H0 Hc. pose proof (alive_gone cs pid c Hc) as H.
  destruct (live c); [lia | reflexivity].
Qed.

(** The invariant only looks at the handle, the children and the
    history. *)
Lemma handle_inv_ext a b :
  process a = process b -> children a = children b -> history a = history b ->
  handle_inv a -> handle_inv b.
Proof.
  unfold handle_inv, poll_is_None. intros <- <- <-. exact (fun H => H).
Qed.

Lemma handle_inv_init : handle_inv init.
Proof.
  unfold handle_inv, init, alive; simpl. repeat split; try lia; try discriminate.
  repeat constructor.
Qed.

(** Once the child behind the handle is gone, no child is live. *)
Lemma gone_inv self pid :
  handle_inv self -> process self = Some pid ->
  handle_inv (gone pid self) /\ alive (children (gone pid self)) = 0%nat /\
  process (gone pid self) = Some pid.
Proof.
  intros (Hle & Hone & Hlt & Hhist) Hp. unfold gone.
  destruct (lookup_lt_is_Some_2 _ _ (Hlt pid Hp)) as [c Hc]. rewrite Hc.
  pose proof (alive_gone _ _ _ Hc) as Hg.
  assert (H0 : alive (<[pid := dead c]> (children self)) = 0%nat).
  { destruct (live c) eqn:El; [lia|].
    destruct (Nat.eq_dec (alive (children self)) 1) as [E1|]; [|lia].
    destruct (Hone E1) as (pid' & Hp' & Hpoll).
    rewrite Hp in Hp'. injection Hp' as <-.
    unfold poll_is_None in Hpoll. rewrite Hc in Hpoll. congruence. }
  split; [|split; [exact H0 | exact Hp]].
  unfold handle_inv; simpl. rewrite H0. repeat split.
  - lia.
  - discriminate.
  - intros pid' Hp'. rewrite length_insert. now apply Hlt.
  - apply Forall_app. split; [exact Hhist|].
    constructor; [lia | constructor].
Qed.

Lemma stop_process_inv self pid :
  handle_inv self -> process self = Some pid ->
  handle_inv (stop_process pid self) /\
  alive (children (stop_process pid self)) = 0%nat /\
  process (stop_process pid self) = None.
Proof.
  intros Hinv Hp. unfold stop_process.
  set (self1 := {| process := process self; is_running := is_running self;
                   stop_event := true; children := children self;
                   history := history self |}).
  assert (Hinv1 : handle_inv self1) by exact Hinv.
  assert (Hp1 : process self1 = Some pid) by exact Hp.
  clearbody self1.
  assert (Hclean : forall s, handle_inv s -> alive (children s) = 0%nat ->
            handle_inv {| process := None; is_running := false;
                          stop_event := stop_event s; children := children s;
                          history := history s |}).
  { intros s (Hle & _ & _ & Hhist) H0. unfold handle_inv; simpl.
    repeat split; try assumption; [lia | discriminate]. }
  destruct (poll_is_None pid self1) eqn:Epoll.
  - unfold terminate_and_wait.
    destruct (children self1 !! pid) as [c|] eqn:Hc.
    2:{ unfold poll_is_None in Epoll. rewrite Hc in Epoll. discriminate. }
    destruct (ignores_sigterm c).
    + assert (Hsame : handle_inv (set_children (children self1) self1)).
      { destruct Hinv1 as (Hle & Hone & Hlt & Hhist).
        unfold handle_inv; simpl. repeat split; try assumption.
        apply Forall_app. split; [exact Hhist|].
        constructor; [exact Hle | constructor]. }
      destruct (gone_inv _ pid Hsame Hp1) as (Hk & H0 & _).
      split; [now apply Hclean|]. split; [exact H0 | reflexivity].
    + pose proof (gone_inv self1 pid Hinv1 Hp1) as Hg.
      unfold gone in Hg. rewrite Hc in Hg. destruct Hg as (Hk & H0 & _).
      split; [now apply Hclean|]. split; [exact H0 | reflexivity].
  - assert (H0 : alive (children self1) = 0%nat).
    { destruct Hinv1 as (Hle & Hone & _).
      destruct (Nat.eq_dec (alive (children self1)) 1) as [E1|]; [|lia].
      destruct (Hone E1) as (pid' & Hp' & Hpoll).
      rewrite Hp1 in Hp'. injection Hp' as <-. congruence. }
    split; [now apply Hclean|]. split; [exact H0 | reflexivity].
Qed.

Lemma stop_inv self :
  handle_inv self ->
  handle_inv (stop self) /\ alive (children (stop self)) = 0%nat /\
  process (stop self) = None.
Proof.
  intros Hinv. unfold stop.
  destruct (process self) as [pid|] eqn:Hp.
  - now apply stop_process_inv.
  - split; [exact Hinv|]. split; [|exact Hp].
    destruct Hinv as (Hle & Hone & _).
    destruct (Nat.eq_dec (alive (children self)) 1) as [E1|]; [|lia].
    destruct (Hone E1) as (pid & Hpid & _). congruence.
Qed.

Lemma popen_inv ignores self :
  handle_inv self -> alive (children self) = 0%nat ->
  handle_inv (popen ignores self) /\
  process (popen ignores self) = Some (length (children self)).
Proof.
  intros (Hle & Hone & Hlt & Hhist) H0. split; [|reflexivity].
  unfold handle_inv, popen, poll_is_None; simpl.
  rewrite alive_app, H0. simpl. repeat split.
  - lia.
  - intros _. eexists. split; [reflexivity|].
    now rewrite list_lookup_middle.
  - intros pid [= <-]. rewrite length_app. simpl. lia.
  - apply Forall_app. split; [exact Hhist|].
    constructor; [|constructor]. rewrite alive_app, H0. simpl. lia.
Qed.

Lemma start_inv l self : handle_inv self -> handle_inv (fst (start l self)).
Proof.
  intros Hinv. destruct (stop_inv self Hinv) as (H1 & H0 & Hnone).
  unfold start. destruct l as [| |exits_early ignores monitor_raises]; simpl.
  - now apply stop_inv.
  - now apply stop_inv.
  - destruct (popen_inv ignores (stop self) H1 H0) as (H2 & Hp2).
    set (self2 := popen ignores (stop self)) in *.
    set (pid := length (children (stop self))) in *.
    assert (H3 : handle_inv (if exits_early then gone pid self2 else self2)).
    { destruct exits_early; [|exact H2]. now apply gone_inv. }
    destruct (poll_is_None pid (if exits_early then gone pid self2 else self2));
      [|exact H3].
    assert (H4 : handle_inv
                   (set_running true (if exits_early then gone pid self2 else self2)))
      by exact H3.
    destruct monitor_raises; [now apply stop_inv | exact H4].
Qed.

Lemma child_exits_inv self : handle_inv self -> handle_inv (child_exits self).
Proof.
  intros Hinv. unfold child_exits.
  destruct (process self) as [pid|] eqn:Hp; [|exact Hinv].
  destruct (gone_inv self pid Hinv Hp) as (Hg & _).
  destruct (stop_event (gone pid self)); exact Hg.
Qed.

Lemma step_inv self c : handle_inv self -> handle_inv (step self c).
Proof.
  intros Hinv. destruct c as [l| |]; simpl.
  - now apply start_inv.
  - now apply stop_inv.
  - now apply child_exits_inv.
Qed.

Lemma run_from_inv calls : forall self,
  handle_inv self -> handle_inv (fold_left step calls self).
Proof.
  induction calls as [|c calls IH]; intros self Hinv; simpl; [exact Hinv|].
  apply IH. now apply step_inv.
Qed.

Lemma run_inv calls : handle_inv (run calls).
Proof. apply run_from_inv, handle_inv_init. Qed.

(** A dead child stays dead. *)
Lemma stays_dead_refl a : stays_dead a a.
Proof. intros pid c Hc. now exists c. Qed.

Lemma stays_dead_trans a b c :
  stays_dead a b -> stays_dead b c -> stays_dead a c.
Proof.
  intros Hab Hbc pid x Hx.
  destruct (Hab pid x Hx) as (y & Hy & Hly).
  destruct (Hbc pid y Hy) as (z & Hz & Hlz).
  exists z. split; [exact Hz | auto].
Qed.

Lemma stays_dead_ext a b :
  children a = children b -> stays_dead a b.
Proof. intros E pid c Hc. exists c. now rewrite <- E. Qed.

Lemma stays_dead_gone pid self : stays_dead self (gone pid self).
Proof.
  unfold gone. destruct (children self !! pid) as [c|] eqn:Hc;
    [|apply stays_dead_refl].
  intros pid' c' Hc'. simpl.
  destruct (Nat.eq_dec pid pid') as [<- | Hne].
  - exists (dead c). split; [|reflexivity].
    apply list_lookup_insert_eq. now apply lookup_lt_Some in Hc.
  - exists c'. split; [|tauto]. now rewrite list_lookup_insert_ne.
Qed.

Lemma stays_dead_popen ignores self : stays_dead self (popen ignores self).
Proof.
  intros pid c Hc. exists c. split; [|tauto]. simpl.
  now apply lookup_app_l_Some.
Qed.

Lemma stays_dead_stop self : stays_dead self (stop self).
Proof.
  unfold stop. destruct (process self) as [pid|]; [|apply stays_dead_refl].
  unfold stop_process.
  set (self1 := {| process := process self; is_running := is_running self;
                   stop_event := true; children := children self;
                   history := history self |}).
  apply (stays_dead_trans _ self1); [now apply stays_dead_ext|].
  clearbody self1.
  destruct (poll_is_None pid self1).
  - unfold terminate_and_wait.
    destruct (children self1 !! pid) as [c|] eqn:Hc.
    + destruct (ignores_sigterm c).
      * apply (stays_dead_trans _ (kill pid (set_children (children self1) self1)));
          [|now apply stays_dead_ext].
        apply (stays_dead_trans _ (set_children (children self1) self1));
          [now apply stays_dead_ext | apply stays_dead_gone].
      * apply (stays_dead_trans _ (gone pid self1)); [apply stays_dead_gone|].
        apply stays_dead_ext. unfold gone. now rewrite Hc.
    + now apply stays_dead_ext.
  - now apply stays_dead_ext.
Qed.

Lemma stays_dead_launch l self : stays_dead (stop self) (fst (start l self)).
Proof.
  unfold start. destruct l as [| |exits_early ignores monitor_raises]; simpl;
    try apply stays_dead_stop.
  set (self2 := popen ignores (stop self)).
  set (pid := length (children (stop self))).
  apply (stays_dead_trans _ self2); [apply stays_dead_popen|].
  assert (H3 : stays_dead self2 (if exits_early then gone pid self2 else self2)).
  { destruct exits_early; [apply stays_dead_gone | apply stays_dead_refl]. }
  destruct (poll_is_None pid (if exits_early then gone pid self2 else self2));
    [|exact H3].
  apply (stays_dead_trans _ _ _ H3).
  destruct monitor_raises; [|now apply stays_dead_ext].
  apply (stays_dead_trans _ (set_running true
                               (if exits_early then gone pid self2 else self2)));
    [now apply stays_dead_ext | apply stays_dead_stop].
Qed.

(** C10. Whatever calls came before and whatever the two launches do:
    when [start] is called twice in a row, no table of children ever
    holds more than one live child; the second [start] begins with
    [stop], after which no child is live, and the child of the first
    [start] is not running when the second one returns. *)
Theorem second_start_stops_first (calls : list call) (l1 l2 : launch) :
  let first := fst (start l1 (run calls)) in
  let second := fst (start l2 first) in
  second = run (calls ++ [Start l1; Start l2]) /\
  Forall (fun cs => (alive cs <= 1)%nat) (history second) /\
  alive (children (stop first)) = 0%nat /\
  match process first with
  | Some pid => poll_is_None pid second = false
  | None => True
  end.
Proof.
  intros first second.
  assert (Hfirst : handle_inv first) by apply start_inv, run_inv.
  assert (Hsecond : handle_inv second) by now apply start_inv.
  split; [|split; [|split]].
  - unfold second, first, run. now rewrite fold_left_app.
  - apply Hsecond.
  - now apply stop_inv.
  - destruct (process first) as [pid|] eqn:Hp; [|exact I].
    destruct (stop_inv first Hfirst) as (_ & H0 & _).
    destruct Hfirst as (_ & _ & Hlt & _).
    destruct (lookup_lt_is_Some_2 _ _ (Hlt pid Hp)) as [c Hc].
    destruct (stays_dead_stop first pid c Hc) as (c' & Hc' & _).
    assert (Hdead : live c' = false).
    { now apply (alive_none (children (stop first)) pid c'). }
    destruct (stays_dead_launch l2 first pid c' Hc') as (c'' & Hc'' & Hl).
    unfold poll_is_None. fold second in Hc''. rewrite Hc''. now apply Hl.
Qed.

End StreamProxyFacts.

(** * Further properties *)

(** ** What a run of utils/video_processor.py keeps *)

Module VideoProcessorRunFacts.
Import Py VideoProcessor VideoProcessorRun.
Import VideoProcessorFacts.
Local Open Scope Q_scope.

Lemma scan_result_track thr f results st0 acc r :
  predict_video_frame f = Ret results ->
  In r results ->
  frame_track thr f st0 acc ->
  frame_track thr f st0 (scan_result thr acc r).
Proof.
  intros Hf Hr. destruct acc as [[has conf] st].
  intros (app & Hc & Hfr & Hn & Ha & Hk & Ho & Hhas & H0 & Hub & Hin & Hcl).
  destruct r as [[|c cs]|]; simpl;
    try (exists app; repeat split; solve [assumption | apply Hhas]).
  set (m := max_list c cs).
  destruct (ge m thr) eqn:E;
    [|exists app; repeat split; solve [assumption | apply Hhas]].
  assert (Hm : In m (cleared_in_frame thr f)).
  { unfold cleared_in_frame. rewrite Hf. apply List.filter_In. split; [|exact E].
    apply List.in_concat. exists (c :: cs). split; [|apply max_list_in].
    apply List.in_map_iff. now exists (Some (c :: cs)). }
  exists (app ++ [m]). simpl. rewrite Hc, Hfr, Hn, length_app. simpl.
  repeat split; try assumption.
  - now rewrite app_assoc.
  - rewrite <- app_assoc. f_equal. rewrite Hk.
    now rewrite Nat.add_1_r, replicate_S_end.
  - lia.
  - intros _ Heq. now apply app_eq_nil in Heq as [_ ?].
  - destruct (max2_cases conf m) as [[-> _] | [-> ?]]; [exact H0 | lra].
  - intros x Hx. apply List.in_app_or in Hx as [Hx | [<- | []]].
    + specialize (Hub x Hx).
      destruct (max2_cases conf m) as [[-> _] | [-> ?]]; lra.
    + destruct (max2_cases conf m) as [[-> ?] | [-> _]]; lra.
  - destruct (max2_cases conf m) as [[-> _] | [-> _]].
    + destruct Hin as [Hin | Hin]; [now left|].
      right. apply List.in_or_app. now left.
    + right. apply List.in_or_app. right. now left.
  - apply Forall_app. split; [exact Hcl|]. now repeat constructor.
Qed.

Lemma scan_fold_track thr f results st0 rs : forall acc,
  predict_video_frame f = Ret results ->
  (forall r, In r rs -> In r results) ->
  frame_track thr f st0 acc ->
  frame_track thr f st0 (fold_left (scan_result thr) rs acc).
Proof.
  induction rs as [|r rs IH]; intros acc Hf Hsub Hinv; simpl; [exact Hinv|].
  apply IH; [exact Hf | intros r' Hr'; apply Hsub; now right |].
  apply (scan_result_track thr f results); [exact Hf | apply Hsub; now left | exact Hinv].
Qed.

Lemma scan_results_track thr f results st :
  predict_video_frame f = Ret results ->
  frame_track thr f st (scan_results thr results st).
Proof.
  intros Hf. unfold scan_results.
  apply (scan_fold_track thr f results st results); [exact Hf | tauto |].
  exists []. simpl. rewrite !app_nil_r, Nat.add_0_r.
  repeat split; try reflexivity; try congruence; try tauto.
  all: try apply Qle_refl; try (now left); constructor.
Qed.

Lemma severity_inv_update has conf a :
  0 <= confidence a -> severity_inv a -> severity_inv (update_alert has conf a).
Proof.
  intros H0 Hs. unfold update_alert.
  destruct (has && gt conf (confidence a)) eqn:E; [|exact Hs].
  apply andb_true_iff in E as [_ E]. apply gt_true in E.
  right. simpl. split; [lra | reflexivity].
Qed.

Lemma Forall2_detections thr stride source k fs cs app :
  Forall2 (detection_of thr stride source) fs cs ->
  Forall (detection_of thr stride source k) app ->
  Forall2 (detection_of thr stride source)
    (fs ++ replicate (length app) k) (cs ++ app).
Proof.
  intros H2 Happ. apply Forall2_app; [exact H2|].
  induction Happ as [|c app Hc _ IH]; simpl; constructor; assumption.
Qed.

(** Scoring frame [f], the frame at position [frame_count], keeps the
    tracking invariant. *)
Lemma score_frame_tracked thr stride source f st :
  (1 <= frame_count st)%Z ->
  (frame_count st mod stride = 0)%Z ->
  source !! Z.to_nat (frame_count st - 1) = Some f ->
  tracked thr stride source st ->
  tracked thr stride source (score_frame thr f st).
Proof.
  intros H1 Hmod Hsrc (Hn & H2 & H0 & Hub & Hin & Hsev).
  unfold score_frame.
  destruct (predict_video_frame f) as [results|e] eqn:Hf.
  2:{ repeat split; assumption. }
  pose proof (scan_results_track thr f results st Hf) as Ht.
  destruct (scan_results thr results st) as [[has conf] st1].
  destruct Ht as (app & Hc & Hfr & Hcnt & Ha & Hk & Ho & Hhas & Hc0 & Hcub & Hcin & Hcl).
  unfold tracked. simpl. rewrite Hc, Hfr, Hcnt, Ha, length_app.
  assert (Hnew : Forall (detection_of thr stride source (frame_count st)) app).
  { eapply Forall_impl; [exact Hcl|]. intros c Hcf. simpl.
    split; [exact H1|]. split; [exact Hmod|]. now exists f. }
  split; [lia|]. split; [now apply Forall2_detections|].
  unfold update_alert.
  destruct (has && gt conf (confidence (alert st))) eqn:E; simpl.
  - apply andb_true_iff in E as [Ehas E]. apply gt_true in E.
    repeat split.
    + lra.
    + intros c Hcin'. apply List.in_app_or in Hcin' as [Hc' | Hc'].
      * specialize (Hub c Hc'). lra.
      * now apply Hcub.
    + destruct Hcin as [-> | Hcin]; [lra|].
      right. apply List.in_or_app. now right.
    + right. simpl. split; [lra | reflexivity].
  - repeat split; try assumption.
    + intros c Hcin'. apply List.in_app_or in Hcin' as [Hc' | Hc'];
        [now apply Hub|].
      apply andb_false_iff in E as [E | E].
      * assert (app = []) as ->.
        { destruct app; [reflexivity|]. exfalso.
          assert (has = true) by (apply Hhas; discriminate). congruence. }
        destruct Hc'.
      * apply gt_false in E. specialize (Hcub c Hc'). lra.
    + destruct Hin as [Hin | Hin]; [now left|].
      right. apply List.in_or_app. now left.
Qed.

Lemma tracked_start thr stride source d : tracked thr stride source (start_run d).
Proof.
  unfold tracked; simpl. repeat split; try tauto.
  all: first [ apply Qle_refl | solve [constructor] | solve [now left]
             | solve [left; now split] ].
Qed.

(** Both loops, frame by frame. *)
Lemma video_loop_cons thr f rest st :
  video_loop thr (f :: rest) st = video_loop thr rest (process_frame thr 5 f st).
Proof. reflexivity. Qed.

Lemma stream_loop_cons thr rate duration limit f t rest st :
  stream_loop thr rate duration limit ((f, t) :: rest) st
  = if (rate =? 0)%Z then Raise "ZeroDivisionError"
    else if ge t duration
            || (limit <=? frame_count (process_frame thr rate f st))%Z
         then Ret (process_frame thr rate f st)
         else stream_loop thr rate duration limit rest (process_frame thr rate f st).
Proof. reflexivity. Qed.

Lemma video_loop_ind (I : nat -> run -> Prop) thr source :
  (forall i f st, source !! i = Some f -> I i st ->
                  I (S i) (process_frame thr 5 f st)) ->
  forall rest done st,
    source = done ++ rest -> I (length done) st ->
    I (length source) (video_loop thr rest st).
Proof.
  intros Hstep. induction rest as [|f rest IH]; intros done st Heq Hinv.
  - simpl. now rewrite Heq, app_nil_r.
  - rewrite video_loop_cons. apply (IH (done ++ [f])).
    + now rewrite Heq, <- app_assoc.
    + rewrite length_app, Nat.add_1_r. apply Hstep; [|exact Hinv].
      rewrite Heq. now apply list_lookup_middle.
Qed.

Lemma stream_loop_ind (I : nat -> run -> Prop) thr rate duration limit
    (source : list (frame * Q)) :
  rate <> 0%Z ->
  (forall i f t st, source !! i = Some (f, t) -> I i st ->
                    I (S i) (process_frame thr rate f st)) ->
  forall rest done st,
    source = done ++ rest -> I (length done) st ->
    exists st' m,
      stream_loop thr rate duration limit rest st = Ret st' /\ I m st' /\
      (length done <= m <= length source)%nat.
Proof.
  intros Hrate Hstep.
  induction rest as [|[f t] rest IH]; intros done st Heq Hinv.
  - exists st, (length done). rewrite Heq, app_nil_r.
    repeat split; [exact Hinv | lia | lia].
  - apply Z.eqb_neq in Hrate as Hr. rewrite stream_loop_cons, Hr.
    assert (Hnext : I (S (length done)) (process_frame thr rate f st)).
    { apply (Hstep _ f t); [|exact Hinv]. rewrite Heq. now apply list_lookup_middle. }
    destruct (ge t duration
              || (limit <=? frame_count (process_frame thr rate f st))%Z).
    + exists (process_frame thr rate f st), (S (length done)).
      split; [reflexivity|]. split; [exact Hnext|].
      rewrite Heq, length_app. simpl. lia.
    + destruct (IH (done ++ [(f, t)]) (process_frame thr rate f st))
        as (st' & m & Hrun & Hm & Hlen).
      { now rewrite Heq, <- app_assoc. }
      { now rewrite length_app, Nat.add_1_r. }
      exists st', m. split; [exact Hrun|]. split; [exact Hm|].
      rewrite length_app in Hlen. simpl in Hlen. lia.
Qed.

Lemma process_frame_count thr stride f st :
  frame_count (process_frame thr stride f st) = (frame_count st + 1)%Z.
Proof.
  unfold process_frame. destruct (_ =? _)%Z; [|reflexivity].
  now rewrite score_frame_count.
Qed.

(** What scoring a frame adds to the output video. *)
Lemma score_frame_out thr f st :
  exists w, out (score_frame thr f st) = out st ++ [w] /\
            number w = frame_count st.
Proof.
  unfold score_frame. destruct (predict_video_frame f) as [results|e] eqn:Hf.
  - pose proof (scan_results_track thr f results st Hf) as Ht.
    destruct (scan_results thr results st) as [[has conf] st1].
    destruct Ht as (app & _ & _ & _ & _ & _ & Ho & _).
    exists (Annotated (frame_count st)). simpl. now rewrite Ho.
  - now exists (Original (frame_count st)).
Qed.

Lemma seqZ_snoc n : (0 <= n)%Z -> seqZ 1 (n + 1) = seqZ 1 n ++ [(n + 1)%Z].
Proof.
  intros Hn. rewrite seqZ_app by lia. f_equal.
  rewrite seqZ_cons by lia. rewrite seqZ_nil by lia. f_equal. lia.
Qed.

Lemma process_frame_output thr stride f st :
  output_inv stride st -> output_inv stride (process_frame thr stride f st).
Proof.
  intros (H0 & Hnum & Hann). unfold output_inv.
  rewrite process_frame_count. split; [lia|].
  rewrite seqZ_snoc by exact H0. unfold process_frame.
  destruct ((frame_count (next_frame st) mod stride =? 0)%Z) eqn:E.
  - destruct (score_frame_out thr f (next_frame st)) as (w & -> & Hw).
    change (out (next_frame st)) with (out st).
    change (frame_count (next_frame st)) with (frame_count st + 1)%Z in *.
    rewrite map_app, Hnum. simpl. rewrite Hw. split; [reflexivity|].
    apply Forall_app. split; [exact Hann|]. constructor; [|constructor].
    destruct w as [k|k]; [|exact I]. simpl in Hw. subst k. now apply Z.eqb_eq.
  - change (out (write (Original (frame_count (next_frame st))) (next_frame st)))
      with (out st ++ [Original (frame_count st + 1)]).
    rewrite map_app, Hnum. simpl. split; [reflexivity|].
    apply Forall_app. split; [exact Hann|]. now repeat constructor.
Qed.

Lemma process_frame_after thr stride source i f st :
  source !! i = Some f ->
  after_frames thr stride source i st ->
  after_frames thr stride source (S i) (process_frame thr stride f st).
Proof.
  intros Hsrc (Hcount & Htr & Hout). split; [|split].
  - rewrite process_frame_count, Hcount. lia.
  - unfold process_frame.
    destruct ((frame_count (next_frame st) mod stride =? 0)%Z) eqn:E; [|exact Htr].
    apply score_frame_tracked; simpl.
    + lia.
    + now apply Z.eqb_eq.
    + rewrite Hcount. now replace (Z.to_nat (Z.of_nat i + 1 - 1)) with i by lia.
    + exact Htr.
  - now apply process_frame_output.
Qed.

Lemma after_frames_start thr stride source d :
  after_frames thr stride source 0 (start_run d).
Proof.
  split; [reflexivity|]. split; [apply tracked_start|].
  unfold output_inv. simpl. repeat split; [lia | constructor].
Qed.

Lemma video_loop_after thr frames d :
  after_frames thr 5 frames (length frames) (video_loop thr frames (start_run d)).
Proof.
  apply (video_loop_ind (after_frames thr 5 frames) thr frames) with (done := []).
  - intros i f st. apply process_frame_after.
  - reflexivity.
  - apply after_frames_start.
Qed.

Lemma stream_loop_after thr rate duration limit live d :
  rate <> 0%Z ->
  exists st' m,
    stream_loop thr rate duration limit live (start_run d) = Ret st' /\
    after_frames thr rate (map fst live) m st' /\ (m <= length live)%nat.
Proof.
  intros Hrate.
  destruct (stream_loop_ind (after_frames thr rate (map fst live)) thr rate
              duration limit live Hrate) with (done := @nil (frame * Q))
              (rest := live) (st := start_run d)
    as (st' & m & Hrun & Hm & Hlen).
  - intros i f t st Hi. apply process_frame_after.
    rewrite list_lookup_fmap, Hi. reflexivity.
  - reflexivity.
  - apply after_frames_start.
  - exists st', m. split; [exact Hrun|]. split; [exact Hm|]. simpl in Hlen. lia.
Qed.

Lemma process_video_unfold self key d thr frames :
  ModelManager.detectors self !! key = Some d ->
  process_video self (Some frames) key thr
  = Ret (finish (ModelManager.name d) (NoneInVideo (ModelManager.name d))
           (video_loop thr frames
              (start_run (AutomaticDetection (ModelManager.name d))))).
Proof.
  intros Hd. unfold process_video, ModelManager.get_detector, mbind, res_bind.
  simpl. now rewrite Hd.
Qed.

Lemma process_camera_stream_unfold self key d camera duration limit live st :
  ModelManager.detectors self !! key = Some d ->
  stream_loop (ModelManager.conf_threshold (ModelManager.get_detector_config self key))
    (frame_rate camera) duration limit live
    (start_run (RealTimeDetection (ModelManager.name d))) = Ret st ->
  snd (process_camera_stream self (Some camera) key (Some live) duration limit)
  = Ret (finish (ModelManager.name d) (NoneInStream (ModelManager.name d)) st).
Proof.
  intros Hd Hrun.
  unfold process_camera_stream, ModelManager.get_detector, mbind, res_bind. simpl.
  rewrite Hd. simpl. now rewrite Hrun.
Qed.

Lemma video_loop_app thr before : forall after st,
  video_loop thr (before ++ after) st = video_loop thr after (video_loop thr before st).
Proof.
  induction before as [|f before IH]; intros after st; [reflexivity|].
  simpl app. rewrite !video_loop_cons. apply IH.
Qed.

Lemma process_frame_confidence thr stride f st :
  confidence (alert st) <= confidence (alert (process_frame thr stride f st)).
Proof.
  unfold process_frame. destruct (_ =? _)%Z; [|apply Qle_refl].
  destruct (score_frame_alert thr f (next_frame st)) as [-> | [Hlt _]].
  - apply Qle_refl.
  - now apply Qlt_le_weak.
Qed.

Lemma video_loop_confidence thr frames : forall st,
  confidence (alert st) <= confidence (alert (video_loop thr frames st)).
Proof.
  induction frames as [|f frames IH]; intros st; [apply Qle_refl|].
  rewrite video_loop_cons.
  eapply Qle_trans; [apply (process_frame_confidence thr 5 f) | apply IH].
Qed.

(** X1. The alert's confidence never goes down while frames are
    processed: after any further frames of a file it is at least what it
    was, and a live run ends with at least the confidence it began
    with. *)
Theorem confidence_never_decreases
    (thr duration : Q) (rate limit : Z) (before after : list frame)
    (live : list (frame * Q)) (st : run) :
  rate <> 0%Z ->
  confidence (alert (video_loop thr before st))
    <= confidence (alert (video_loop thr (before ++ after) st)) /\
  exists st',
    stream_loop thr rate duration limit live st = Ret st' /\
    confidence (alert st) <= confidence (alert st').
Proof.
  intros Hrate. split.
  - rewrite video_loop_app. apply video_loop_confidence.
  - destruct (stream_loop_ind
                (fun _ s => confidence (alert st) <= confidence (alert s))
                thr rate duration limit live Hrate) with (done := @nil (frame * Q))
                (rest := live) (st := st) as (st' & m & Hrun & Hm & _).
    + intros i f t s _ Hs.
      eapply Qle_trans; [exact Hs | apply process_frame_confidence].
    + reflexivity.
    + apply Qle_refl.
    + now exists st'.
Qed.

Lemma confidence_never_decreases_witness :
  (1 <> 0)%Z /\
  confidence (alert (video_loop (1 # 4) (silent 4 ++ [hit (6 # 10)])
                       (start_run (AutomaticDetection "Fall Detection"))))
    <= confidence (alert (video_loop (1 # 4)
                            ((silent 4 ++ [hit (6 # 10)]) ++ silent 4 ++ [hit (3 # 10)])
                            (start_run (AutomaticDetection "Fall Detection")))) /\
  exists st',
    stream_loop (1 # 4) 1 60 300 [(hit (6 # 10), 1); (hit (3 # 10), 2)]
      (start_run (AutomaticDetection "Fall Detection")) = Ret st' /\
    confidence (alert (start_run (AutomaticDetection "Fall Detection")))
      <= confidence (alert st').
Proof.
  assert (H : (1 <> 0)%Z) by lia.
  split; [exact H|].
  exact (confidence_never_decreases (1 # 4) 60 1 300 (silent 4 ++ [hit (6 # 10)])
           (silent 4 ++ [hit (3 # 10)]) [(hit (6 # 10), 1); (hit (3 # 10), 2)]
           (start_run (AutomaticDetection "Fall Detection")) H).
Defined.

(** The state in which each kind of run ends. *)
Lemma video_run_state self key d thr frames :
  ModelManager.detectors self !! key = Some d ->
  exists st,
    process_video self (Some frames) key thr
      = Ret (finish (ModelManager.name d) (NoneInVideo (ModelManager.name d)) st) /\
    run_inv (cleared thr 5 frames) st /\
    after_frames thr 5 frames (length frames) st.
Proof.
  intros Hd. eexists. split; [now apply process_video_unfold|]. split.
  - exact (video_loop_inv thr frames [] _ (run_inv_start _)).
  - apply video_loop_after.
Qed.

Lemma stream_run_state self key d camera duration limit live :
  ModelManager.detectors self !! key = Some d ->
  frame_rate camera <> 0%Z ->
  let thr := ModelManager.conf_threshold (ModelManager.get_detector_config self key) in
  exists st m,
    snd (process_camera_stream self (Some camera) key (Some live) duration limit)
      = Ret (finish (ModelManager.name d) (NoneInStream (ModelManager.name d)) st) /\
    run_inv (cleared thr (frame_rate camera) (frames_read duration limit 0 live)) st /\
    after_frames thr (frame_rate camera) (map fst live) m st /\
    (m <= length live)%nat.
Proof.
  intros Hd Hrate thr.
  destruct (stream_loop_inv thr (frame_rate camera) duration limit live [] _ Hrate
              (run_inv_start (RealTimeDetection (ModelManager.name d))))
    as (st & Hrun & Hinv).
  destruct (stream_loop_after thr (frame_rate camera) duration limit live
              (RealTimeDetection (ModelManager.name d)) Hrate)
    as (st' & m & Hrun' & Hafter & Hm).
  assert (st' = st) as -> by congruence.
  exists st, m. split; [now apply process_camera_stream_unfold|].
  split; [exact Hinv|]. split; [exact Hafter | exact Hm].
Qed.

Lemma finish_severity name nothing st :
  severity (finish name nothing st) = severity (alert st).
Proof. unfold finish. now destruct (0 <? detection_count st)%nat. Qed.

Lemma finish_severity_inv name nothing st :
  severity_inv (alert st) -> severity_inv (finish name nothing st).
Proof.
  unfold severity_inv. now rewrite finish_severity, finish_confidence.
Qed.

(** X2. A run ends with the alert's severity matching its confidence:
    the severity of the thresholds 0.9/0.7/0.5 once the confidence is
    above 0.0, and the placeholder 'medium' while it is still the initial
    0.0 (as in every run that detects nothing). *)
Theorem final_severity_matches_confidence
    (self : ModelManager.ModelManager) (key : string) (d : ModelManager.Detector)
    (thr duration : Q) (frame_limit : Z) (camera : Camera)
    (frames : list frame) (live : list (frame * Q)) :
  ModelManager.detectors self !! key = Some d ->
  frame_rate camera <> 0%Z ->
  (exists a,
      process_video self (Some frames) key thr = Ret a /\
      ((confidence a = 0 /\ severity a = "medium") \/
       (0 < confidence a /\ severity a = severity_for (confidence a)))) /\
  (exists a,
      snd (process_camera_stream self (Some camera) key (Some live) duration
             frame_limit) = Ret a /\
      ((confidence a = 0 /\ severity a = "medium") \/
       (0 < confidence a /\ severity a = severity_for (confidence a)))).
Proof.
  intros Hd Hrate. split.
  - destruct (video_run_state self key d thr frames Hd)
      as (st & Hrun & _ & _ & (_ & _ & _ & _ & _ & Hsev) & _).
    eexists. split; [exact Hrun|]. now apply finish_severity_inv.
  - destruct (stream_run_state self key d camera duration frame_limit live Hd Hrate)
      as (st & m & Hrun & _ & (_ & (_ & _ & _ & _ & _ & Hsev) & _) & _).
    eexists. split; [exact Hrun|]. now apply finish_severity_inv.
Qed.

Lemma final_severity_matches_confidence_witness :
  ModelManager.detectors sample_manager !! "fall"
    = Some {| ModelManager.name := "Fall Detection"; ModelManager.model_path := "fall" |} /\
  frame_rate every_frame <> 0%Z /\
  (exists a,
      process_video sample_manager (Some (silent 4 ++ [hit (8 # 10)])) "fall" (1 # 4)
        = Ret a /\
      ((confidence a = 0 /\ severity a = "medium") \/
       (0 < confidence a /\ severity a = severity_for (confidence a)))) /\
  (exists a,
      snd (process_camera_stream sample_manager (Some every_frame) "fall"
             (Some [(hit (3 # 10), 1)]) 60 300) = Ret a /\
      ((confidence a = 0 /\ severity a = "medium") \/
       (0 < confidence a /\ severity a = severity_for (confidence a)))).
Proof.
  assert (H0 : ModelManager.detectors sample_manager !! "fall"
               = Some {| ModelManager.name := "Fall Detection";
                         ModelManager.model_path := "fall" |}) by reflexivity.
  assert (H1 : frame_rate every_frame <> 0%Z) by (simpl; lia).
  split; [exact H0|]. split; [exact H1|].
  exact (final_severity_matches_confidence sample_manager "fall" _ (1 # 4) 60 300
           every_frame (silent 4 ++ [hit (8 # 10)]) [(hit (3 # 10), 1)] H0 H1).
Defined.

Lemma Forall2_right_In {A B} (P : A -> B -> Prop) l k y :
  Forall2 P l k -> In y k -> exists x, In x l /\ P x y.
Proof.
  induction 1 as [|x y' l k Hxy _ IH]; intros Hy; [destruct Hy|].
  destruct Hy as [<- | Hy].
  - exists x. split; [now left | exact Hxy].
  - destruct (IH Hy) as (x' & Hx' & HP). exists x'. split; [now right | exact HP].
Qed.

Lemma cleared_in_frame_ge thr f c : In c (cleared_in_frame thr f) -> thr <= c.
Proof.
  unfold cleared_in_frame. destruct (predict_video_frame f); [|intros []].
  intros Hc. apply List.filter_In in Hc as [_ Hc]. now apply ge_true.
Qed.

(** The statistics a run with detections ends with. *)
Lemma finish_statistics thr stride source name nothing st L :
  run_inv L st -> tracked thr stride source st -> L <> [] ->
  exists confs,
    description (finish name nothing st) = Detected name (length confs) confs /\
    confs <> [] /\
    (forall c, In c confs -> thr <= c /\ c <= confidence (finish name nothing st)).
Proof.
  intros (_ & _ & _ & Hcnt & _) (Hn & H2 & _ & Hub & _) HL.
  exists (detection_confidences st). rewrite finish_confidence. unfold finish.
  destruct (detection_count st) as [|n] eqn:E.
  { destruct HL. now apply Hcnt. }
  simpl. rewrite Hn. split; [reflexivity|]. split.
  - intros Hnil. rewrite Hnil in Hn. discriminate.
  - intros c Hc. split; [|now apply Hub].
    destruct (Forall2_right_In _ _ _ c H2 Hc) as (k & _ & _ & _ & f & _ & Hcf).
    now apply cleared_in_frame_ge in Hcf.
Qed.

(** X3. When a run detected something, its description counts exactly
    the confidences it averages (so the average never divides by zero),
    and each of them is at least the threshold and at most the alert's
    confidence. *)
Theorem detection_statistics_are_consistent
    (self : ModelManager.ModelManager) (key : string) (d : ModelManager.Detector)
    (thr duration : Q) (frame_limit : Z) (camera : Camera)
    (frames : list frame) (live : list (frame * Q)) :
  ModelManager.detectors self !! key = Some d ->
  frame_rate camera <> 0%Z ->
  (exists a,
      process_video self (Some frames) key thr = Ret a /\
      (cleared thr 5 frames <> [] ->
       exists confs,
         description a = Detected (ModelManager.name d) (length confs) confs /\
         confs <> [] /\
         (forall c, In c confs -> thr <= c /\ c <= confidence a))) /\
  (exists a,
      snd (process_camera_stream self (Some camera) key (Some live) duration
             frame_limit) = Ret a /\
      (cleared (ModelManager.conf_threshold
                  (ModelManager.get_detector_config self key))
         (frame_rate camera) (frames_read duration frame_limit 0 live) <> [] ->
       exists confs,
         description a = Detected (ModelManager.name d) (length confs) confs /\
         confs <> [] /\
         (forall c, In c confs ->
            ModelManager.conf_threshold (ModelManager.get_detector_config self key)
              <= c /\ c <= confidence a))).
Proof.
  intros Hd Hrate. split.
  - destruct (video_run_state self key d thr frames Hd)
      as (st & Hrun & Hinv & _ & Htr & _).
    eexists. split; [exact Hrun|]. intros HL.
    exact (finish_statistics thr 5 frames _ _ st _ Hinv Htr HL).
  - destruct (stream_run_state self key d camera duration frame_limit live Hd Hrate)
      as (st & m & Hrun & Hinv & (_ & Htr & _) & _).
    eexists. split; [exact Hrun|]. intros HL.
    exact (finish_statistics _ _ _ _ _ st _ Hinv Htr HL).
Qed.

Lemma detection_statistics_are_consistent_witness :
  ModelManager.detectors sample_manager !! "fall"
    = Some {| ModelManager.name := "Fall Detection"; ModelManager.model_path := "fall" |} /\
  frame_rate every_frame <> 0%Z /\
  (exists a,
      process_video sample_manager (Some (silent 4 ++ [hit (8 # 10)])) "fall" (1 # 4)
        = Ret a /\
      (cleared (1 # 4) 5 (silent 4 ++ [hit (8 # 10)]) <> [] ->
       exists confs,
         description a = Detected "Fall Detection" (length confs) confs /\
         confs <> [] /\
         (forall c, In c confs -> 1 # 4 <= c /\ c <= confidence a))) /\
  (exists a,
      snd (process_camera_stream sample_manager (Some every_frame) "fall"
             (Some [(hit (6 # 10), 1)]) 60 300) = Ret a /\
      (cleared (ModelManager.conf_threshold
                  (ModelManager.get_detector_config sample_manager "fall"))
         (frame_rate every_frame) (frames_read 60 300 0 [(hit (6 # 10), 1)]) <> [] ->
       exists confs,
         description a = Detected "Fall Detection" (length confs) confs /\
         confs <> [] /\
         (forall c, In c confs ->
            ModelManager.conf_threshold
              (ModelManager.get_detector_config sample_manager "fall")
              <= c /\ c <= confidence a))).
Proof.
  assert (H0 : ModelManager.detectors sample_manager !! "fall"
               = Some {| ModelManager.name := "Fall Detection";
                         ModelManager.model_path := "fall" |}) by reflexivity.
  assert (H1 : frame_rate every_frame <> 0%Z) by (simpl; lia).
  split; [exact H0|]. split; [exact H1|].
  exact (detection_statistics_are_consistent sample_manager "fall" _ (1 # 4) 60 300
           every_frame (silent 4 ++ [hit (8 # 10)]) [(hit (6 # 10), 1)] H0 H1).
Defined.

Lemma index_found l : forall x,
  In x l -> exists i y, index x l = Some i /\ l !! i = Some y /\ y == x.
Proof.
  induction l as [|y l IH]; intros x Hx; [destruct Hx|]. simpl.
  destruct (Qeq_bool y x) eqn:E.
  - exists 0%nat, y. repeat split. now apply Qeq_bool_iff.
  - destruct Hx as [-> | Hx].
    + assert (Qeq_bool x x = true) by (apply Qeq_bool_iff; reflexivity). congruence.
    + destruct (IH x Hx) as (i & z & Hi & Hz & Hzx).
      exists (S i), z. rewrite Hi. repeat split; assumption.
Qed.

(** The frame number handed to [_create_thumbnail] is that of a recorded
    detection with the greatest recorded confidence. *)
Lemma best_frame_found thr stride source st :
  tracked thr stride source st ->
  detection_confidences st <> [] ->
  exists k c,
    best_frame st = Some k /\ detection_of thr stride source k c /\
    In c (detection_confidences st) /\
    (forall c', In c' (detection_confidences st) -> c' <= c).
Proof.
  intros (_ & H2 & _) Hne. unfold best_frame.
  destruct (detection_confidences st) as [|c0 cs] eqn:Ec; [now destruct Hne|].
  destruct (detection_frames st) as [|k0 ks] eqn:Ek; [inversion H2|].
  destruct (index_found (c0 :: cs) (max_list c0 cs) (max_list_in c0 cs))
    as (i & y & Hi & Hy & Hmax).
  assert (HyIn : In y (c0 :: cs)).
  { apply (proj1 (list_elem_of_In _ _)). eapply list_elem_of_lookup_2. exact Hy. }
  rewrite Hi.
  destruct (Forall2_lookup_r _ _ _ _ _ H2 Hy) as (k & Hk & Hdet).
  exists k, y. split; [exact Hk|]. split; [exact Hdet|]. split.
  - exact HyIn.
  - intros c' Hc'. rewrite Hmax. now apply max_list_upper.
Qed.

Lemma finish_thumbnail name nothing st :
  (0 < detection_count st)%nat ->
  thumbnail_frame (finish name nothing st) = best_frame st.
Proof.
  intros Hpos. unfold finish.
  destruct (0 <? detection_count st)%nat eqn:E; [reflexivity|].
  apply Nat.ltb_ge in E. lia.
Qed.

Lemma thumbnail_of_run thr stride source name nothing st L :
  scores_nonneg source ->
  run_inv L st -> tracked thr stride source st -> L <> [] ->
  exists k f c,
    thumbnail_frame (finish name nothing st) = Some k /\
    (1 <= k <= Z.of_nat (length source))%Z /\ (k mod stride = 0)%Z /\
    source !! Z.to_nat (k - 1) = Some f /\
    In c (cleared_in_frame thr f) /\
    c == confidence (finish name nothing st).
Proof.
  intros Hnn (_ & _ & _ & Hcnt & _) Htr HL.
  assert (Hpos : (0 < detection_count st)%nat).
  { destruct (detection_count st) eqn:E; [|lia]. destruct HL. now apply Hcnt. }
  assert (Hne : detection_confidences st <> []).
  { destruct Htr as (Hn & _). intros Hnil. rewrite Hnil in Hn. simpl in Hn. lia. }
  destruct (best_frame_found thr stride source st Htr Hne)
    as (k & c & Hbest & (Hk1 & Hmod & f & Hf & Hcf) & Hc & Hmax).
  exists k, f, c. rewrite finish_thumbnail by exact Hpos.
  rewrite finish_confidence.
  split; [exact Hbest|]. split.
  { apply lookup_lt_Some in Hf. lia. }
  split; [exact Hmod|]. split; [exact Hf|]. split; [exact Hcf|].
  destruct Htr as (_ & _ & H0 & Hub & Hin & _).
  apply Qle_antisym; [now apply Hub|].
  destruct Hin as [E | Hin]; [|now apply Hmax].
  rewrite E. apply (cleared_in_frame_nonneg thr f c); [|exact Hcf].
  intros results r x. apply Hnn.
  apply (proj1 (list_elem_of_In _ _)). eapply list_elem_of_lookup_2. exact Hf.
Qed.

(** X4. When a run detected something, the frame number it hands to
    [_create_thumbnail] is that of a scored frame of the source on which
    a confidence equal to the alert's final confidence cleared the
    threshold.  For a video file, [_create_thumbnail] then seeks the
    0-based position of that number: the frame it reads is the next
    frame of the file, which is not a scored one, and the read fails
    when the best frame is the last of the file. *)
Theorem thumbnail_request_names_the_best_frame
    (self : ModelManager.ModelManager) (key : string) (d : ModelManager.Detector)
    (thr duration : Q) (frame_limit : Z) (camera : Camera)
    (frames : list frame) (live : list (frame * Q)) :
  ModelManager.detectors self !! key = Some d ->
  scores_nonneg frames ->
  scores_nonneg (map fst live) ->
  frame_rate camera <> 0%Z ->
  (exists a,
      process_video self (Some frames) key thr = Ret a /\
      (cleared thr 5 frames <> [] ->
       exists k f c,
         thumbnail_frame a = Some k /\
         (1 <= k <= Z.of_nat (length frames))%Z /\ (k mod 5 = 0)%Z /\
         frames !! Z.to_nat (k - 1) = Some f /\
         In c (cleared_in_frame thr f) /\ c == confidence a /\
         thumbnail_read frames k = frames !! Z.to_nat ((k + 1) - 1) /\
         ((k + 1) mod 5 <> 0)%Z /\
         (thumbnail_read frames k = None <-> k = Z.of_nat (length frames)))) /\
  (exists a,
      snd (process_camera_stream self (Some camera) key (Some live) duration
             frame_limit) = Ret a /\
      (cleared (ModelManager.conf_threshold
                  (ModelManager.get_detector_config self key))
         (frame_rate camera) (frames_read duration frame_limit 0 live) <> [] ->
       exists k f c,
         thumbnail_frame a = Some k /\
         (1 <= k <= Z.of_nat (length live))%Z /\ (k mod frame_rate camera = 0)%Z /\
         map fst live !! Z.to_nat (k - 1) = Some f /\
         In c (cleared_in_frame
                 (ModelManager.conf_threshold
                    (ModelManager.get_detector_config self key)) f) /\
         c == confidence a)).
Proof.
  intros Hd Hframes Hlive Hrate. split.
  - destruct (video_run_state self key d thr frames Hd)
      as (st & Hrun & Hinv & _ & Htr & _).
    eexists. split; [exact Hrun|]. intros HL.
    destruct (thumbnail_of_run thr 5 frames (ModelManager.name d)
                (NoneInVideo (ModelManager.name d)) st _ Hframes Hinv Htr HL)
      as (k & f & c & Hk & Hrange & Hmod & Hf & Hc & Hconf).
    exists k, f, c. split; [exact Hk|]. split; [exact Hrange|].
    split; [exact Hmod|]. split; [exact Hf|]. split; [exact Hc|].
    split; [exact Hconf|]. unfold thumbnail_read. split.
    { f_equal. lia. }
    split.
    { intros Hnext.
      assert (H1 : ((k + 1) mod 5 = (k mod 5 + 1) mod 5)%Z).
      { rewrite Z.add_mod by lia. rewrite (Z.mod_small 1 5) by lia. reflexivity. }
      rewrite H1, Hmod in Hnext. discriminate. }
    rewrite lookup_ge_None. lia.
  - destruct (stream_run_state self key d camera duration frame_limit live Hd Hrate)
      as (st & m & Hrun & Hinv & (_ & Htr & _) & _).
    eexists. split; [exact Hrun|]. intros HL.
    destruct (thumbnail_of_run _ _ _ (ModelManager.name d)
                (NoneInStream (ModelManager.name d)) st _ Hlive Hinv Htr HL)
      as (k & f & c & H).
    exists k, f, c. now rewrite length_map in H.
Qed.

Lemma thumbnail_request_names_the_best_frame_witness :
  let frames := silent 4 ++ [hit (8 # 10)] ++ silent 2 in
  ModelManager.detectors sample_manager !! "fall"
    = Some {| ModelManager.name := "Fall Detection"; ModelManager.model_path := "fall" |} /\
  scores_nonneg frames /\
  scores_nonneg (map fst [(hit (6 # 10), 1)]) /\
  frame_rate every_frame <> 0%Z /\
  cleared (1 # 4) 5 frames <> [] /\
  cleared (ModelManager.conf_threshold
             (ModelManager.get_detector_config sample_manager "fall"))
    (frame_rate every_frame) (frames_read 60 300 0 [(hit (6 # 10), 1)]) <> [] /\
  (exists a,
      process_video sample_manager (Some frames) "fall" (1 # 4) = Ret a /\
      (cleared (1 # 4) 5 frames <> [] ->
       exists k f c,
         thumbnail_frame a = Some k /\
         (1 <= k <= Z.of_nat (length frames))%Z /\ (k mod 5 = 0)%Z /\
         frames !! Z.to_nat (k - 1) = Some f /\
         In c (cleared_in_frame (1 # 4) f) /\ c == confidence a /\
         thumbnail_read frames k = frames !! Z.to_nat ((k + 1) - 1) /\
         ((k + 1) mod 5 <> 0)%Z /\
         (thumbnail_read frames k = None <-> k = Z.of_nat (length frames)))) /\
  (exists a,
      snd (process_camera_stream sample_manager (Some every_frame) "fall"
             (Some [(hit (6 # 10), 1)]) 60 300) = Ret a /\
      (cleared (ModelManager.conf_threshold
                  (ModelManager.get_detector_config sample_manager "fall"))
         (frame_rate every_frame) (frames_read 60 300 0 [(hit (6 # 10), 1)]) <> [] ->
       exists k f c,
         thumbnail_frame a = Some k /\
         (1 <= k <= Z.of_nat (length [(hit (6 # 10), 1)]))%Z /\
         (k mod frame_rate every_frame = 0)%Z /\
         map fst [(hit (6 # 10), 1)] !! Z.to_nat (k - 1) = Some f /\
         In c (cleared_in_frame
                 (ModelManager.conf_threshold
                    (ModelManager.get_detector_config sample_manager "fall")) f) /\
         c == confidence a)).
Proof.
  intros frames.
  assert (H0 : ModelManager.detectors sample_manager !! "fall"
               = Some {| ModelManager.name := "Fall Detection";
                         ModelManager.model_path := "fall" |}) by reflexivity.
  assert (Hq : forall q x r results,
             predict (hit q) = Ret results -> In r results ->
             In x (confidences_of r) -> x = q).
  { intros q x r results Hp Hr Hx. injection Hp as <-.
    destruct Hr as [<- | []]. now destruct Hx as [<- | []]. }
  assert (Hs : forall x r results,
             predict {| predict := Ret [None] |} = Ret results -> In r results ->
             In x (confidences_of r) -> False).
  { intros x r results Hp Hr Hx. injection Hp as <-.
    destruct Hr as [<- | []]. destruct Hx. }
  assert (H1 : scores_nonneg frames).
  { intros f results r x Hf Hp Hr Hx.
    repeat (destruct Hf as [<- | Hf];
            [first [ destruct (Hs x r results Hp Hr Hx)
                   | rewrite (Hq _ x r results Hp Hr Hx); discriminate ]|]).
    destruct Hf. }
  assert (H2 : scores_nonneg (map fst [(hit (6 # 10), 1)])).
  { intros f results r x [<- | []] Hp Hr Hx.
    rewrite (Hq _ x r results Hp Hr Hx). discriminate. }
  assert (H3 : frame_rate every_frame <> 0%Z) by (simpl; lia).
  split; [exact H0|]. split; [exact H1|]. split; [exact H2|]. split; [exact H3|].
  split; [discriminate|]. split; [discriminate|].
  exact (thumbnail_request_names_the_best_frame sample_manager "fall" _ (1 # 4) 60 300
           every_frame frames [(hit (6 # 10), 1)] H0 H1 H2 H3).
Defined.

Lemma output_annotated stride st k :
  output_inv stride st -> In (Annotated k) (out st) -> (k mod stride = 0)%Z.
Proof.
  intros (_ & _ & Hann) Hk.
  exact (proj1 (List.Forall_forall _ _) Hann (Annotated k) Hk).
Qed.

(** *** The output video when a save can fail *)



















(** A file of five frames with a hit on the fifth, whose save raises:
    the fifth frame is written annotated and then as it was read. *)
Example failed_save_writes_the_frame_twice :
  out (video_loop_saving (fun k => (k =? 5)%Z) (1 # 4) (silent 4 ++ [hit (8 # 10)])
         (start_run (AutomaticDetection "Fall Detection")))
  = [Original 1; Original 2; Original 3; Original 4; Annotated 5; Original 5].
Proof. reflexivity. Qed.

Lemma stream_loop_bound thr rate duration limit live : forall st,
  rate <> 0%Z ->
  exists st',
    stream_loop thr rate duration limit live st = Ret st' /\
    (frame_count st' <= Z.max (frame_count st + 1) limit)%Z /\
    (forall i f t, live !! i = Some (f, t) -> duration <= t ->
                   (frame_count st' <= frame_count st + Z.of_nat i + 1)%Z).
Proof.
  induction live as [|[f t] live IH]; intros st Hrate.
  - exists st. split; [reflexivity|]. split; [lia|]. intros i f t Hi. discriminate.
  - apply Z.eqb_neq in Hrate as Hr. rewrite stream_loop_cons, Hr.
    pose proof (process_frame_count thr rate f st) as Hc.
    destruct (ge t duration) eqn:Et; simpl.
    + eexists. split; [reflexivity|]. rewrite Hc. split; [lia|]. intros; lia.
    + destruct (limit <=? frame_count (process_frame thr rate f st))%Z eqn:El.
      * eexists. split; [reflexivity|]. rewrite Hc. split; [lia|]. intros; lia.
      * destruct (IH (process_frame thr rate f st) Hrate) as (st' & Hrun & Hb & Hd).
        exists st'. split; [exact Hrun|]. rewrite Hc in *.
        apply Z.leb_gt in El. split; [lia|].
        intros [|i] f' t' Hi Ht.
        -- simpl in Hi. injection Hi as <- <-.
           apply ge_false in Et. exfalso. exact (Qlt_not_le _ _ Et Ht).
        -- specialize (Hd i f' t' Hi Ht). lia.
Qed.

(** X6. A live run reads at least one frame when there is one, and stops
    by the frame limit and by the duration: it reads no more than
    max(1, frame_limit) frames and nothing after the first frame at which
    the elapsed time has reached the duration. *)
Theorem live_run_stops_at_its_limits
    (thr duration : Q) (rate limit : Z) (live : list (frame * Q)) (d : text) :
  rate <> 0%Z ->
  exists st',
    stream_loop thr rate duration limit live (start_run d) = Ret st' /\
    length (out st') = Z.to_nat (frame_count st') /\
    (live <> [] -> 1 <= frame_count st')%Z /\
    (frame_count st' <= Z.max 1 limit)%Z /\
    (forall i f t, live !! i = Some (f, t) -> duration <= t ->
                   (frame_count st' <= Z.of_nat i + 1)%Z).
Proof.
  intros Hrate.
  destruct (stream_loop_bound thr rate duration limit live (start_run d) Hrate)
    as (st' & Hrun & Hb & Hd).
  destruct (stream_loop_after thr rate duration limit live d Hrate)
    as (st2 & m & Hrun2 & (Hcount & _ & (_ & Hout & _)) & Hm).
  assert (st2 = st') as -> by congruence.
  exists st'. split; [exact Hrun|]. split.
  { rewrite <- (length_map number), Hout. apply length_seqZ. }
  split.
  { intros Hne. destruct live as [|[f t] live]; [now destruct Hne|].
    rewrite stream_loop_cons in Hrun. apply Z.eqb_neq in Hrate. rewrite Hrate in Hrun.
    pose proof (process_frame_count thr rate f (start_run d)) as Hc. simpl in Hc.
    destruct (ge t duration
              || (limit <=? frame_count (process_frame thr rate f (start_run d)))%Z).
    - injection Hrun as <-. lia.
    - apply Z.eqb_neq in Hrate.
      destruct (stream_loop_ind (fun _ s0 => (1 <= frame_count s0)%Z) thr rate
                  duration limit live Hrate) with (done := @nil (frame * Q))
                  (rest := live) (st := process_frame thr rate f (start_run d))
        as (s' & k & Hs' & Hk & _).
      + intros i f0 t0 s0 _ H1. rewrite process_frame_count. lia.
      + reflexivity.
      + lia.
      + congruence. }
  split; [exact Hb|]. exact Hd.
Qed.

Lemma live_run_stops_at_its_limits_witness :
  (1 <> 0)%Z /\
  exists st',
    stream_loop (1 # 4) 1 2 300
      [(hit (6 # 10), 1); (hit (3 # 10), 2); (hit (9 # 10), 3)]
      (start_run (RealTimeDetection "Fall Detection")) = Ret st' /\
    length (out st') = Z.to_nat (frame_count st') /\
    ([(hit (6 # 10), 1%Q); (hit (3 # 10), 2%Q); (hit (9 # 10), 3%Q)] <> [] ->
     1 <= frame_count st')%Z /\
    (frame_count st' <= Z.max 1 300)%Z /\
    (forall i f t,
        [(hit (6 # 10), 1%Q); (hit (3 # 10), 2%Q); (hit (9 # 10), 3%Q)] !! i
          = Some (f, t) ->
        2 <= t -> (frame_count st' <= Z.of_nat i + 1)%Z).
Proof.
  assert (H : (1 <> 0)%Z) by lia.
  split; [exact H|].
  exact (live_run_stops_at_its_limits (1 # 4) 2 1 300
           [(hit (6 # 10), 1); (hit (3 # 10), 2); (hit (9 # 10), 3)]
           (RealTimeDetection "Fall Detection") H).
Defined.

End VideoProcessorRunFacts.

(** ** What a dispatch of alerts/signals.py keeps in every world *)

Module NotificationEngineRunFacts.
Import Py NotificationEngine NotificationEngineRun.
Import NotificationEngineFacts.

Lemma time_eqb_sym a b : time_eqb a b = time_eqb b a.
Proof.
  unfold time_eqb. rewrite (time_compare_antisym a b).
  now destruct (time_compare a b).
Qed.

Lemma time_le_strict a b :
  time_le a b = true -> time_eqb a b = false -> time_le b a = false.
Proof.
  unfold time_le, time_eqb. rewrite (time_compare_antisym a b).
  destruct (time_compare a b); simpl; congruence.
Qed.

Lemma time_eqb_eq a b : time_eqb a b = true -> a = b.
Proof.
  unfold time_eqb, time_compare. destruct a as [h m x u], b as [h' m' x' u']. simpl.
  destruct (Nat.compare_spec h h'); try discriminate.
  destruct (Nat.compare_spec m m'); try discriminate.
  destruct (Nat.compare_spec x x'); try discriminate.
  destruct (Nat.compare_spec u u'); try discriminate.
  intros _. now subst.
Qed.

Lemma time_le_refl a : time_le a a = true.
Proof.
  destruct (time_le a a) eqn:E; [reflexivity|].
  pose proof (time_le_total _ _ E). congruence.
Qed.

Lemma decide_quiet_hours (s : NotificationSetting) (instance : Alert) (t : time) :
  decide s instance t
  = if quiet_hours_enabled s
       && negb (String.eqb (severity instance) "critical")
       && in_window (quiet_hours_start s) (quiet_hours_end s) t
       && negb (on_overnight_boundary (quiet_hours_start s) (quiet_hours_end s) t)
    then silence
    else check_severity s instance (enabled_for_type s instance).
Proof.
  unfold decide, check_quiet_hours, in_window, on_overnight_boundary.
  destruct (quiet_hours_enabled s); [|reflexivity].
  destruct (String.eqb (severity instance) "critical"); simpl.
  { now destruct (time_le (quiet_hours_start s) (quiet_hours_end s)),
      (time_le (quiet_hours_end s) t && time_le t (quiet_hours_start s)),
      (time_le (quiet_hours_start s) t && time_le t (quiet_hours_end s)). }
  destruct (time_le (quiet_hours_start s) (quiet_hours_end s)) eqn:Ese; simpl.
  { rewrite andb_true_r.
    now destruct (time_le (quiet_hours_start s) t && time_le t (quiet_hours_end s)). }
  pose proof (time_le_total _ _ Ese) as Hes.
  destruct (time_eqb t (quiet_hours_start s)) eqn:E1.
  { apply time_eqb_eq in E1. subst t.
    rewrite Hes, time_le_refl. simpl. now rewrite ?andb_false_r. }
  destruct (time_eqb t (quiet_hours_end s)) eqn:E2.
  { apply time_eqb_eq in E2. subst t.
    rewrite Hes, time_le_refl. simpl. now rewrite ?andb_false_r. }
  simpl. rewrite andb_true_r.
  destruct (time_le (quiet_hours_end s) t) eqn:E3;
    destruct (time_le t (quiet_hours_start s)) eqn:E4; simpl.
  - rewrite (time_le_strict _ _ E4 E1).
    rewrite time_eqb_sym in E2. rewrite (time_le_strict _ _ E3 E2).
    reflexivity.
  - apply time_le_total in E4. now rewrite E4.
  - apply time_le_total in E3. now rewrite E3, orb_true_r.
  - apply time_le_total in E4. now rewrite E4.
Qed.

(** X7. The quiet hours, exactly: an alert is silenced when the quiet
    hours are on, it is not critical, and the time lies in the window
    from start to end (ends included, passing midnight when the start is
    after the end), except at the two end instants of a window that
    passes midnight; in every other case the decision taken before the
    quiet hours stands. *)
Theorem quiet_hours_exactly (s : NotificationSetting) (instance : Alert) (t : time) :
  decide s instance t
  = if quiet_hours_enabled s
       && negb (String.eqb (severity instance) "critical")
       && in_window (quiet_hours_start s) (quiet_hours_end s) t
       && negb (on_overnight_boundary (quiet_hours_start s) (quiet_hours_end s) t)
    then silence
    else check_severity s instance (enabled_for_type s instance).
Proof. exact (decide_quiet_hours s instance t). Qed.

Lemma rank_bounds sev : (1 <= rank sev <= 4)%nat /\ (rank sev = 4%nat -> sev = "critical").
Proof.
  unfold rank, get, severity_rank.
  rewrite !lookup_insert, lookup_singleton.
  repeat case_decide; subst; simpl; split; try lia; try reflexivity; intros; lia.
Qed.

Lemma flag_silence channel : flag silence channel = false.
Proof.
  unfold flag, silence. simpl.
  now destruct (String.eqb channel "email"), (String.eqb channel "sms"),
    (String.eqb channel "push").
Qed.

(** X8. Raising the severity of an alert never takes a channel away:
    a channel that is notified for an alert is notified for the same
    alert with any severity of at least its rank, quiet hours
    included. *)
Theorem higher_severity_keeps_channels
    (s : NotificationSetting) (camera : option (User * option NotificationSetting))
    (ty sev1 sev2 : string) (t : time) (channel : string) :
  In channel channels ->
  (rank sev1 <= rank sev2)%nat ->
  flag (decide s {| alert_type := ty; severity := sev1; camera := camera |} t)
    channel = true ->
  flag (decide s {| alert_type := ty; severity := sev2; camera := camera |} t)
    channel = true.
Proof.
  intros Hch Hrank. rewrite !decide_quiet_hours. simpl severity.
  set (i1 := {| alert_type := ty; severity := sev1; camera := camera |}).
  set (i2 := {| alert_type := ty; severity := sev2; camera := camera |}).
  pose proof (eligibility s i1 channel Hch) as E1.
  pose proof (eligibility s i2 channel Hch) as E2.
  change (alert_type i1) with ty in E1. change (alert_type i2) with ty in E2.
  change (alert_rank i1) with (rank sev1) in E1.
  change (alert_rank i2) with (rank sev2) in E2.
  destruct (quiet_hours_enabled s
            && negb (String.eqb sev1 "critical")
            && in_window (quiet_hours_start s) (quiet_hours_end s) t
            && negb (on_overnight_boundary (quiet_hours_start s)
                       (quiet_hours_end s) t)) eqn:C1.
  { rewrite flag_silence. discriminate. }
  rewrite E1. intros Hel.
  apply andb_true_iff in Hel as [Hel Hmin]. apply Nat.leb_le in Hmin.
  assert (C2 : quiet_hours_enabled s
               && negb (String.eqb sev2 "critical")
               && in_window (quiet_hours_start s) (quiet_hours_end s) t
               && negb (on_overnight_boundary (quiet_hours_start s)
                          (quiet_hours_end s) t) = false).
  { destruct (String.eqb sev1 "critical") eqn:Ec.
    - apply String.eqb_eq in Ec. subst sev1.
      assert (sev2 = "critical") as ->.
      { apply rank_bounds. pose proof (rank_bounds sev2) as [? _].
        change (rank "critical") with 4%nat in Hrank. lia. }
      simpl. now rewrite andb_false_r.
    - destruct (String.eqb sev2 "critical"); [simpl; now rewrite andb_false_r|].
      exact C1. }
  rewrite C2, E2, Hel. simpl. apply Nat.leb_le. lia.
Qed.

Lemma higher_severity_keeps_channels_witness :
  In "sms" channels /\
  (rank "high" <= rank "critical")%nat /\
  flag (decide (all_on true (at_ 22 0) (at_ 7 0))
          {| alert_type := "fall"; severity := "high";
             camera := Some (owner, None) |} (at_ 12 0)) "sms" = true /\
  flag (decide (all_on true (at_ 22 0) (at_ 7 0))
          {| alert_type := "fall"; severity := "critical";
             camera := Some (owner, None) |} (at_ 12 0)) "sms" = true.
Proof.
  assert (H1 : In "sms" channels) by (right; left; reflexivity).
  assert (H2 : (rank "high" <= rank "critical")%nat) by (vm_compute; lia).
  assert (H3 : flag (decide (all_on true (at_ 22 0) (at_ 7 0))
                       {| alert_type := "fall"; severity := "high";
                          camera := Some (owner, None) |} (at_ 12 0)) "sms" = true)
    by reflexivity.
  split; [exact H1|]. split; [exact H2|]. split; [exact H3|].
  exact (higher_severity_keeps_channels (all_on true (at_ 22 0) (at_ 7 0))
           (Some (owner, None)) "fall" "high" "critical" (at_ 12 0) "sms" H1 H2 H3).
Defined.

Section Keeps.
Variable w : world.
Context {P : state -> Prop}.

Lemma preserves_ret {A} (a : A) : preserves P (mret a).
Proof. intros st H. exact H. Qed.

Lemma preserves_bind {A B} (m : M A) (k : A -> M B) :
  preserves P m -> (forall a, preserves P (k a)) -> preserves P (m ≫= k).
Proof.
  intros Hm Hk st H. specialize (Hm st H).
  unfold mbind, M_bind. destruct (m st) as [st' [a|e]]; simpl in *.
  - now apply Hk.
  - exact Hm.
Qed.

Lemma preserves_try {A} (body : M A) (handler : string -> M A) :
  preserves P body -> (forall e, preserves P (handler e)) ->
  preserves P (try_ body handler).
Proof.
  intros Hm Hh st H. specialize (Hm st H).
  unfold try_. destruct (body st) as [st' [a|e]]; simpl in *.
  - exact Hm.
  - now apply Hh.
Qed.

Lemma preserves_when b (body : M unit) :
  preserves P body -> preserves P (when b body).
Proof. intros Hm. destruct b; [exact Hm | apply preserves_ret]. Qed.

(** If the four accesses to the log keep [P], the whole dispatch does. *)
Lemma dispatch_preserves flags user :
  (forall c, preserves P (create w c)) ->
  (forall f, preserves P (assign f)) ->
  preserves P (save w) ->
  preserves P
    (try_ (send_email w flags;; send_sms w flags user;; send_push w flags)
       (fun _ => mret tt)).
Proof.
  intros Hcreate Hassign Hsave.
  assert (Hsend : forall c, preserves P (send w c)).
  { intros c st H. unfold send. now destruct (send_raises w c). }
  assert (Hlog : preserves P the_log).
  { intros st H. unfold the_log. now destruct (notification_log st). }
  apply preserves_try; [|intros; apply preserves_ret].
  repeat first
    [ apply preserves_bind; [|intros]
    | apply preserves_when
    | apply preserves_try; [|intros]
    | apply Hcreate | apply Hassign | apply Hsave | apply Hsend | apply Hlog
    | apply preserves_ret ].
Qed.

End Keeps.

Lemma extends_weaken (db : list NotificationLog) n m (j : list db_write) :
  (n <= m)%nat ->
  Forall (fun wr => length db <= pk_of wr < n)%nat j ->
  Forall (fun wr => length db <= pk_of wr < m)%nat j.
Proof.
  intros Hnm H. eapply Forall_impl; [exact H|]. intros wr. simpl. lia.
Qed.

Lemma create_extends w db c : preserves (extends db) (create w c).
Proof.
  intros st Hext. pose proof Hext as (Htake & Hlen & Hj & Hlog). unfold create.
  destruct (create_raises w c); [exact Hext|].
  unfold extends. simpl.
  rewrite List.filter_app, !length_app. simpl.
  assert (Hdb : (length db <= length (table st))%nat) by lia.
  split; [|split; [|split]].
  - rewrite take_app_le by exact Hdb. exact Htake.
  - lia.
  - apply Forall_app. split.
    + eapply extends_weaken; [|exact Hj]. lia.
    + constructor; [simpl; lia | constructor].
  - intros pk row [= <- _]. lia.
Qed.

Lemma assign_extends db f : preserves (extends db) (assign f).
Proof.
  intros st Hext. pose proof Hext as (Htake & Hlen & Hj & Hlog). unfold assign.
  destruct (notification_log st) as [[pk row]|] eqn:E; [|exact Hext].
  unfold extends. simpl. split; [exact Htake|]. split; [exact Hlen|].
  split; [exact Hj|]. intros pk' row' [= <- _]. now apply (Hlog pk row).
Qed.

Lemma save_extends w db : preserves (extends db) (save w).
Proof.
  intros st Hext. pose proof Hext as (Htake & Hlen & Hj & Hlog). unfold save.
  destruct (notification_log st) as [[pk row]|] eqn:E; [|exact Hext].
  destruct (Hlog pk row eq_refl) as [Hlo Hhi].
  destruct (save_raises w (notification_type row) (status row)); [exact Hext|].
  unfold extends. simpl. rewrite List.filter_app, !length_app, length_insert. simpl.
  split; [|split; [|split]].
  - rewrite take_insert_ge by exact Hlo. exact Htake.
  - lia.
  - apply Forall_app. split; [exact Hj|]. constructor; [simpl; lia | constructor].
  - intros pk' row' [= <- _]. lia.
Qed.

(** X9. Whatever the outside does, a dispatch keeps every row that was
    in the log table before it, adds one row for each insert it makes,
    and writes only to rows it has added itself. *)
Theorem existing_log_rows_are_kept
    (w : world) (created : bool) (instance : Alert) (db : list NotificationLog) :
  let final := send_alert_notifications w created instance db in
  take (length db) (table final) = db /\
  length (table final)
    = (length db + length (List.filter is_insert (journal final)))%nat /\
  Forall (fun wr => length db <= pk_of wr < length (table final))%nat
    (journal final).
Proof.
  intros final.
  assert (H0 : extends db {| table := db; journal := []; notification_log := None |}).
  { unfold extends. simpl. rewrite firstn_all, Nat.add_0_r.
    split; [reflexivity|]. split; [reflexivity|]. split; [constructor|].
    intros pk row. discriminate. }
  assert (H : extends db final).
  { subst final. unfold send_alert_notifications.
    destruct created; [|exact H0].
    destruct (camera instance) as [[user [s|]]|]; try exact H0.
    apply (dispatch_preserves w); try exact H0.
    - apply create_extends.
    - apply assign_extends.
    - apply save_extends. }
  destruct H as (Htake & Hlen & Hj & _).
  split; [exact Htake|]. split; [exact Hlen | exact Hj].
Qed.

(** X10. When the e-mail row cannot be created, the handler of the
    e-mail block reads a variable that was never bound; the error leaves
    the block and ends the whole dispatch: nothing is written, and SMS
    and push are not attempted even when they are due. *)
Theorem failed_email_row_ends_the_dispatch
    (w : world) (s : NotificationSetting) (user : User) (ty sev : string)
    (db : list NotificationLog) (e : string) :
  create_raises w "email" = Some e ->
  by_email (decide s {| alert_type := ty; severity := sev;
                        camera := Some (user, Some s) |} (current_time w)) = true ->
  let final := send_alert_notifications w true
                 {| alert_type := ty; severity := sev;
                    camera := Some (user, Some s) |} db in
  journal final = [] /\ table final = db.
Proof.
  intros Hcreate Hby final. subst final.
  unfold send_alert_notifications. cbn [camera].
  unfold try_, mbind, M_bind, send_email, when. rewrite Hby.
  unfold try_, mbind, M_bind, create. rewrite Hcreate. simpl.
  split; reflexivity.
Qed.

Lemma failed_email_row_ends_the_dispatch_witness :
  create_raises
    {| current_time := at_ 12 0; now := fun _ => 0%Z;
       create_raises := fun c => if String.eqb c "email" then Some "db down" else None;
       send_raises := fun _ => None; save_raises := fun _ _ => None |} "email"
    = Some "db down" /\
  by_email (decide (all_on false (at_ 22 0) (at_ 7 0))
              {| alert_type := "fall"; severity := "critical";
                 camera := Some (owner, Some (all_on false (at_ 22 0) (at_ 7 0))) |}
              (at_ 12 0)) = true /\
  let final :=
    send_alert_notifications
      {| current_time := at_ 12 0; now := fun _ => 0%Z;
         create_raises := fun c => if String.eqb c "email" then Some "db down" else None;
         send_raises := fun _ => None; save_raises := fun _ _ => None |}
      true
      {| alert_type := "fall"; severity := "critical";
         camera := Some (owner, Some (all_on false (at_ 22 0) (at_ 7 0))) |} [] in
  journal final = [] /\ table final = [].
Proof.
  split; [reflexivity|]. split; [reflexivity|].
  exact (failed_email_row_ends_the_dispatch
           {| current_time := at_ 12 0; now := fun _ => 0%Z;
              create_raises := fun c => if String.eqb c "email" then Some "db down"
                                        else None;
              send_raises := fun _ => None; save_raises := fun _ _ => None |}
           (all_on false (at_ 22 0) (at_ 7 0)) owner "fall" "critical" [] "db down"
           eq_refl eq_refl).
Defined.

Section Shapes.
Variable w : world.

Ltac cases :=
  unfold when, try_, mbind, M_bind, mret, M_ret, create, send, assign, save, the_log,
    attempts, attempt_shape, pending;
  repeat (simpl;
          match goal with
          | |- context [create_raises w ?c] => destruct (create_raises w c)
          | |- context [send_raises w ?c] => destruct (send_raises w c) eqn:?
          | |- context [save_raises w ?c ?s] => destruct (save_raises w c s)
          end);
  simpl.

Ltac shaped :=
  eexists; split;
  [ first [ reflexivity
          | symmetry; apply app_nil_r
          | rewrite <- app_assoc; reflexivity ]
  | split;
    [ first
        [ left; reflexivity
        | right; left; eexists; reflexivity
        | right; right; eexists _, _; split; [reflexivity|]; split; [reflexivity|];
          first [ left; repeat split; first [reflexivity | assumption]
                | right; split; [reflexivity | eexists; reflexivity] ] ]
    | first [discriminate | reflexivity] ] ].

Lemma send_email_attempts flags st :
  notification_log st = None ->
  attempts w "email" (by_email flags) (send_email w flags) st.
Proof.
  intros Hnone. unfold send_email.
  destruct (by_email flags); [|cases; shaped].
  cases; rewrite ?Hnone; simpl; shaped.
Qed.

Lemma send_sms_attempts flags user st :
  attempts w "sms" (by_sms flags && truthy (phone_number user))
    (send_sms w flags user) st.
Proof.
  unfold send_sms.
  destruct (by_sms flags && truthy (phone_number user)); cases; shaped.
Qed.

Lemma send_push_attempts flags st :
  attempts w "push" (by_push flags) (send_push w flags) st.
Proof.
  unfold send_push. destruct (by_push flags); cases; shaped.
Qed.

Lemma attempt_typed channel ws : attempt_shape w channel ws -> typed channel ws.
Proof.
  intros [-> | [(pk & ->) | (pk & row & -> & Hty & _)]]; repeat constructor.
  exact Hty.
Qed.

Lemma typed_same channel ws : typed channel ws -> writes_of channel ws = ws.
Proof.
  unfold writes_of. induction 1 as [|wr ws Hwr _ IH]; simpl; [reflexivity|].
  rewrite Hwr, String.eqb_refl. now f_equal.
Qed.

(** The writes of a dispatch are those of three attempts, in the order
    e-mail, SMS, push. *)
Lemma dispatch_attempts flags user st :
  notification_log st = None ->
  exists ws1 ws2 ws3,
    journal (fst (try_ (send_email w flags;; send_sms w flags user;;
                        send_push w flags)
                    (fun _ => mret tt) st))
      = journal st ++ ws1 ++ ws2 ++ ws3 /\
    attempt_shape w "email" ws1 /\ attempt_shape w "sms" ws2 /\
    attempt_shape w "push" ws3 /\
    (by_sms flags && truthy (phone_number user) = false -> ws2 = []).
Proof.
  intros Hnone.
  destruct (send_email_attempts flags st Hnone) as (ws1 & E1 & T1 & _).
  unfold try_, mbind, M_bind, mret, M_ret.
  destruct (send_email w flags st) as [st1 [[]|e1]]; simpl in E1.
  2:{ exists ws1, [], []. simpl. rewrite !app_nil_r.
      repeat split; try assumption; now left. }
  destruct (send_sms_attempts flags user st1) as (ws2 & E2 & T2 & O2).
  destruct (send_sms w flags user st1) as [st2 [[]|e2]]; simpl in E2.
  2:{ exists ws1, ws2, []. simpl. rewrite E2, E1, app_nil_r, app_assoc.
      repeat split; try assumption; now left. }
  destruct (send_push_attempts flags st2) as (ws3 & E3 & T3 & _).
  exists ws1, ws2, ws3.
  assert (E : journal (fst (send_push w flags st2))
              = journal st ++ ws1 ++ ws2 ++ ws3).
  { rewrite E3, E2, E1. now rewrite <- !app_assoc. }
  destruct (send_push w flags st2) as [st3 [[]|e3]]; simpl in *;
    repeat split; assumption.
Qed.

Lemma final_attempts created instance db :
  exists ws1 ws2 ws3,
    journal (send_alert_notifications w created instance db) = ws1 ++ ws2 ++ ws3 /\
    attempt_shape w "email" ws1 /\ attempt_shape w "sms" ws2 /\
    attempt_shape w "push" ws3 /\
    (forall user s, camera instance = Some (user, s) ->
                    truthy (phone_number user) = false -> ws2 = []).
Proof.
  assert (Hnothing : exists ws1 ws2 ws3 : list db_write,
             @nil db_write = ws1 ++ ws2 ++ ws3 /\
             attempt_shape w "email" ws1 /\ attempt_shape w "sms" ws2 /\
             attempt_shape w "push" ws3 /\
             (forall user s, camera instance = Some (user, s) ->
                             truthy (phone_number user) = false -> ws2 = [])).
  { exists [], [], []. repeat split; try (now left). }
  unfold send_alert_notifications.
  destruct created; [|exact Hnothing].
  destruct (camera instance) as [[user [s|]]|] eqn:Hcam; try exact Hnothing.
  destruct (dispatch_attempts (decide s instance (current_time w)) user
              {| table := db; journal := []; notification_log := None |} eq_refl)
    as (ws1 & ws2 & ws3 & E & T1 & T2 & T3 & O2).
  exists ws1, ws2, ws3. split; [exact E|]. repeat split; try assumption.
  intros user' s' [= <- _] Hphone. apply O2. rewrite Hphone. apply andb_false_r.
Qed.

End Shapes.

(** X11. Whatever the outside does, each channel leaves in the journal
    nothing, or one pending row, or one pending row followed by one
    update of that row; the update says 'sent' only if the channel's
    dispatch did not raise, and 'failed' comes with an error detail. *)
Theorem each_channel_writes_one_attempt
    (w : world) (created : bool) (instance : Alert) (db : list NotificationLog) :
  let final := send_alert_notifications w created instance db in
  attempt_shape w "email" (writes_of "email" (journal final)) /\
  attempt_shape w "sms" (writes_of "sms" (journal final)) /\
  attempt_shape w "push" (writes_of "push" (journal final)).
Proof.
  intros final. subst final.
  destruct (final_attempts w created instance db)
    as (ws1 & ws2 & ws3 & -> & T1 & T2 & T3 & _).
  pose proof (attempt_typed w _ _ T1) as Y1.
  pose proof (attempt_typed w _ _ T2) as Y2.
  pose proof (attempt_typed w _ _ T3) as Y3.
  unfold writes_of. rewrite !List.filter_app.
  fold (writes_of "email" ws1) (writes_of "email" ws2) (writes_of "email" ws3)
       (writes_of "sms" ws1) (writes_of "sms" ws2) (writes_of "sms" ws3)
       (writes_of "push" ws1) (writes_of "push" ws2) (writes_of "push" ws3).
  rewrite (typed_same "email" ws1 Y1), (typed_same "sms" ws2 Y2),
    (typed_same "push" ws3 Y3).
  rewrite (typed_other "sms" "email" ws2 Y2), (typed_other "push" "email" ws3 Y3),
    (typed_other "email" "sms" ws1 Y1), (typed_other "push" "sms" ws3 Y3),
    (typed_other "email" "push" ws1 Y1), (typed_other "sms" "push" ws2 Y2)
    by discriminate.
  simpl. rewrite !app_nil_r. repeat split; assumption.
Qed.

(** X12. Without a phone number on file no SMS row is written, whatever
    the policy and the outside say. *)
Theorem no_phone_number_no_sms
    (w : world) (created : bool) (ty sev : string) (user : User)
    (s : option NotificationSetting) (db : list NotificationLog) :
  truthy (phone_number user) = false ->
  writes_of "sms"
    (journal (send_alert_notifications w created
                {| alert_type := ty; severity := sev; camera := Some (user, s) |} db))
  = [].
Proof.
  intros Hphone.
  destruct (final_attempts w created
              {| alert_type := ty; severity := sev; camera := Some (user, s) |} db)
    as (ws1 & ws2 & ws3 & -> & T1 & T2 & T3 & O2).
  rewrite (O2 user s eq_refl Hphone).
  pose proof (attempt_typed w _ _ T1) as Y1.
  pose proof (attempt_typed w _ _ T3) as Y3.
  unfold writes_of. rewrite !List.filter_app.
  fold (writes_of "sms" ws1) (writes_of "sms" ws3).
  rewrite (typed_other "email" "sms" ws1 Y1), (typed_other "push" "sms" ws3 Y3)
    by discriminate.
  reflexivity.
Qed.

Lemma no_phone_number_no_sms_witness :
  truthy (phone_number {| email := "owner@example.org"; phone_number := Some "" |})
    = false /\
  writes_of "sms"
    (journal (send_alert_notifications (calm (at_ 12 0) None) true
                {| alert_type := "fall"; severity := "critical";
                   camera := Some ({| email := "owner@example.org";
                                      phone_number := Some "" |},
                                   Some (all_on false (at_ 22 0) (at_ 7 0))) |} []))
  = [].
Proof.
  split; [reflexivity|].
  exact (no_phone_number_no_sms (calm (at_ 12 0) None) true "fall" "critical"
           {| email := "owner@example.org"; phone_number := Some "" |}
           (Some (all_on false (at_ 22 0) (at_ 7 0))) [] eq_refl).
Defined.

End NotificationEngineRunFacts.

(** ** The configurations and the model files of utils/model_manager.py *)

Module ModelManagerRunFacts.
Import Py ModelManager ModelManagerRun.

Lemma assign_field_present {V} (value : option V) set detector_key configs config :
  configs !! detector_key = Some config ->
  assign_field value set detector_key configs
  = Ret (<[detector_key := match value with Some v => set v config | None => config end]>
           configs).
Proof.
  intros H. unfold assign_field, config_at, mbind, res_bind. destruct value.
  - rewrite H. reflexivity.
  - now rewrite insert_id.
Qed.

(** What [update_detector_config] does, in one step. *)
Lemma update_detector_config_unfold self detector_key conf iou size :
  update_detector_config self detector_key conf iou size
  = (with_configs self
       (<[detector_key := updated (get_detector_config self detector_key) conf iou size]>
          (detector_configs self)),
     Ret (updated (get_detector_config self detector_key) conf iou size)).
Proof.
  unfold update_detector_config, get_detector_config.
  destruct (detector_configs self !! detector_key) as [c|] eqn:E.
  - rewrite (assign_field_present conf set_conf_threshold _ _ c E).
    rewrite (assign_field_present iou set_iou_threshold _ _ _ (lookup_insert_eq _ _ _)).
    rewrite (assign_field_present size set_image_size _ _ _ (lookup_insert_eq _ _ _)).
    unfold config_at. rewrite lookup_insert_eq, !insert_insert_eq.
    destruct c, conf, iou, size; reflexivity.
  - rewrite (assign_field_present conf set_conf_threshold _ _ _ (lookup_insert_eq _ _ _)).
    rewrite (assign_field_present iou set_iou_threshold _ _ _ (lookup_insert_eq _ _ _)).
    rewrite (assign_field_present size set_image_size _ _ _ (lookup_insert_eq _ _ _)).
    unfold config_at. rewrite lookup_insert_eq, !insert_insert_eq.
    destruct conf, iou, size; reflexivity.
Qed.

Lemma get_after_update self detector_key config :
  get_detector_config
    (with_configs self (<[detector_key := config]> (detector_configs self)))
    detector_key = config.
Proof. unfold get_detector_config. simpl. now rewrite lookup_insert_eq. Qed.

(** X13. [update_detector_config] never raises; it returns the
    configuration that [get_detector_config] reads afterwards, in which
    each given field has the given value and each omitted field the value
    it had (the default when the key had no configuration).  The
    configurations of the other keys, the registry and the active key
    are untouched. *)
Theorem updated_config_is_read_back
    (self : ModelManager) (detector_key : string) (conf iou : option Q)
    (size : option Z) :
  let before := get_detector_config self detector_key in
  let self' := fst (update_detector_config self detector_key conf iou size) in
  let after := get_detector_config self' detector_key in
  snd (update_detector_config self detector_key conf iou size) = Ret after /\
  conf_threshold after = default (conf_threshold before) conf /\
  iou_threshold after = default (iou_threshold before) iou /\
  image_size after = default (image_size before) size /\
  (forall other, other <> detector_key ->
     detector_configs self' !! other = detector_configs self !! other) /\
  detectors self' = detectors self /\
  active_detector_key self' = active_detector_key self.
Proof.
  intros before self' after. subst before self' after.
  rewrite update_detector_config_unfold. simpl. rewrite get_after_update.
  split; [reflexivity|]. split; [reflexivity|]. split; [reflexivity|].
  split; [reflexivity|]. split; [|split; reflexivity].
  intros other Hne. now rewrite lookup_insert_ne.
Qed.

(** X14. The key of an update is not checked against the registry: for a
    key that names no detector and has no configuration, the update
    answers with the default configuration overlaid with the given
    fields and leaves an entry for the key, while [get_detector] still
    rejects the key. *)
Theorem unregistered_key_gets_a_config
    (self : ModelManager) (detector_key : string) (conf iou : option Q)
    (size : option Z) :
  detectors self !! detector_key = None ->
  detector_configs self !! detector_key = None ->
  let self' := fst (update_detector_config self detector_key conf iou size) in
  let config := {| conf_threshold := default (25 # 100) conf;
                   iou_threshold := default (45 # 100) iou;
                   image_size := default 640%Z size |} in
  snd (update_detector_config self detector_key conf iou size) = Ret config /\
  detector_configs self' !! detector_key = Some config /\
  get_detector self' (Some detector_key) = Raise (unknown_detector detector_key).
Proof.
  intros Hdet Hcfg self' config. subst self' config.
  rewrite update_detector_config_unfold. simpl.
  unfold get_detector_config. rewrite Hcfg. unfold updated. simpl.
  split; [reflexivity|]. split; [apply lookup_insert_eq|].
  unfold get_detector. simpl. now rewrite Hdet.
Qed.

Lemma unregistered_key_gets_a_config_witness :
  detectors (init (fun k => k)) !! "smoke" = None /\
  detector_configs (init (fun k => k)) !! "smoke" = None /\
  let self' := fst (update_detector_config (init (fun k => k)) "smoke"
                      (Some (1 # 2)) None None) in
  let config := {| conf_threshold := default (25 # 100) (Some (1 # 2));
                   iou_threshold := default (45 # 100) None;
                   image_size := default 640%Z None |} in
  snd (update_detector_config (init (fun k => k)) "smoke" (Some (1 # 2)) None None)
    = Ret config /\
  detector_configs self' !! "smoke" = Some config /\
  get_detector self' (Some "smoke") = Raise (unknown_detector "smoke").
Proof.
  split; [reflexivity|]. split; [reflexivity|].
  exact (unregistered_key_gets_a_config (init (fun k => k)) "smoke" (Some (1 # 2))
           None None eq_refl eq_refl).
Defined.

Lemma step_detectors self c : detectors (step self c) = detectors self.
Proof.
  destruct c as [k|k conf iou size]; simpl.
  - unfold set_active_detector. now destruct (detectors self !! k).
  - now rewrite update_detector_config_unfold.
Qed.

Lemma step_active self c :
  is_Some (detectors self !! active_detector_key self) ->
  is_Some (detectors (step self c) !! active_detector_key (step self c)).
Proof.
  intros H. destruct c as [k|k conf iou size]; simpl.
  - unfold set_active_detector.
    destruct (detectors self !! k) as [d|] eqn:E; simpl; [|exact H].
    rewrite E. now exists d.
  - rewrite update_detector_config_unfold. exact H.
Qed.

Lemma run_active self calls :
  is_Some (detectors self !! active_detector_key self) ->
  detectors (run self calls) = detectors self /\
  is_Some (detectors (run self calls) !! active_detector_key (run self calls)).
Proof.
  unfold run. revert self. induction calls as [|c calls IH]; intros self H; simpl.
  - now split.
  - destruct (IH (step self c) (step_active self c H)) as [Hd Ha].
    split; [now rewrite Hd, step_detectors | exact Ha].
Qed.

(** X15. Whatever calls of [set_active_detector] and
    [update_detector_config] a manager has seen, with whatever arguments
    and whether they failed or not, its registry is the one it started
    with and [get_detector()] answers with the detector registered under
    the active key: it does not raise. *)
Theorem active_detector_always_resolves (self : ModelManager) (calls : list call) :
  is_Some (detectors self !! active_detector_key self) ->
  detectors (run self calls) = detectors self /\
  exists detector,
    detectors self !! active_detector_key (run self calls) = Some detector /\
    get_detector (run self calls) None = Ret detector.
Proof.
  intros H. destruct (run_active self calls H) as [Hd [d Ha]].
  split; [exact Hd|]. exists d. split; [now rewrite <- Hd|].
  unfold get_detector. simpl. now rewrite Ha.
Qed.

Lemma active_detector_always_resolves_witness :
  is_Some (detectors (init (fun k => k)) !! active_detector_key (init (fun k => k))) /\
  detectors (run (init (fun k => k))
               [SetActive "fall"; SetActive "smoke";
                UpdateConfig "smoke" (Some (1 # 2)) None None])
    = detectors (init (fun k => k)) /\
  exists detector,
    detectors (init (fun k => k))
      !! active_detector_key
           (run (init (fun k => k))
              [SetActive "fall"; SetActive "smoke";
               UpdateConfig "smoke" (Some (1 # 2)) None None]) = Some detector /\
    get_detector (run (init (fun k => k))
                    [SetActive "fall"; SetActive "smoke";
                     UpdateConfig "smoke" (Some (1 # 2)) None None]) None
      = Ret detector.
Proof.
  assert (H : is_Some (detectors (init (fun k => k))
                         !! active_detector_key (init (fun k => k)))).
  { eexists. reflexivity. }
  split; [exact H|].
  exact (active_detector_always_resolves (init (fun k => k))
           [SetActive "fall"; SetActive "smoke";
            UpdateConfig "smoke" (Some (1 # 2)) None None] H).
Defined.

Lemma missing_fold exists_ items acc :
  foldl (fun missing_models '(key, detector) =>
           if negb (exists_ (model_path detector))
           then missing_models ++ [{| key := key; missing_name := name detector;
                                      path := model_path detector |}]
           else missing_models) acc items
  = acc ++ omap (entry exists_) items.
Proof.
  revert acc. induction items as [|[k d] items IH]; intros acc; simpl.
  - now rewrite app_nil_r.
  - rewrite IH. unfold entry at 2. simpl.
    destruct (negb (exists_ (model_path d))); [now rewrite <- app_assoc | reflexivity].
Qed.

Lemma missing_models_are exists_ self :
  missing_models (validate_models exists_ self)
  = omap (entry exists_) (map_to_list (detectors self)).
Proof. unfold validate_models. simpl. now rewrite missing_fold. Qed.

Lemma missing_member exists_ self m :
  m ∈ missing_models (validate_models exists_ self) <->
  exists detector,
    detectors self !! key m = Some detector /\
    exists_ (model_path detector) = false /\
    missing_name m = name detector /\ path m = model_path detector.
Proof.
  rewrite missing_models_are, list_elem_of_omap. split.
  - intros ([k d] & Hin & Hentry). apply elem_of_map_to_list in Hin.
    unfold entry in Hentry. simpl in Hentry.
    destruct (exists_ (model_path d)) eqn:E; simpl in Hentry; [discriminate|].
    injection Hentry as <-. simpl. now exists d.
  - intros (d & Hd & Hex & Hname & Hpath). exists (key m, d).
    split; [now apply elem_of_map_to_list|].
    unfold entry. simpl. rewrite Hex. simpl. destruct m. simpl in *. now subst.
Qed.

(** X16. [validate_models] lists exactly the registered detectors whose
    model file does not exist, each under its own key with its name and
    path, and says [all_valid] exactly when every registered detector's
    file exists, which is when the list is empty. *)
Theorem validation_lists_the_missing_files
    (exists_ : string -> bool) (self : ModelManager) :
  let report := validate_models exists_ self in
  (forall m, m ∈ missing_models report <->
     exists detector,
       detectors self !! key m = Some detector /\
       exists_ (model_path detector) = false /\
       missing_name m = name detector /\ path m = model_path detector) /\
  (all_valid report = true <-> missing_models report = []) /\
  (all_valid report = true <->
     forall detector_key detector,
       detectors self !! detector_key = Some detector ->
       exists_ (model_path detector) = true).
Proof.
  intros report. subst report.
  assert (Hall : all_valid (validate_models exists_ self) = true <->
                 missing_models (validate_models exists_ self) = []).
  { unfold validate_models. simpl. rewrite Nat.eqb_eq. apply length_zero_iff_nil. }
  split; [apply missing_member|]. split; [exact Hall|].
  rewrite Hall. split.
  - intros Hnil k d Hd. destruct (exists_ (model_path d)) eqn:E; [reflexivity|].
    assert (Hin : {| key := k; missing_name := name d; path := model_path d |}
                  ∈ missing_models (validate_models exists_ self)).
    { apply missing_member. now exists d. }
    rewrite Hnil in Hin. now apply elem_of_nil in Hin.
  - intros Hall'.
    destruct (missing_models (validate_models exists_ self)) as [|m ms] eqn:E;
      [reflexivity|].
    assert (Hin : m ∈ missing_models (validate_models exists_ self)).
    { rewrite E. apply elem_of_cons. now left. }
    apply missing_member in Hin. destruct Hin as (d & Hd & Hex & _).
    rewrite (Hall' _ _ Hd) in Hex. discriminate.
Qed.

(** X17. A configuration update reaches the live runs of its detector
    and nothing else: a live run with the updated detector scores its
    frames against the threshold just set, while no run over a video
    file (whose thresholds come with the call) and no live run with
    another detector changes. *)
Theorem config_update_is_local
    (self : ModelManager) (detector_key : string) (conf iou : option Q)
    (size : option Z) :
  let self' := fst (update_detector_config self detector_key conf iou size) in
  (forall thr detector camera frames duration frame_limit,
     conf = Some thr ->
     detectors self !! detector_key = Some detector ->
     snd (VideoProcessor.process_camera_stream self' (Some camera) detector_key
            (Some frames) duration frame_limit)
     = (st ← VideoProcessor.stream_loop thr (VideoProcessor.frame_rate camera)
               duration frame_limit frames
               (VideoProcessor.start_run
                  (VideoProcessor.RealTimeDetection (name detector)));
        Ret (VideoProcessor.finish (name detector)
               (VideoProcessor.NoneInStream (name detector)) st))) /\
  (forall video key conf_threshold,
     VideoProcessor.process_video self' video key conf_threshold
     = VideoProcessor.process_video self video key conf_threshold) /\
  (forall camera other stream duration frame_limit,
     other <> detector_key ->
     VideoProcessor.process_camera_stream self' camera other stream duration frame_limit
     = VideoProcessor.process_camera_stream self camera other stream duration
         frame_limit).
Proof.
  intros self'. subst self'. rewrite update_detector_config_unfold. simpl.
  split; [|split].
  - intros thr detector camera frames duration frame_limit -> Hd.
    unfold VideoProcessor.process_camera_stream, get_detector. simpl.
    rewrite Hd, get_after_update. reflexivity.
  - reflexivity.
  - intros camera other stream duration frame_limit Hne.
    unfold VideoProcessor.process_camera_stream, get_detector, get_detector_config.
    simpl. now rewrite lookup_insert_ne.
Qed.

End ModelManagerRunFacts.

(** ** The connection checks and the status updates of
    utils/camera_manager.py *)

Module CameraManagerRunFacts.
Import Py CameraManager CameraManagerRun.

Ltac inner :=
  match goal with
  | |- context [match ?x with _ => _ end] =>
      lazymatch x with
      | context [match _ with _ => _ end] => fail
      | _ => destruct x
      end
  end.

Ltac two_keys :=
  unfold try_except, mbind, res_bind, bind;
  repeat (simpl; inner); simpl;
  first [ eexists _, _; reflexivity
        | eexists; reflexivity ].

Lemma verify_rtsp_answered w camera : answered (_verify_rtsp_connection w camera).
Proof. unfold answered, _verify_rtsp_connection. two_keys. Qed.

Lemma verify_local_answered w camera : answered (_verify_local_connection w camera).
Proof. unfold answered, _verify_local_connection. two_keys. Qed.

Lemma verify_file_answered w camera : answered (_verify_file_connection w camera).
Proof. unfold answered, _verify_file_connection. two_keys. Qed.

(** The check of an HTTP camera answers, or raises what is not an
    exception of [requests]. *)
Lemma verify_http_answered w camera :
  answered (_verify_http_connection w camera) \/
  exists e, _verify_http_connection w camera = Raise e.
Proof.
  unfold answered, _verify_http_connection.
  destruct (requests_get w (url camera)) as [response| |e|e].
  - left. destruct (_ && _); eexists _, _; reflexivity.
  - left. eexists _, _; reflexivity.
  - left. eexists _, _; reflexivity.
  - right. now exists e.
Qed.

Lemma verify_answered w camera :
  exists success message,
    verify_camera_connection w camera = Ret (result2 success message) /\
    (success = true -> camera_type camera ∈ supported).
Proof.
  unfold verify_camera_connection, supported.
  destruct (String.eqb_spec (camera_type camera) "rtsp") as [E|_].
  { destruct (verify_rtsp_answered w camera) as (b & m & ->).
    exists b, m. split; [reflexivity|]. intros _. rewrite E. set_solver. }
  destruct (String.eqb_spec (camera_type camera) "http") as [E|_].
  { destruct (verify_http_answered w camera) as [(b & m & ->) | (e & ->)].
    - exists b, m. split; [reflexivity|]. intros _. rewrite E. set_solver.
    - eexists _, _. split; [reflexivity|]. discriminate. }
  destruct (String.eqb_spec (camera_type camera) "local") as [E|_].
  { destruct (verify_local_answered w camera) as (b & m & ->).
    exists b, m. split; [reflexivity|]. intros _. rewrite E. set_solver. }
  destruct (String.eqb_spec (camera_type camera) "file") as [E|_].
  { destruct (verify_file_answered w camera) as (b & m & ->).
    exists b, m. split; [reflexivity|]. intros _. rewrite E. set_solver. }
  eexists _, _. split; [reflexivity|]. discriminate.
Qed.

Lemma result2_keys success message :
  dom (result2 success message) = ({[ "success"; "message" ]} : gset string).
Proof. unfold result2. rewrite dom_insert_L, dom_singleton_L. set_solver. Qed.

(** X18. Whatever the camera and whatever the outside answers or raises,
    [verify_camera_connection] returns a dictionary with exactly the keys
    success and message; it never raises, and it reports success only
    for one of the four camera types it knows. *)
Theorem verify_camera_connection_never_raises (w : world) (camera : Camera) :
  exists success message,
    verify_camera_connection w camera = Ret (result2 success message) /\
    dom (result2 success message) = ({[ "success"; "message" ]} : gset string) /\
    result2 success message !! "success" = Some (VBool success) /\
    result2 success message !! "message" = Some (VStr message) /\
    (success = true -> camera_type camera ∈ supported).
Proof.
  destruct (verify_answered w camera) as (b & m & E & H).
  exists b, m. split; [exact E|]. split; [apply result2_keys|].
  split; [reflexivity|]. split; [reflexivity | exact H].
Qed.

Lemma update_camera_status_saved w camera :
  save_raises w "online" = None -> save_raises w "offline" = None ->
  update_camera_status w camera
  = ({| camera_type := camera_type camera; url := url camera;
        username := username camera; password := password camera;
        status := status_after w camera |}, Ret tt).
Proof.
  intros Hon Hoff. unfold update_camera_status, status_after, reachable.
  destruct (verify_answered w camera) as (b & m & -> & _).
  unfold mbind, res_bind. simpl.
  change (success_of (result2 b m)) with (Ret (A := bool) b).
  change (result2 b m !! "success") with (Some (VBool b)).
  destruct b, (String.eqb_spec (status camera) "online") as [E|E]; simpl;
    unfold update_status; rewrite ?Hon, ?Hoff; try reflexivity.
  - destruct camera; simpl in *; now subst.
  - destruct camera; reflexivity.
Qed.

Lemma update_camera_statuses_saved w cameras :
  save_raises w "online" = None -> save_raises w "offline" = None ->
  update_camera_statuses w cameras
  = (map (fun camera =>
            {| camera_type := camera_type camera; url := url camera;
               username := username camera; password := password camera;
               status := status_after w camera |}) cameras, Ret tt).
Proof.
  intros Hon Hoff. induction cameras as [|camera rest IH]; simpl; [reflexivity|].
  rewrite (update_camera_status_saved w camera Hon Hoff), IH. reflexivity.
Qed.

(** X19. When saving the statuses 'online' and 'offline' goes through,
    [update_camera_statuses] visits every camera and does not raise; a
    reachable camera ends 'online', an unreachable one that was 'online'
    ends 'offline', and any other keeps its status.  No camera becomes
    'error': the handler that sets it runs only after a failed save. *)
Theorem status_update_without_failed_saves (w : world) (cameras : list Camera) :
  save_raises w "online" = None -> save_raises w "offline" = None ->
  snd (update_camera_statuses w cameras) = Ret tt /\
  Forall2 (fun camera camera' =>
             camera_type camera' = camera_type camera /\
             url camera' = url camera /\
             username camera' = username camera /\
             password camera' = password camera /\
             status camera' = status_after w camera /\
             (status camera' = "error" -> status camera = "error"))
    cameras (fst (update_camera_statuses w cameras)).
Proof.
  intros Hon Hoff. rewrite (update_camera_statuses_saved w cameras Hon Hoff). simpl.
  split; [reflexivity|].
  induction cameras as [|camera rest IH]; simpl; constructor; [|exact IH].
  simpl. repeat split. unfold status_after.
  destruct (reachable w camera); [discriminate|].
  destruct (String.eqb (status camera) "online"); [discriminate | tauto].
Qed.

Lemma status_update_without_failed_saves_witness :
  save_raises (site (stream true true)) "online" = None /\
  save_raises (site (stream true true)) "offline" = None /\
  snd (update_camera_statuses (site (stream true true))
         [lobby "offline"; lobby "error"]) = Ret tt /\
  Forall2 (fun camera camera' =>
             camera_type camera' = camera_type camera /\
             url camera' = url camera /\
             username camera' = username camera /\
             password camera' = password camera /\
             status camera' = status_after (site (stream true true)) camera /\
             (status camera' = "error" -> status camera = "error"))
    [lobby "offline"; lobby "error"]
    (fst (update_camera_statuses (site (stream true true))
            [lobby "offline"; lobby "error"])).
Proof.
  split; [reflexivity|]. split; [reflexivity|].
  exact (status_update_without_failed_saves (site (stream true true))
           [lobby "offline"; lobby "error"] eq_refl eq_refl).
Defined.

(** X20. A save that fails ends the status update: when a reachable
    camera that is not 'online' cannot be saved as 'online', the handler
    sets 'error', and when that save fails too the exception leaves
    [update_camera_statuses]; the camera keeps the unsaved status 'error'
    and the cameras after it are not visited. *)
Theorem failed_saves_end_the_status_update
    (w : world) (camera : Camera) (rest : list Camera) (e e' : string) :
  reachable w camera = true ->
  status camera <> "online" ->
  save_raises w "online" = Some e ->
  save_raises w "error" = Some e' ->
  update_camera_statuses w (camera :: rest)
  = ({| camera_type := camera_type camera; url := url camera;
        username := username camera; password := password camera;
        status := "error" |} :: rest, Raise e').
Proof.
  intros Hreach Hstatus Hon Herr. simpl.
  unfold update_camera_status. unfold reachable in Hreach.
  destruct (verify_answered w camera) as (b & m & E & _). rewrite E in *.
  cbv beta iota in Hreach.
  change (result2 b m !! "success") with (Some (VBool b)) in Hreach.
  cbv beta iota in Hreach. subst b.
  unfold mbind, res_bind. simpl.
  change (success_of (result2 true m)) with (Ret (A := bool) true).
  destruct (String.eqb_spec (status camera) "online") as [Eon|_]; [contradiction|].
  simpl. unfold update_status. rewrite Hon, Herr. reflexivity.
Qed.

Lemma failed_saves_end_the_status_update_witness :
  let w := {| cv2_VideoCapture := fun _ => Ret (stream true true);
              requests_get := fun _ => Timeout;
              isfile := fun _ => Ret false;
              MEDIA_ROOT := "/srv/media";
              save_raises := fun _ => Some "database is locked" |} in
  (reachable w (lobby "offline") = true) /\
  (status (lobby "offline") <> "online") /\
  (save_raises w "online" = Some "database is locked") /\
  (save_raises w "error" = Some "database is locked") /\
  (update_camera_statuses w [lobby "offline"; lobby "online"]
   = ([lobby "error"; lobby "online"], Raise "database is locked")).
Proof.
  intros w.
  assert (Hreach : reachable w (lobby "offline") = true) by reflexivity.
  assert (Hstatus : status (lobby "offline") <> "online") by discriminate.
  split; [exact Hreach|]. split; [exact Hstatus|].
  split; [reflexivity|]. split; [reflexivity|].
  exact (failed_saves_end_the_status_update w (lobby "offline") [lobby "online"]
           "database is locked" "database is locked" Hreach Hstatus eq_refl eq_refl).
Defined.

End CameraManagerRunFacts.

(** ** What [start] answers and what the monitor thread sees, in
    utils/stream_proxy.py *)

Module StreamProxyRunFacts.
Import StreamProxy StreamProxyRun StreamProxyFacts.

Lemma stop_not_running self :
  running_inv self -> is_running (stop self) = false.
Proof.
  intros Hrun. unfold stop. destruct (process self) as [pid|] eqn:Hp.
  - reflexivity.
  - destruct (is_running self) eqn:E; [|reflexivity].
    destruct (Hrun E) as (pid & Hpid). congruence.
Qed.

Lemma stop_running_inv self : running_inv self -> running_inv (stop self).
Proof. intros Hrun H. rewrite (stop_not_running self Hrun) in H. discriminate. Qed.

Lemma stop_stop self : stop (stop self) = stop self.
Proof.
  unfold stop at 1. destruct (process (stop self)) as [pid|] eqn:Hp; [|reflexivity].
  unfold stop in Hp. destruct (process self) as [pid'|] eqn:Hp'.
  - discriminate.
  - congruence.
Qed.

(** The child just spawned is running unless it exits early. *)
Lemma poll_after_popen ignores (exits_early : bool) self :
  handle_inv self -> alive (children self) = 0%nat ->
  let pid := length (children self) in
  let self2 := popen ignores self in
  poll_is_None pid (if exits_early then gone pid self2 else self2)
  = negb exits_early.
Proof.
  intros Hinv H0 pid self2.
  destruct (popen_inv ignores self Hinv H0) as (H2 & Hp2).
  assert (Hlive : poll_is_None pid self2 = true).
  { unfold poll_is_None, self2, popen, pid. simpl. now rewrite list_lookup_middle. }
  destruct exits_early; [|exact Hlive]. simpl.
  destruct (gone_inv self2 pid H2 Hp2) as ((_ & _ & Hlt & _) & Hnone & Hp).
  destruct (lookup_lt_is_Some_2 _ _ (Hlt pid Hp)) as [c Hc].
  unfold poll_is_None. rewrite Hc. now apply (alive_none _ pid c Hnone).
Qed.

(** What [start] leaves, by its answer. *)
Lemma start_answer l self :
  handle_inv self -> running_inv self ->
  snd (start l self) = succeeds l /\
  (succeeds l = true ->
     serving (fst (start l self)) /\ is_running (fst (start l self)) = true /\
     alive (children (fst (start l self))) = 1%nat) /\
  (succeeds l = false ->
     alive (children (fst (start l self))) = 0%nat /\
     is_running (fst (start l self)) = false).
Proof.
  intros Hinv Hrun.
  destruct (stop_inv self Hinv) as (H1 & H0 & Hnone).
  pose proof (stop_not_running self Hrun) as Hr1.
  assert (Hfail : alive (children (stop (stop self))) = 0%nat /\
                  is_running (stop (stop self)) = false).
  { now rewrite stop_stop. }
  unfold start. destruct l as [| |exits_early ignores monitor_raises].
  - simpl. split; [reflexivity|]. split; [discriminate|]. intros _. exact Hfail.
  - simpl. split; [reflexivity|]. split; [discriminate|]. intros _. exact Hfail.
  - cbv zeta. rewrite (poll_after_popen ignores exits_early (stop self) H1 H0).
    destruct (popen_inv ignores (stop self) H1 H0) as (H2 & Hp2).
    destruct exits_early; simpl.
    + split; [reflexivity|]. split; [discriminate|]. intros _.
      destruct (gone_inv _ _ H2 Hp2) as (_ & Hg & _). split; [exact Hg|].
      unfold gone. destruct (children (popen ignores (stop self)) !! _); exact Hr1.
    + destruct monitor_raises; simpl.
      * split; [reflexivity|]. split; [discriminate|]. intros _.
        assert (H4 : handle_inv (set_running true (popen ignores (stop self))))
          by exact H2.
        destruct (stop_inv _ H4) as (_ & Hs & _). split; [exact Hs|].
        reflexivity.
      * split; [reflexivity|]. split; [|discriminate]. intros _.
        split; [|split; [reflexivity|]].
        -- exists (length (children (stop self))). split; [reflexivity|].
           unfold poll_is_None. simpl. now rewrite list_lookup_middle.
        -- simpl. rewrite alive_app, H0. reflexivity.
Qed.

Lemma start_running_inv l self :
  handle_inv self -> running_inv self -> running_inv (fst (start l self)).
Proof.
  intros Hinv Hrun H.
  destruct (start_answer l self Hinv Hrun) as (_ & Hyes & Hno).
  destruct (succeeds l).
  - destruct (Hyes eq_refl) as ((pid & Hp & _) & _). now exists pid.
  - destruct (Hno eq_refl) as (_ & Hr). congruence.
Qed.

Lemma child_exits_running_inv self : running_inv self -> running_inv (child_exits self).
Proof.
  intros Hrun. unfold child_exits.
  destruct (process self) as [pid|] eqn:Hp; [|exact Hrun].
  assert (Hg : process (gone pid self) = Some pid).
  { unfold gone. now destruct (children self !! pid). }
  destruct (stop_event (gone pid self)); intros _; exists pid; exact Hg.
Qed.

Lemma step_running_inv self c :
  handle_inv self -> running_inv self -> running_inv (step self c).
Proof.
  intros Hinv Hrun. destruct c as [l| |]; simpl.
  - now apply start_running_inv.
  - now apply stop_running_inv.
  - now apply child_exits_running_inv.
Qed.

Lemma run_from_running_inv calls : forall self,
  handle_inv self -> running_inv self ->
  running_inv (fold_left step calls self).
Proof.
  induction calls as [|c calls IH]; intros self Hinv Hrun; simpl; [exact Hrun|].
  apply IH; [now apply step_inv | now apply step_running_inv].
Qed.

Lemma run_running_inv calls : running_inv (run calls).
Proof.
  apply run_from_running_inv; [apply handle_inv_init|]. intros H. discriminate.
Qed.

(** X21. Whatever calls came before, [start] answers True exactly when
    the child was spawned, is still running after the two seconds and
    the monitor thread started; then the proxy holds the handle of the
    one live child and [is_running] is set.  When it answers False no
    child is left running and [is_running] is not set. *)
Theorem start_answers_for_the_child (calls : list call) (l : launch) :
  let self := fst (start l (run calls)) in
  snd (start l (run calls)) = succeeds l /\
  (snd (start l (run calls)) = true ->
     serving self /\ is_running self = true /\ alive (children self) = 1%nat) /\
  (snd (start l (run calls)) = false ->
     alive (children self) = 0%nat /\ is_running self = false).
Proof.
  intros self. subst self.
  destruct (start_answer l (run calls) (run_inv calls) (run_running_inv calls))
    as (Hans & Hyes & Hno).
  rewrite Hans. split; [reflexivity|]. split; assumption.
Qed.

(** X22. Whatever calls came before, [stop] leaves the proxy without a
    handle, with [is_running] cleared and no child running; a second
    [stop] changes nothing. *)
Theorem stop_leaves_nothing_running (calls : list call) :
  let self := stop (run calls) in
  process self = None /\ is_running self = false /\
  alive (children self) = 0%nat /\ stop self = self.
Proof.
  intros self. subst self.
  destruct (stop_inv (run calls) (run_inv calls)) as (_ & H0 & Hnone).
  split; [exact Hnone|]. split; [apply stop_not_running, run_running_inv|].
  split; [exact H0 | apply stop_stop].
Qed.

Lemma stop_sets_event self pid :
  process self = Some pid -> stop_event (stop self) = true.
Proof.
  intros Hp. unfold stop. rewrite Hp. unfold stop_process. simpl.
  destruct (poll_is_None pid _); [|reflexivity].
  unfold terminate_and_wait. simpl.
  destruct (children self !! pid) as [c|] eqn:Hc; [|reflexivity].
  destruct (ignores_sigterm c); [|reflexivity].
  unfold kill, gone. simpl. rewrite Hc. reflexivity.
Qed.

Lemma start_event l self :
  succeeds l = true -> stop_event (fst (start l self)) = stop_event (stop self).
Proof.
  destruct l as [| |[] ig []]; try discriminate. intros _.
  unfold start. cbv zeta.
  match goal with
  | |- context [poll_is_None ?a ?b] => destruct (poll_is_None a b)
  end; reflexivity.
Qed.

(** X23. The stop event is set by [stop] and never cleared.  So when
    [start] succeeds on a proxy that already held a handle, the monitor
    thread it starts sees the event set and ends at once: when the child
    later exits, [is_running] stays set although no child is running.
    On a proxy that never held a handle the exit is noticed. *)
Theorem restart_blinds_the_monitor
    (calls : list call) (l : launch) :
  succeeds l = true ->
  is_Some (process (run calls)) ->
  let fresh := child_exits (fst (start l init)) in
  let self := run calls in
  let again := child_exits (fst (start l self)) in
  (is_running fresh = false /\ alive (children fresh) = 0%nat) /\
  stop_event (fst (start l self)) = true /\
  is_running again = true /\ alive (children again) = 0%nat.
Proof.
  intros Hl [pid0 Hp0] fresh self again.
  assert (Hexit : forall s,
            handle_inv s -> running_inv s ->
            alive (children (child_exits (fst (start l s)))) = 0%nat /\
            is_running (child_exits (fst (start l s)))
            = stop_event (fst (start l s))).
  { intros s Hinv Hrun.
    destruct (start_answer l s Hinv Hrun) as (_ & Hyes & _).
    destruct (Hyes Hl) as ((pid & Hp & _) & Hr & _).
    pose proof (start_inv l s Hinv) as Hinv'.
    destruct (gone_inv _ pid Hinv' Hp) as (_ & Hg & _).
    assert (Hev : stop_event (gone pid (fst (start l s)))
                  = stop_event (fst (start l s))).
    { unfold gone. now destruct (children (fst (start l s)) !! pid). }
    assert (Hrg : is_running (gone pid (fst (start l s))) = true).
    { unfold gone. destruct (children (fst (start l s)) !! pid); exact Hr. }
    unfold child_exits. rewrite Hp, Hev.
    destruct (stop_event (fst (start l s))); simpl.
    - split; [exact Hg | exact Hrg].
    - split; [exact Hg | reflexivity]. }
  split.
  - destruct (Hexit init handle_inv_init) as (H0 & Hr).
    { intros H. discriminate. }
    split; [|exact H0]. fold fresh in Hr. rewrite Hr.
    destruct l as [| |[] ig []]; try discriminate. reflexivity.
  - fold self in Hp0.
    destruct (Hexit self (run_inv calls) (run_running_inv calls)) as (H0 & Hr).
    assert (Hev : stop_event (fst (start l self)) = true).
    { rewrite (start_event l self Hl). now apply (stop_sets_event self pid0). }
    split; [exact Hev|]. split; [|exact H0].
    fold again in Hr. now rewrite Hr.
Qed.

Lemma restart_blinds_the_monitor_witness :
  succeeds (Spawned false false false) = true /\
  is_Some (process (run [Start (Spawned false false false)])) /\
  let fresh := child_exits (fst (start (Spawned false false false) init)) in
  let self := run [Start (Spawned false false false)] in
  let again := child_exits (fst (start (Spawned false false false) self)) in
  (is_running fresh = false /\ alive (children fresh) = 0%nat) /\
  stop_event (fst (start (Spawned false false false) self)) = true /\
  is_running again = true /\ alive (children again) = 0%nat.
Proof.
  assert (H : is_Some (process (run [Start (Spawned false false false)]))).
  { eexists. reflexivity. }
  split; [reflexivity|]. split; [exact H|].
  exact (restart_blinds_the_monitor [Start (Spawned false false false)]
           (Spawned false false false) eq_refl H).
Defined.

End StreamProxyRunFacts.

(** ** The stream table of utils/camera_manager.py *)

Module CameraStreamsFacts.
Import Py CameraManager StreamProxyRun CameraStreams.

Lemma start_stream_proxy_cases o camera self :
  (exists l,
      o = Created l /\ succeeds l = true /\
      _start_stream_proxy o camera self
      = ({| active_streams :=
              <[id camera := fst (StreamProxy.start l StreamProxy.init)]>
                (active_streams self) |},
         result2 true "Stream proxy started successfully")) \/
  ((forall l, o = Created l -> succeeds l = false) /\
   exists message, _start_stream_proxy o camera self = (self, result2 false message)).
Proof.
  destruct o as [e|l]; unfold _start_stream_proxy.
  - right. split; [discriminate|]. eexists. reflexivity.
  - destruct (StreamProxyRunFacts.start_answer l StreamProxy.init
                StreamProxyFacts.handle_inv_init) as (Hans & _).
    { intros H. discriminate. }
    destruct (StreamProxy.start l StreamProxy.init) as [proxy success] eqn:Es.
    cbn [fst snd] in *. subst success. destruct (succeeds l) eqn:El.
    + left. exists l. rewrite Es. split; [reflexivity|].
      split; [exact El | reflexivity].
    + right. split; [intros l' [= <-]; exact El|]. eexists. reflexivity.
Qed.

Lemma proxied_cases o camera self :
  (is_Some (active_streams self !! id camera) /\
   proxied o camera self = (self, Ret (available camera))) \/
  (active_streams self !! id camera = None /\
   exists l, o = Created l /\ succeeds l = true /\
     proxied o camera self
     = ({| active_streams :=
             <[id camera := fst (StreamProxy.start l StreamProxy.init)]>
               (active_streams self) |},
        Ret (available camera))) \/
  (active_streams self !! id camera = None /\
   (forall l, o = Created l -> succeeds l = false) /\
   exists message, proxied o camera self = (self, Ret (result2 false message))).
Proof.
  unfold proxied. destruct (active_streams self !! id camera) as [proxy|] eqn:E.
  - left. split; [now exists proxy | reflexivity].
  - right.
    destruct (start_stream_proxy_cases o camera self)
      as [(l & -> & Hl & ->) | (Hl & message & ->)].
    + left. split; [reflexivity|]. exists l. repeat split; try assumption.
    + right. split; [reflexivity|]. split; [exact Hl|]. now exists message.
Qed.

Lemma file_url_answer w camera : url_answer (file_url w camera).
Proof.
  unfold file_url, mbind, res_bind.
  destruct (CameraManagerRunFacts.verify_file_answered w camera) as (b & m & ->).
  simpl. change (success_of (result2 b m)) with (Ret (A := bool) b). simpl.
  destruct b; simpl.
  - right. eexists _, _. reflexivity.
  - left. now exists m.
Qed.

Lemma get_stream_url_answer w o camera self :
  url_answer (snd (get_stream_url w o camera self)).
Proof.
  unfold get_stream_url.
  assert (Hp : url_answer
                 (try_except (snd (proxied o camera self))
                    (fun e => Ret (result2 false (cat "Stream error: " e))))).
  { destruct (proxied_cases o camera self)
      as [(_ & ->) | [(_ & l & _ & _ & ->) | (_ & _ & m & ->)]]; simpl.
    - right. eexists _, _. reflexivity.
    - right. eexists _, _. reflexivity.
    - left. now exists m. }
  destruct (String.eqb (camera_type (fields camera)) "rtsp").
  { destruct (proxied o camera self). exact Hp. }
  destruct (String.eqb (camera_type (fields camera)) "http").
  { right. eexists _, _. reflexivity. }
  destruct (String.eqb (camera_type (fields camera)) "local").
  { destruct (proxied o camera self). exact Hp. }
  destruct (String.eqb (camera_type (fields camera)) "file").
  { simpl. destruct (file_url_answer w (fields camera))
      as [(m & ->) | (m & u & ->)]; simpl.
    - left. now exists m.
    - right. now exists m, u. }
  left. eexists. reflexivity.
Qed.

Lemma stream_result_keys message stream_url :
  dom (stream_result message stream_url)
  = ({[ "success"; "message"; "stream_url" ]} : gset string).
Proof. unfold stream_result. rewrite !dom_insert_L, dom_singleton_L. set_solver. Qed.

(** X24. Whatever the camera, the table and the outside, [get_stream_url]
    does not raise.  Its result either says success is False and has the
    keys success and message only, or says success is True and carries a
    stream URL under a third key. *)
Theorem get_stream_url_never_raises
    (w : world) (o : creation) (camera : Device) (self : Manager) :
  exists d,
    snd (get_stream_url w o camera self) = Ret d /\
    ((d !! "success" = Some (VBool false) /\
      dom d = ({[ "success"; "message" ]} : gset string)) \/
     (d !! "success" = Some (VBool true) /\
      dom d = ({[ "success"; "message"; "stream_url" ]} : gset string) /\
      exists stream_url, d !! "stream_url" = Some (VStr stream_url))).
Proof.
  destruct (get_stream_url_answer w o camera self) as [(m & ->) | (m & u & ->)].
  - eexists. split; [reflexivity|]. left.
    split; [reflexivity | apply CameraManagerRunFacts.result2_keys].
  - eexists. split; [reflexivity|]. right.
    split; [reflexivity|]. split; [apply stream_result_keys|]. now exists u.
Qed.

Lemma get_stream_url_proxied w o camera self :
  is_proxied camera = true ->
  get_stream_url w o camera self
  = (fst (proxied o camera self),
     try_except (snd (proxied o camera self))
       (fun e => Ret (result2 false (cat "Stream error: " e)))).
Proof.
  unfold is_proxied, get_stream_url. intros H.
  destruct (String.eqb (camera_type (fields camera)) "rtsp") eqn:E1.
  { now destruct (proxied o camera self). }
  destruct (String.eqb_spec (camera_type (fields camera)) "http") as [E2|_].
  { simpl in H. rewrite E2 in H. discriminate. }
  simpl in H. rewrite H. now destruct (proxied o camera self).
Qed.

(** X25. For an RTSP or local camera: a proxy already in the table is
    used as it is, and nothing is started.  Otherwise one proxy is made
    and started; when its [start] succeeds it enters the table, holding
    the handle of its running child, and when it fails, or the proxy
    cannot be made, the table is left as it was and the result says
    so. *)
Theorem proxy_is_started_only_when_absent
    (w : world) (o : creation) (camera : Device) (self : Manager) :
  is_proxied camera = true ->
  let after := get_stream_url w o camera self in
  match active_streams self !! id camera with
  | Some _ => after = (self, Ret (available camera))
  | None =>
      match o with
      | InitRaises e =>
          after = (self, Ret (result2 false (cat "Stream proxy error: " e)))
      | Created l =>
          if succeeds l then
            after
            = ({| active_streams :=
                    <[id camera := fst (StreamProxy.start l StreamProxy.init)]>
                      (active_streams self) |},
               Ret (available camera)) /\
            serving (fst (StreamProxy.start l StreamProxy.init))
          else after = (self, Ret (result2 false "Failed to start stream proxy"))
      end
  end.
Proof.
  intros Hp after. subst after. rewrite (get_stream_url_proxied w o camera self Hp).
  unfold proxied.
  destruct (active_streams self !! id camera) as [proxy|] eqn:E; [reflexivity|].
  destruct o as [e|l]; [reflexivity|]. unfold _start_stream_proxy.
  destruct (StreamProxyRunFacts.start_answer l StreamProxy.init
              StreamProxyFacts.handle_inv_init) as (Hans & Hyes & _).
  { intros H. discriminate. }
  destruct (StreamProxy.start l StreamProxy.init) as [proxy success].
  cbn [fst snd] in *. subst success. destruct (succeeds l).
  - split; [reflexivity|]. now apply Hyes.
  - reflexivity.
Qed.

Lemma proxy_is_started_only_when_absent_witness :
  let camera := {| id := 7; name := "Lobby"; fields := lobby "offline" |} in
  let l := StreamProxy.Spawned false false false in
  is_proxied camera = true /\
  get_stream_url (site (stream true true)) (Created l) camera init
  = ({| active_streams :=
          <[7%Z := fst (StreamProxy.start l StreamProxy.init)]> ∅ |},
     Ret (available camera)) /\
  serving (fst (StreamProxy.start l StreamProxy.init)).
Proof.
  intros camera l.
  split; [reflexivity|].
  exact (proxy_is_started_only_when_absent (site (stream true true)) (Created l)
           camera init eq_refl).
Defined.

Lemma child_exits_process self :
  StreamProxy.process (StreamProxy.child_exits self) = StreamProxy.process self.
Proof.
  unfold StreamProxy.child_exits.
  destruct (StreamProxy.process self) as [pid|] eqn:Hp; [|exact Hp].
  assert (Hg : StreamProxy.process (StreamProxy.gone pid self) = Some pid).
  { unfold StreamProxy.gone. now destruct (StreamProxy.children self !! pid). }
  now destruct (StreamProxy.stop_event (StreamProxy.gone pid self)).
Qed.

Lemma streams_inv_init : streams_inv init.
Proof. intros camera_id proxy H. simpl in H. now rewrite lookup_empty in H. Qed.

Lemma started_inv l :
  succeeds l = true ->
  StreamProxy.handle_inv (fst (StreamProxy.start l StreamProxy.init)) /\
  running_inv (fst (StreamProxy.start l StreamProxy.init)) /\
  is_Some (StreamProxy.process (fst (StreamProxy.start l StreamProxy.init))).
Proof.
  intros Hl.
  assert (Hrun : running_inv StreamProxy.init) by (intros H; discriminate).
  split; [apply StreamProxyFacts.start_inv, StreamProxyFacts.handle_inv_init|].
  split; [apply StreamProxyRunFacts.start_running_inv;
          [apply StreamProxyFacts.handle_inv_init | exact Hrun]|].
  destruct (StreamProxyRunFacts.start_answer l StreamProxy.init
              StreamProxyFacts.handle_inv_init Hrun) as (_ & Hyes & _).
  destruct (Hyes Hl) as ((pid & Hpid & _) & _). now exists pid.
Qed.

Lemma get_stream_url_inv w o camera self :
  streams_inv self -> streams_inv (fst (get_stream_url w o camera self)).
Proof.
  intros Hinv.
  assert (Hp : streams_inv (fst (proxied o camera self))).
  { destruct (proxied_cases o camera self)
      as [(_ & ->) | [(_ & l & _ & Hl & ->) | (_ & _ & m & ->)]]; simpl;
      try exact Hinv.
    intros camera_id proxy. simpl.
    destruct (decide (id camera = camera_id)) as [<-|Hne].
    - rewrite lookup_insert_eq. intros [= <-]. now apply started_inv.
    - rewrite lookup_insert_ne by exact Hne. apply Hinv. }
  unfold get_stream_url.
  destruct (String.eqb (camera_type (fields camera)) "rtsp").
  { now destruct (proxied o camera self). }
  destruct (String.eqb (camera_type (fields camera)) "http"); [exact Hinv|].
  destruct (String.eqb (camera_type (fields camera)) "local").
  { now destruct (proxied o camera self). }
  destruct (String.eqb (camera_type (fields camera)) "file"); exact Hinv.
Qed.

Lemma disconnect_camera_manager w camera self :
  active_streams (manager (disconnect_camera w camera self))
  = delete (id camera) (active_streams self).
Proof.
  unfold disconnect_camera.
  destruct (active_streams self !! id camera) as [proxy|] eqn:E; simpl.
  - reflexivity.
  - symmetry. now apply delete_id.
Qed.

Lemma disconnect_camera_inv w camera self :
  streams_inv self -> streams_inv (manager (disconnect_camera w camera self)).
Proof.
  intros Hinv camera_id proxy. rewrite disconnect_camera_manager.
  intros H. apply lookup_delete_Some in H. destruct H as [_ H].
  exact (Hinv _ _ H).
Qed.

Lemma child_exits_streams_inv camera_id self :
  streams_inv self -> streams_inv (child_exits camera_id self).
Proof.
  intros Hinv camera_id' proxy'. unfold child_exits. simpl. intros H.
  apply lookup_alter_Some in H.
  destruct H as [(-> & proxy & Hproxy & ->) | (_ & H)]; [|exact (Hinv _ _ H)].
  destruct (Hinv _ _ Hproxy) as (Hh & Hr & Hs).
  split; [now apply StreamProxyFacts.child_exits_inv|].
  split; [now apply StreamProxyRunFacts.child_exits_running_inv|].
  now rewrite child_exits_process.
Qed.

Lemma step_streams_inv self c : streams_inv self -> streams_inv (step self c).
Proof.
  intros Hinv. destruct c as [w o camera|w camera|camera_id]; simpl.
  - now apply get_stream_url_inv.
  - now apply disconnect_camera_inv.
  - now apply child_exits_streams_inv.
Qed.

Lemma run_streams_inv calls : streams_inv (run calls).
Proof.
  unfold run. generalize streams_inv_init. generalize init.
  induction calls as [|c calls IH]; intros self Hinv; simpl; [exact Hinv|].
  apply IH. now apply step_streams_inv.
Qed.

(** X26. A proxy stays in the table when its child exits, and
    [get_stream_url] keeps answering for the camera with the proxy's
    URL: it starts nothing, although no child of that proxy is
    running. *)
Theorem dead_stream_is_not_restarted
    (calls : list call) (w : world) (o : creation) (camera : Device) :
  is_proxied camera = true ->
  is_Some (active_streams (run calls) !! id camera) ->
  let self := child_exits (id camera) (run calls) in
  get_stream_url w o camera self = (self, Ret (available camera)) /\
  exists proxy,
    active_streams self !! id camera = Some proxy /\
    StreamProxy.alive (StreamProxy.children proxy) = 0%nat.
Proof.
  intros Hp [proxy Hproxy] self.
  destruct (run_streams_inv calls _ _ Hproxy) as (Hh & _ & (pid & Hpid)).
  assert (Hl : active_streams self !! id camera
               = Some (StreamProxy.child_exits proxy)).
  { unfold self, child_exits. simpl. now rewrite lookup_alter_eq, Hproxy. }
  split.
  - rewrite (get_stream_url_proxied w o camera self Hp). unfold proxied.
    rewrite Hl. reflexivity.
  - exists (StreamProxy.child_exits proxy). split; [exact Hl|].
    unfold StreamProxy.child_exits. rewrite Hpid.
    destruct (StreamProxyFacts.gone_inv proxy pid Hh Hpid) as (_ & H0 & _).
    now destruct (StreamProxy.stop_event (StreamProxy.gone pid proxy)).
Qed.

Lemma dead_stream_is_not_restarted_witness :
  let camera := {| id := 7; name := "Lobby"; fields := lobby "offline" |} in
  let w := site (stream true true) in
  let calls :=
    [GetStreamUrl w (Created (StreamProxy.Spawned false false false)) camera] in
  is_proxied camera = true /\
  is_Some (active_streams (run calls) !! id camera) /\
  let self := child_exits (id camera) (run calls) in
  get_stream_url w (InitRaises "unused") camera self
  = (self, Ret (available camera)) /\
  exists proxy,
    active_streams self !! id camera = Some proxy /\
    StreamProxy.alive (StreamProxy.children proxy) = 0%nat.
Proof.
  intros camera w calls.
  assert (H : is_Some (active_streams (run calls) !! id camera)).
  { eexists. vm_compute. reflexivity. }
  split; [reflexivity|]. split; [exact H|].
  exact (dead_stream_is_not_restarted calls w (InitRaises "unused") camera
           eq_refl H).
Defined.

(** X27. Whatever happened to the manager before, [disconnect_camera]
    takes the camera's proxy out of the table and stops it: the proxy is
    left without a handle and without a running child.  The camera
    object ends 'disabled', and the result says success exactly when
    saving that status went through; the stream is gone either way. *)
Theorem disconnect_stops_the_stream
    (calls : list call) (w : world) (camera : Device) :
  let after := disconnect_camera w camera (run calls) in
  active_streams (manager after) = delete (id camera) (active_streams (run calls)) /\
  (stopped after = None <-> active_streams (run calls) !! id camera = None) /\
  (forall proxy,
     stopped after = Some proxy ->
     StreamProxy.process proxy = None /\ StreamProxy.is_running proxy = false /\
     StreamProxy.alive (StreamProxy.children proxy) = 0%nat) /\
  status (fields (camera_after after)) = "disabled" /\
  exists message,
    result after
    = Ret (result2 match save_raises w "disabled" with
                   | Some _ => false
                   | None => true
                   end message).
Proof.
  intros after. subst after.
  split; [apply disconnect_camera_manager|].
  pose proof (run_streams_inv calls) as Hinv.
  unfold disconnect_camera.
  destruct (active_streams (run calls) !! id camera) as [proxy|] eqn:E; simpl.
  - destruct (Hinv _ _ E) as (Hh & Hr & _).
    destruct (StreamProxyFacts.stop_inv proxy Hh) as (_ & H0 & Hnone).
    split; [split; discriminate|]. split.
    { intros proxy' [= <-]. split; [exact Hnone|].
      split; [now apply StreamProxyRunFacts.stop_not_running | exact H0]. }
    split; [reflexivity|].
    destruct (save_raises w "disabled"); eexists; reflexivity.
  - split; [split; reflexivity|]. split; [discriminate|].
    split; [reflexivity|].
    destruct (save_raises w "disabled"); eexists; reflexivity.
Qed.

End CameraStreamsFacts.

(** ** The addresses handed to OpenCV and FFmpeg *)

Module StreamUrlsFacts.
Import Py CameraManager CameraStreams StreamUrls.

Lemma cat_cons x a b : cat (String x a) b = String x (cat a b).
Proof. reflexivity. Qed.

Lemma cat_nil_l b : cat "" b = b.
Proof. reflexivity. Qed.

Lemma cat_assoc a b c : cat (cat a b) c = cat a (cat b c).
Proof.
  induction a as [|x a IH]; [reflexivity|]. rewrite !cat_cons. now f_equal.
Qed.

Lemma cat_nil_r a : cat a "" = a.
Proof.
  induction a as [|x a IH]; [reflexivity|]. rewrite cat_cons. now f_equal.
Qed.

Lemma substring_all s : String.substring 0 (String.length s) s = s.
Proof. induction s as [|c s IH]; simpl; [reflexivity|]. now f_equal. Qed.

(** A string is its first [n] characters followed by the rest. *)
Lemma substring_prefix s : forall n,
  (n <= String.length s)%nat ->
  s = cat (String.substring 0 n s) (String.substring n (String.length s - n) s).
Proof.
  induction s as [|c s IH]; intros [|n] Hn; simpl in *; try lia.
  - reflexivity.
  - rewrite cat_nil_l. f_equal. symmetry. apply substring_all.
  - rewrite cat_cons. f_equal. apply IH. lia.
Qed.

Lemma substring_skip s : forall m k,
  (m + k <= String.length s)%nat ->
  String.substring m (String.length s - m) s
  = cat (String.substring m k s)
        (String.substring (m + k) (String.length s - (m + k)) s).
Proof.
  induction s as [|c s IH]; intros m k Hk.
  - simpl in Hk. assert (m = 0)%nat as -> by lia.
    assert (k = 0)%nat as -> by lia. reflexivity.
  - destruct m as [|m].
    + change (0 + k)%nat with k. rewrite Nat.sub_0_r, substring_all.
      exact (substring_prefix (String c s) k Hk).
    + simpl in *. apply IH. lia.
Qed.

Lemma substring_length s : forall m k,
  (String.length (String.substring m k s) <= String.length s - m)%nat.
Proof.
  induction s as [|c s IH]; intros [|m] [|k]; simpl; try lia.
  - specialize (IH 0%nat k). lia.
  - apply IH.
  - apply IH.
Qed.

(** Joining the two parts of a split with the separator gives the
    string back. *)
Lemma split1_join sep s a b :
  sep <> "" -> split1 sep s = (a, Some b) -> s = cat a (cat sep b).
Proof.
  unfold split1. intros Hsep H.
  destruct (String.index 0 sep s) as [i|] eqn:Hi; [|discriminate].
  injection H as <- <-.
  pose proof (String.index_correct1 _ _ _ _ Hi) as Hsub.
  pose proof (substring_length s i (String.length sep)) as Hlen.
  rewrite Hsub in Hlen.
  assert (0 < String.length sep)%nat.
  { destruct sep; [contradiction | simpl; lia]. }
  assert (Hle : (i + String.length sep <= String.length s)%nat) by lia.
  transitivity (cat (String.substring 0 i s)
                  (String.substring i (String.length s - i) s));
    [apply substring_prefix; lia|].
  f_equal. rewrite (substring_skip s i (String.length sep) Hle).
  now rewrite Hsub.
Qed.

Lemma split1_none sep s a : split1 sep s = (a, None) -> a = s /\ contains sep s = false.
Proof.
  unfold split1, contains.
  destruct (String.index 0 sep s); [discriminate|]. now intros [= <-].
Qed.

Lemma split1_some sep s a b : split1 sep s = (a, Some b) -> contains sep s = true.
Proof.
  unfold split1, contains.
  destruct (String.index 0 sep s); [reflexivity | discriminate].
Qed.

Lemma result2_inj b m b' m' :
  Ret (result2 b m) = Ret (result2 b' m') -> b = b'.
Proof.
  intros H.
  apply (f_equal (fun r : res dict =>
                    match r with Ret d => d !! "success" | Raise _ => None end)) in H.
  change (Some (VBool b) = Some (VBool b')) in H. congruence.
Qed.

(** When the file check succeeds, it has opened the path at which the
    file was found. *)
Lemma verified_file_opens w camera message :
  _verify_file_connection w camera = Ret (result2 true message) ->
  exists there in_media cap,
    isfile w (url camera) = Ret there /\
    (if there then Ret true else isfile w (media_path w (url camera)))
    = Ret in_media /\
    in_media = true /\
    cv2_VideoCapture w (if there then url camera else media_path w (url camera))
    = Ret cap /\
    isOpened cap = Ret true.
Proof.
  unfold _verify_file_connection, try_except, mbind, res_bind, bind.
  destruct (isfile w (url camera)) as [there|e] eqn:E1;
    [|intros H; now apply result2_inj in H].
  destruct (if there then Ret true else isfile w (media_path w (url camera)))
    as [in_media|e] eqn:E2;
    [|intros H; now apply result2_inj in H].
  destruct in_media; simpl;
    [|intros H; now apply result2_inj in H].
  destruct (cv2_VideoCapture w _) as [cap|e] eqn:E3;
    [|intros H; now apply result2_inj in H].
  destruct (isOpened cap) as [[|]|e] eqn:E4; simpl;
    try (intros H; now apply result2_inj in H).
  intros _. exists there, true, cap. repeat split; assumption.
Qed.

(** X28. The address the proxy gives to FFmpeg is the one the manager
    checks.  For an RTSP camera it is the URL that the connection check
    and the frame capture open; for an HTTP camera it is built in the
    same way, and it is the direct URL that [get_stream_url] hands out
    whenever the camera's address holds no '@'; for a local camera whose
    address is ASCII text of at most 4300 characters it names the device
    with the index the manager opens; for a file whose check succeeds it
    is the path that the check has opened.  For any other camera type it
    raises. *)
Theorem proxy_input_is_the_checked_address
    (w : world) (os_name : string) (camera : Camera) :
  (camera_type camera = "rtsp" ->
   _get_input_url w os_name camera = Ret (rtsp_url camera)) /\
  (camera_type camera = "http" ->
   _get_input_url w os_name camera = Ret (rtsp_url camera) /\
   (contains "@" (url camera) = false ->
    _get_input_url w os_name camera = Ret (direct_url camera))) /\
  (camera_type camera = "local" ->
   plain_address (url camera) ->
   _get_input_url w "posix" camera
   = Ret (cat "/dev/video" (pretty (device_index camera)))) /\
  (camera_type camera = "file" ->
   forall message,
     _verify_file_connection w camera = Ret (result2 true message) ->
     exists path cap,
       _get_input_url w os_name camera = Ret path /\
       cv2_VideoCapture w path = Ret cap /\ isOpened cap = Ret true) /\
  (camera_type camera ∉ CameraManagerRun.supported ->
   exists e, _get_input_url w os_name camera = Raise e).
Proof.
  unfold _get_input_url, rtsp_url, direct_url.
  split; [intros ->; reflexivity|].
  split; [intros ->; simpl; split; [reflexivity|]; intros ->; reflexivity|].
  split; [|split].
  - intros -> _. simpl. unfold device_index, isdigit.
    now destruct (negb (String.eqb (url camera) "")).
  - intros -> message Hok. simpl.
    destruct (verified_file_opens w camera message Hok)
      as (there & in_media & cap & E1 & E2 & -> & E3 & E4).
    unfold mbind, res_bind, bind. rewrite E1.
    destruct there; simpl.
    + exists (url camera), cap. now repeat split.
    + rewrite E2. exists (media_path w (url camera)), cap. now repeat split.
  - unfold CameraManagerRun.supported. intros Hnot.
    destruct (String.eqb_spec (camera_type camera) "rtsp") as [E|_];
      [rewrite E in Hnot; set_solver|].
    destruct (String.eqb_spec (camera_type camera) "http") as [E|_];
      [rewrite E in Hnot; set_solver|].
    destruct (String.eqb_spec (camera_type camera) "local") as [E|_];
      [rewrite E in Hnot; set_solver|].
    destruct (String.eqb_spec (camera_type camera) "file") as [E|_];
      [rewrite E in Hnot; set_solver|].
    eexists. reflexivity.
Qed.

(** A local camera at address "1" on Linux: device 1. *)
Example proxy_input_of_local_device_1 (w : world) :
  plain_address "1" /\
  _get_input_url w "posix"
    {| camera_type := "local"; url := "1"; username := None; password := None;
       status := "offline" |} = Ret "/dev/video1".
Proof. split; [split; [reflexivity | simpl; lia] | reflexivity]. Qed.

(** X29. For an RTSP camera with a user name and a password whose
    address has a scheme and no '@', the URL of the model's
    [get_stream_url] and the URL the manager opens hold the same
    credentials and differ at most by one '/': the manager's URL is the
    model's when a '/' follows the host, and the model's followed by '/'
    when none does. *)
Theorem model_and_manager_urls_agree (camera : Camera) :
  camera_type camera = "rtsp" ->
  truthy (username camera) = true ->
  truthy (password camera) = true ->
  contains "@" (url camera) = false ->
  contains "://" (url camera) = true ->
  exists protocol rest model_url,
    split1 "://" (url camera) = (protocol, Some rest) /\
    get_stream_url (camera_type camera) (url camera) (username camera)
      (password camera) = Ret model_url /\
    rtsp_url camera
    = cat model_url (if contains "/" rest then "" else "/").
Proof.
  intros Hty Hu Hp Hat Hscheme.
  unfold get_stream_url, rtsp_url. rewrite Hty, Hu, Hp, Hat, Hscheme. simpl.
  destruct (split1 "://" (url camera)) as [protocol [rest|]] eqn:Hs.
  2:{ apply split1_none in Hs. destruct Hs as [_ Hs]. congruence. }
  exists protocol, rest. eexists. split; [reflexivity|]. split; [reflexivity|].
  destruct (split1 "/" rest) as [host [path|]] eqn:Hr; simpl.
  - rewrite (split1_some _ _ _ _ Hr), cat_nil_r.
    rewrite (split1_join "/" rest host path) by (discriminate || exact Hr).
    reflexivity.
  - apply split1_none in Hr. destruct Hr as [-> ->].
    rewrite !cat_assoc. reflexivity.
Qed.

Lemma model_and_manager_urls_agree_witness :
  camera_type (lobby "offline") = "rtsp" /\
  truthy (username (lobby "offline")) = true /\
  truthy (password (lobby "offline")) = true /\
  contains "@" (url (lobby "offline")) = false /\
  contains "://" (url (lobby "offline")) = true /\
  exists protocol rest model_url,
    split1 "://" (url (lobby "offline")) = (protocol, Some rest) /\
    get_stream_url (camera_type (lobby "offline")) (url (lobby "offline"))
      (username (lobby "offline")) (password (lobby "offline")) = Ret model_url /\
    rtsp_url (lobby "offline")
    = cat model_url (if contains "/" rest then "" else "/").
Proof.
  split; [reflexivity|]. split; [reflexivity|]. split; [reflexivity|].
  split; [reflexivity|]. split; [reflexivity|].
  exact (model_and_manager_urls_agree (lobby "offline")
           eq_refl eq_refl eq_refl eq_refl eq_refl).
Defined.

Lemma length_cat a b :
  String.length (cat a b) = (String.length a + String.length b)%nat.
Proof.
  induction a as [|x a IH]; [reflexivity|]. rewrite cat_cons. simpl. now rewrite IH.
Qed.

Lemma substring_cat_l a t k :
  String.substring (String.length a) k (cat a t) = String.substring 0 k t.
Proof. induction a as [|x a IH]; [reflexivity|]. rewrite cat_cons. exact IH. Qed.

Lemma substring_cat_0 sep b :
  String.substring 0 (String.length sep) (cat sep b) = sep.
Proof.
  induction sep as [|x sep IH].
  - simpl. now destruct (cat "" b).
  - rewrite cat_cons. simpl. now f_equal.
Qed.

(** A string put together around a separator contains it. *)
Lemma contains_cat sep a b : sep <> "" -> contains sep (cat a (cat sep b)) = true.
Proof.
  intros Hsep. unfold contains.
  destruct (String.index 0 sep (cat a (cat sep b))) eqn:E; [reflexivity|].
  exfalso.
  apply (String.index_correct3 0 (String.length a) sep _ E Hsep); [lia|].
  now rewrite substring_cat_l, substring_cat_0.
Qed.

Lemma embedded_contains_at p s u c pw x :
  contains "@" (cat p (cat s (cat u (cat c (cat pw (cat "@" x)))))) = true.
Proof.
  replace (cat p (cat s (cat u (cat c (cat pw (cat "@" x))))))
    with (cat (cat p (cat s (cat u (cat c pw)))) (cat "@" x))
    by (now rewrite !cat_assoc).
  apply contains_cat. discriminate.
Qed.

Lemma rtsp_url_at camera address :
  contains "@" address = true -> rtsp_url (at_url camera address) = address.
Proof.
  intros H. unfold rtsp_url, at_url. simpl. rewrite H. simpl.
  now destruct (truthy (username camera) && truthy (password camera)).
Qed.

(** X30. For a camera with a user name and a password whose address has
    a scheme: the URL that the connection check, the frame capture and
    the proxy build holds an '@', so building it again from that URL
    changes nothing; the credentials are put in once.  The URL that
    [get_stream_url] builds for an HTTP camera is put together without
    that test: it is always longer than the address it starts from, also
    when the address holds the credentials already, and again when built
    from its own result. *)
Theorem credentials_are_embedded_once (camera : Camera) :
  truthy (username camera) = true ->
  truthy (password camera) = true ->
  contains "://" (url camera) = true ->
  contains "@" (rtsp_url camera) = true /\
  rtsp_url (at_url camera (rtsp_url camera)) = rtsp_url camera /\
  (String.length (url camera) < String.length (direct_url camera))%nat /\
  (String.length (direct_url camera)
   < String.length (direct_url (at_url camera (direct_url camera))))%nat.
Proof.
  intros Hu Hp Hscheme.
  assert (Hlonger : forall address,
            contains "://" address = true ->
            contains "://" (direct_url (at_url camera address)) = true /\
            (String.length address
             < String.length (direct_url (at_url camera address)))%nat).
  { intros address Ha. unfold direct_url, at_url. simpl. rewrite Hu, Hp. simpl.
    destruct (split1 "://" address) as [protocol [rest|]] eqn:Hs.
    2:{ apply split1_none in Hs. destruct Hs as [_ Hs]. congruence. }
    rewrite (split1_join "://" address protocol rest) at 1
      by (discriminate || exact Hs).
    destruct (split1 "/" rest) as [host [path|]] eqn:Hr; simpl.
    - split; [apply contains_cat; discriminate|].
      rewrite (split1_join "/" rest host path) by (discriminate || exact Hr).
      rewrite !length_cat. simpl. lia.
    - split; [apply contains_cat; discriminate|].
      apply split1_none in Hr. destruct Hr as [-> _].
      rewrite !length_cat. simpl. lia. }
  assert (Hat : contains "@" (rtsp_url camera) = true).
  { unfold rtsp_url. rewrite Hu, Hp. simpl.
    destruct (contains "@" (url camera)) eqn:Hc; simpl; [exact Hc|].
    destruct (split1 "://" (url camera)) as [protocol [rest|]] eqn:Hs.
    2:{ apply split1_none in Hs. destruct Hs as [_ Hs]. congruence. }
    destruct (split1 "/" rest) as [host path].
    apply embedded_contains_at. }
  split; [exact Hat|]. split; [now apply rtsp_url_at|].
  assert (Hsame : at_url camera (url camera) = camera) by now destruct camera.
  destruct (Hlonger (url camera) Hscheme) as [Hs1 Hl1]. rewrite Hsame in Hs1, Hl1.
  split; [exact Hl1|]. now apply Hlonger.
Qed.

Lemma credentials_are_embedded_once_witness :
  truthy (username (lobby "offline")) = true /\
  truthy (password (lobby "offline")) = true /\
  contains "://" (url (lobby "offline")) = true /\
  contains "@" (rtsp_url (lobby "offline")) = true /\
  rtsp_url (at_url (lobby "offline") (rtsp_url (lobby "offline")))
  = rtsp_url (lobby "offline") /\
  (String.length (url (lobby "offline"))
   < String.length (direct_url (lobby "offline")))%nat /\
  (String.length (direct_url (lobby "offline"))
   < String.length (direct_url (at_url (lobby "offline")
                                  (direct_url (lobby "offline")))))%nat.
Proof.
  split; [reflexivity|]. split; [reflexivity|]. split; [reflexivity|].
  exact (credentials_are_embedded_once (lobby "offline") eq_refl eq_refl eq_refl).
Defined.

End StreamUrlsFacts.
